(** * Slurm Prometheus exporter: the aggregation engine

    A shallow embedding of the collector (both the raw-text variant and the
    parsed-family variant of [internal/collector]), of [internal/config]
    and of the [/metrics] handler of [internal/server], together with the
    properties of the engine that hold of the code. *)

From Stdlib Require Import ZArith NArith Ascii String List Lia Permutation.
From stdpp Require Import base option list gmap strings fin_maps.

Local Open Scope Z_scope.

(** ** Go run-time values shared by all packages *)

(** A Go call either returns or panics. *)
Inductive go (A : Type) : Type :=
| Returns (a : A)
| Panics.
Arguments Returns {A} a.
Arguments Panics {A}.

Definition go_bind {A B : Type} (m : go A) (k : A -> go B) : go B :=
  match m with
  | Returns a => k a
  | Panics => Panics
  end.

Notation "x <-! m ; k" := (go_bind m (fun x => k))
  (at level 100, m at next level, right associativity, only parsing).

(** [for k, v := range m]: the language leaves the order in which the entries
    of a map are visited unspecified, and it may change from one loop to the
    next.  Every loop over a map therefore takes the order it happens to see
    as an argument, and [go_range m order] says that [order] is one of the
    orders the run time may produce. *)
Definition go_range {V : Type} (m : gmap string V) (order : list (string * V)) : Prop :=
  order ≡ₚ map_to_list m.

(** ** Package [strings] and [bufio], on byte strings *)

Module GoStrings.

Definition byte (n : N) : ascii := ascii_of_N n.
Definition LF : ascii := byte 10.
Definition CR : ascii := byte 13.
Definition DQUOTE : ascii := byte 34.
Definition str (c : ascii) : string := String c EmptyString.

Definition isByte (c : ascii) (n : N) : bool := N.eqb (N_of_ascii c) n.

Definition len (s : string) : Z := Z.of_nat (String.length s).

(** [asciiSpace] of package strings. *)
Definition asciiSpace (c : ascii) : bool :=
  isByte c 9 || isByte c 10 || isByte c 11 || isByte c 12 || isByte c 13 || isByte c 32.

(** Width in bytes of the white-space rune ([unicode.IsSpace]) that starts
    the string, [0] when the string does not start with one.  Beyond the six
    ASCII characters these are U+0085, U+00A0, U+1680, U+2000 to U+200A,
    U+2028, U+2029, U+202F, U+205F and U+3000 in their UTF-8 encoding. *)
Definition spaceWidth (s : string) : nat :=
  match s with
  | EmptyString => 0%nat
  | String c r =>
      if asciiSpace c then 1%nat
      else match r with
           | String d r' =>
               if isByte c 194 then (if isByte d 133 || isByte d 160 then 2%nat else 0%nat)
               else match r' with
                    | String e _ =>
                        if isByte c 225 then (if isByte d 154 && isByte e 128 then 3%nat else 0%nat)
                        else if isByte c 226 then
                          (if isByte d 128 &&
                              ((N.leb 128 (N_of_ascii e) && N.leb (N_of_ascii e) 138)
                               || isByte e 168 || isByte e 169 || isByte e 175)
                           then 3%nat
                           else if isByte d 129 && isByte e 159 then 3%nat else 0%nat)
                        else if isByte c 227 then
                          (if isByte d 128 && isByte e 128 then 3%nat else 0%nat)
                        else 0%nat
                    | EmptyString => 0%nat
                    end
           | EmptyString => 0%nat
           end
  end.

Definition HasPrefix (s prefix : string) : bool := String.prefix prefix s.

(** [strings.Index]: byte offset of the first occurrence, [-1] when absent. *)
Fixpoint Index (s substr : string) : Z :=
  if String.prefix substr s then 0
  else match s with
       | EmptyString => -1
       | String _ r => let i := Index r substr in if i <? 0 then -1 else i + 1
       end.

Definition Contains (s substr : string) : bool := 0 <=? Index s substr.

(** [strings.Join]. *)
Definition Join (elems : list string) (sep : string) : string := String.concat sep elems.

(** The slice expression [s[lo:hi]]; out-of-range bounds panic. *)
Definition slice (s : string) (lo hi : Z) : go string :=
  if (0 <=? lo) && (lo <=? hi) && (hi <=? len s)
  then Returns (substring (Z.to_nat lo) (Z.to_nat (hi - lo)) s)
  else Panics.

(** Removal of the white-space runes at the front of a string. *)
Fixpoint trimLeft_go (skip : nat) (s : string) : string :=
  match s with
  | EmptyString => EmptyString
  | String _ r =>
      match skip with
      | S k => trimLeft_go k r
      | O => match spaceWidth s with
             | O => s
             | S k => trimLeft_go k r
             end
      end
  end.

(** The same from the back, on the reversed string: a white-space rune ends
    the string exactly when its encoding does. *)
Fixpoint trimRight_go (fuel : nat) (r : string) : string :=
  match fuel with
  | O => r
  | S fuel' =>
      match r with
      | String c1 r1 =>
          if spaceWidth (str c1) =? 1 then trimRight_go fuel' r1
          else match r1 with
               | String c2 r2 =>
                   if spaceWidth (String c2 (str c1)) =? 2 then trimRight_go fuel' r2
                   else match r2 with
                        | String c3 r3 =>
                            if spaceWidth (String c3 (String c2 (str c1))) =? 3
                            then trimRight_go fuel' r3 else r
                        | EmptyString => r
                        end
               | EmptyString => r
               end
      | EmptyString => r
      end
  end%nat.

(** [strings.TrimSpace]. *)
Definition TrimSpace (s : string) : string :=
  let l := trimLeft_go 0 s in
  String.rev (trimRight_go (String.length l) (String.rev l)).

Definition flush (cur : string) : list string :=
  match cur with
  | EmptyString => []
  | _ => [String.rev cur]
  end.

(** [strings.Fields]: the maximal runs of bytes between white-space runes.
    [cur] is the field being read, reversed; [skip] counts the bytes still
    to pass of a white-space rune of more than one byte. *)
Fixpoint fields_go (skip : nat) (cur : string) (s : string) : list string :=
  match s with
  | EmptyString => flush cur
  | String c r =>
      match skip with
      | S k => fields_go k EmptyString r
      | O => match spaceWidth s with
             | O => fields_go 0 (String c cur) r
             | S k => flush cur ++ fields_go k EmptyString r
             end
      end
  end.

Definition Fields (s : string) : list string := fields_go 0 EmptyString s.

(** *** [bufio.Scanner] with [ScanLines] *)

Definition MaxScanTokenSize : N := 65536.

Definition dropCR (rcur : string) : string :=
  match rcur with
  | String c r => if isByte c 13 then String.rev r else String.rev rcur
  | EmptyString => EmptyString
  end.

(** The lines [scanner.Scan] yields until it returns [false]: at the end of
    the input, or at the first line that does not fit the scanner's buffer
    ([ErrTooLong]; the collector never looks at [scanner.Err]).  [cur] is
    the line being read, reversed, and [n] its length. *)
Fixpoint scan_go (cur : string) (n : N) (s : string) : list string :=
  match s with
  | EmptyString =>
      match cur with
      | EmptyString => []
      | _ => if N.ltb n MaxScanTokenSize then [dropCR cur] else []
      end
  | String c r =>
      if isByte c 10
      then (if N.ltb n MaxScanTokenSize then dropCR cur :: scan_go EmptyString 0 r else [])
      else scan_go (String c cur) (N.succ n) r
  end.

Definition scanLines (s : string) : list string := scan_go EmptyString 0%N s.

(** [scanner.Err] once [Scan] has returned [false]: [true] stands for
    [ErrTooLong], raised at the first line that does not fit the buffer.  [n]
    is the length of the line being read. *)
Fixpoint scanErr_go (n : N) (s : string) : bool :=
  match s with
  | EmptyString => negb (N.ltb n MaxScanTokenSize)
  | String c r =>
      if isByte c 10
      then (if N.ltb n MaxScanTokenSize then scanErr_go 0 r else true)
      else scanErr_go (N.succ n) r
  end.

Definition scanErr (s : string) : bool := scanErr_go 0%N s.

End GoStrings.

(** ** Package [internal/config] *)

Module config.

Record SlurmConfig := {
  URL : string;
  Timeout : string
}.

Record BasicAuthConfig := {
  BasicAuth_Enabled : bool;
  Username : string;
  Password : string
}.

Record SSLConfig := {
  SSL_Enabled : bool;
  CertFile : string;
  KeyFile : string
}.

Record ServerConfig := {
  Port : Z;
  BasicAuth : BasicAuthConfig;
  SSL : SSLConfig
}.

Record EndpointConfig := {
  Name : string;
  Path : string;
  Enabled : bool
}.

Record LoggingConfig := {
  Level : string;
  Output : string
}.

Record Config := {
  Slurm : SlurmConfig;
  Server : ServerConfig;
  Endpoints : list EndpointConfig;
  Labels : gmap string string;
  Logging : LoggingConfig
}.

(** The errors [Validate] builds with [fmt.Errorf], one constructor per
    message. *)
Inductive ValidateError :=
| ErrURLRequired
| ErrTimeoutRequired
| ErrTimeoutFormat
| ErrPortRange
| ErrBasicAuthEmpty
| ErrSSLEmpty
| ErrNoEndpoint
| ErrEndpointName (i : nat)
| ErrEndpointPath (i : nat)
| ErrLoggingLevel.

Definition isEmpty (s : string) : bool :=
  match s with
  | EmptyString => true
  | _ => false
  end.

(** The loop over [c.Endpoints] in [Validate]; [i] is the index of the head. *)
Fixpoint validateEndpoints (i : nat) (endpoints : list EndpointConfig) : option ValidateError :=
  match endpoints with
  | [] => None
  | endpoint :: rest =>
      if isEmpty (Name endpoint) then Some (ErrEndpointName i)
      else if isEmpty (Path endpoint) then Some (ErrEndpointPath i)
      else validateEndpoints (S i) rest
  end.

Definition validLevels : list string :=
  ["debug"; "info"; "warn"; "error"]%string.

Definition setLevel (l : LoggingConfig) (v : string) : LoggingConfig :=
  {| Level := v; Output := Output l |}.

Definition setOutput (l : LoggingConfig) (v : string) : LoggingConfig :=
  {| Level := Level l; Output := v |}.

Definition withLogging (c : Config) (l : LoggingConfig) : Config :=
  {| Slurm := Slurm c; Server := Server c; Endpoints := Endpoints c;
     Labels := Labels c; Logging := l |}.

Section Validate.

(** [time.ParseDuration] of the Go library: [None] is its error. *)
Variable ParseDuration : string -> option Z.

(** [Validate] has a pointer receiver: it returns the configuration as it
    leaves it (the logging defaults filled in) and the error, [None] for
    [nil]. *)
Definition Validate (c : Config) : Config * option ValidateError :=
  if isEmpty (URL (Slurm c)) then (c, Some ErrURLRequired)
  else if isEmpty (Timeout (Slurm c)) then (c, Some ErrTimeoutRequired)
  else match ParseDuration (Timeout (Slurm c)) with
  | None => (c, Some ErrTimeoutFormat)
  | Some _ =>
  if (Port (Server c) <=? 0) || (65535 <? Port (Server c)) then (c, Some ErrPortRange)
  else if BasicAuth_Enabled (BasicAuth (Server c))
          && (isEmpty (Username (BasicAuth (Server c)))
              || isEmpty (Password (BasicAuth (Server c))))
  then (c, Some ErrBasicAuthEmpty)
  else if SSL_Enabled (SSL (Server c))
          && (isEmpty (CertFile (SSL (Server c))) || isEmpty (KeyFile (SSL (Server c))))
  then (c, Some ErrSSLEmpty)
  else if (length (Endpoints c) =? 0)%nat then (c, Some ErrNoEndpoint)
  else match validateEndpoints 0 (Endpoints c) with
  | Some e => (c, Some e)
  | None =>
  let c1 := if isEmpty (Level (Logging c))
            then withLogging c (setLevel (Logging c) "info") else c in
  if negb (existsb (String.eqb (Level (Logging c1))) validLevels)
  then (c1, Some ErrLoggingLevel)
  else
  let c2 := if isEmpty (Output (Logging c1))
            then withLogging c1 (setOutput (Logging c1) "stdout") else c1 in
  (c2, None)
  end
  end.

Definition GetTimeoutDuration (c : Config) : option Z :=
  ParseDuration (Timeout (Slurm c)).

End Validate.

(** [GetEnabledEndpoints]: the enabled endpoints, in configuration order. *)
Fixpoint enabledOf (endpoints : list EndpointConfig) : list EndpointConfig :=
  match endpoints with
  | [] => []
  | endpoint :: rest =>
      if Enabled endpoint then endpoint :: enabledOf rest else enabledOf rest
  end.

Definition GetEnabledEndpoints (c : Config) : list EndpointConfig :=
  enabledOf (Endpoints c).

(** The errors of [Load]. *)
Inductive LoadError :=
| ErrReadFile
| ErrParseFile
| ErrInvalid (e : ValidateError).

Section Load.

(** [os.ReadFile], [yaml.Unmarshal] into a zero [Config], and
    [time.ParseDuration]; [None] is their error. *)
Variable ReadFile : string -> option string.
Variable Unmarshal : string -> option Config.
Variable ParseDuration : string -> option Z.

(** [Load]: the configuration as [Validate] leaves it, or the error. *)
Definition Load (path : string) : Config + LoadError :=
  match ReadFile path with
  | None => inr ErrReadFile
  | Some data =>
      match Unmarshal data with
      | None => inr ErrParseFile
      | Some cfg =>
          match Validate ParseDuration cfg with
          | (_, Some e) => inr (ErrInvalid e)
          | (cfg1, None) => inl cfg1
          end
      end
  end.

End Load.

End config.

(** ** The outside of the process: upstream, run time, response sinks *)

Module runtime.

(** The body of an upstream response: its bytes, or a stream that breaks
    while it is read. *)
Inductive Body :=
| BodyBytes (s : string)
| BodyFails.

(** What one [GET] gives: [http.NewRequestWithContext] refuses the URL,
    [client.Do] fails (connection, timeout, cancellation), or a response. *)
Inductive RoundTrip :=
| RequestError
| DoError
| Response (StatusCode : Z) (body : Body).

(** The world the collector runs in answers requests and chooses the order
    of every loop over a map. *)
Class Runtime (World : Type) := {
  roundTrip : World -> string -> RoundTrip * World;
  mapRange : forall {V : Type}, World -> gmap string V -> list (string * V) * World
}.

(** A run time visits every entry of a map once. *)
Class RuntimeLaws (World : Type) `{Runtime World} := {
  mapRange_ok : forall (V : Type) (w : World) (m : gmap string V),
    go_range m (fst (mapRange w m))
}.

(** The errors of [WriteMetrics]: the sink refuses the bytes, or the encoder
    refuses the family. *)
Inductive WriteError := ErrWrite | ErrEncode.

(** [io.Writer]. *)
Class Writer (W : Type) := {
  Write : W -> string -> W * option WriteError
}.

End runtime.

(** ** Package [internal/metrics]: the exporter's own metrics *)

Module metrics.

Record Registry := {
  ScrapeDuration : list string;
  ScrapeSuccess : gmap string Z;
  ScrapeErrors : gmap string Z;
  HTTPRequestsTotal : gmap (string * string * Z) Z;
  HTTPRequestDuration : list (string * string)
}.

(** [ScrapeDuration.WithLabelValues(name)] observed once by a timer; the
    measured time itself is not part of the model. *)
Definition ObserveDuration (name : string) (r : Registry) : Registry :=
  {| ScrapeDuration := ScrapeDuration r ++ [name];
     ScrapeSuccess := ScrapeSuccess r;
     ScrapeErrors := ScrapeErrors r;
     HTTPRequestsTotal := HTTPRequestsTotal r;
     HTTPRequestDuration := HTTPRequestDuration r |}.

(** [ScrapeSuccess.WithLabelValues(name).Set(v)]. *)
Definition SetSuccess (name : string) (v : Z) (r : Registry) : Registry :=
  {| ScrapeDuration := ScrapeDuration r;
     ScrapeSuccess := <[name := v]> (ScrapeSuccess r);
     ScrapeErrors := ScrapeErrors r;
     HTTPRequestsTotal := HTTPRequestsTotal r;
     HTTPRequestDuration := HTTPRequestDuration r |}.

Definition counter {K : Type} `{Countable K} (m : gmap K Z) (k : K) : Z :=
  default 0 (m !! k).

(** [ScrapeErrors.WithLabelValues(name).Inc()]. *)
Definition IncErrors (name : string) (r : Registry) : Registry :=
  {| ScrapeDuration := ScrapeDuration r;
     ScrapeSuccess := ScrapeSuccess r;
     ScrapeErrors := <[name := counter (ScrapeErrors r) name + 1]> (ScrapeErrors r);
     HTTPRequestsTotal := HTTPRequestsTotal r;
     HTTPRequestDuration := HTTPRequestDuration r |}.

Definition IncRequests (method path : string) (status : Z) (r : Registry) : Registry :=
  {| ScrapeDuration := ScrapeDuration r;
     ScrapeSuccess := ScrapeSuccess r;
     ScrapeErrors := ScrapeErrors r;
     HTTPRequestsTotal :=
       <[(method, path, status) := counter (HTTPRequestsTotal r) (method, path, status) + 1]>
         (HTTPRequestsTotal r);
     HTTPRequestDuration := HTTPRequestDuration r ++ [(method, path)] |}.

End metrics.

(** ** Package [internal/collector]: what both variants share *)

Module collector.
Import config runtime metrics.

(** The errors of the collector, by the message each is made with.
    [ErrParse] is the error of [parseMetrics], made from the parser's;
    [ErrParseMetrics] is the one [collectEndpoint] makes from the error of
    [parseMetrics], which it wraps once more; [ErrTestFile] is the one
    [CollectFromFile] makes from the error of [http.Get]. *)
Inductive CollectError :=
| ErrCreateRequest
| ErrFetch
| ErrStatus (code : Z)
| ErrRead
| ErrParse
| ErrParseMetrics (cause : CollectError)
| ErrTestFile.

Section CollectAll.

Context {World : Type} `{Runtime World}.
Variable Payload : Type.
Variable collectEndpoint :
  Config -> World -> EndpointConfig -> go ((Payload + CollectError) * World).

(** The loop of [CollectAll] over the enabled endpoints. *)
Fixpoint collectLoop (c : Config) (endpoints : list EndpointConfig)
    (w : World) (reg : Registry) (results : gmap string Payload)
    : go (gmap string Payload * World * Registry) :=
  match endpoints with
  | [] => Returns (results, w, reg)
  | endpoint :: rest =>
      r <-! collectEndpoint c w endpoint;
      let reg1 := ObserveDuration (Name endpoint) reg in
      match r with
      | (inr _, w1) =>
          collectLoop c rest w1
            (IncErrors (Name endpoint) (SetSuccess (Name endpoint) 0 reg1)) results
      | (inl metrics, w1) =>
          collectLoop c rest w1
            (SetSuccess (Name endpoint) 1 reg1) (<[Name endpoint := metrics]> results)
      end
  end.

(** [CollectAll]: the map of results and the error, [None] for [nil]. *)
Definition CollectAll (c : Config) (w : World) (reg : Registry)
    : go (gmap string Payload * option CollectError * World * Registry) :=
  r <-! collectLoop c (GetEnabledEndpoints c) w reg ∅;
  match r with
  | (results, w1, reg1) => Returns (results, None, w1, reg1)
  end.

End CollectAll.

End collector.

(** ** The collector that relabels the exposition text line by line *)

Module text_collector.
Import GoStrings config runtime metrics collector.

(** The loop that builds [labelsStr]; [b] is the builder's content so far. *)
Fixpoint buildLabels (first : bool) (entries : list (string * string)) (b : string) : string :=
  match entries with
  | [] => b
  | (key, value) :: rest =>
      let b1 := if first then b else b +:+ "," in
      buildLabels false rest (b1 +:+ key +:+ "=" +:+ str DQUOTE +:+ value +:+ str DQUOTE)
  end.

(** The body of the loop over the scanned lines, [result] being the
    builder's content so far. *)
Definition relabelLine (labelsStr : string) (result : string) (line : string) : go string :=
  if HasPrefix line "#" || String.eqb (TrimSpace line) EmptyString
  then Returns (result +:+ line +:+ str LF)
  else
    let parts := Fields line in
    if (length parts <? 2)%nat then Returns (result +:+ line +:+ str LF)
    else
      match parts with
      | [] => Returns (result +:+ line +:+ str LF)
      | metricPart :: tail =>
          let rest := Join tail " " in
          if Contains metricPart "{" then
            let idx := Index metricPart "{" in
            name <-! slice metricPart 0 idx;
            existingLabels <-! slice metricPart (idx + 1) (len metricPart - 1);
            Returns (result +:+ name +:+ "{" +:+ existingLabels +:+ "," +:+ labelsStr
                     +:+ "} " +:+ rest +:+ str LF)
          else
            Returns (result +:+ metricPart +:+ "{" +:+ labelsStr +:+ "} "
                     +:+ rest +:+ str LF)
      end.

Fixpoint relabelLines (labelsStr : string) (lines : list string) (result : string) : go string :=
  match lines with
  | [] => Returns result
  | line :: rest =>
      result1 <-! relabelLine labelsStr result line;
      relabelLines labelsStr rest result1
  end.

Section Collector.

Context {World : Type} `{Runtime World}.

(** [addCustomLabels]: the relabelled text.  The world chooses the order of
    the loop over [c.config.Labels]. *)
Definition addCustomLabels (c : Config) (w : World) (metricsText : string)
    : go (string * World) :=
  if (size (Labels c) =? 0)%nat then Returns (metricsText, w)
  else
    let '(order, w1) := mapRange w (Labels c) in
    let labelsStr := buildLabels true order EmptyString in
    text <-! relabelLines labelsStr (scanLines metricsText) EmptyString;
    Returns (text, w1).

Definition collectEndpoint (c : Config) (w : World) (endpoint : EndpointConfig)
    : go ((string + CollectError) * World) :=
  let url := URL (Slurm c) +:+ Path endpoint in
  match roundTrip w url with
  | (RequestError, w1) => Returns (inr ErrCreateRequest, w1)
  | (DoError, w1) => Returns (inr ErrFetch, w1)
  | (Response code body, w1) =>
      if negb (code =? 200) then Returns (inr (ErrStatus code), w1)
      else match body with
           | BodyFails => Returns (inr ErrRead, w1)
           | BodyBytes buffer =>
               r <-! addCustomLabels c w1 buffer;
               Returns (inl (fst r), snd r)
           end
  end.

(** The loop of [WriteMetrics] over the entries in the order visited. *)
Fixpoint writeEntries {W : Type} `{Writer W} (entries : list (string * string)) (w : W)
    : W * option WriteError :=
  match entries with
  | [] => (w, None)
  | (_, metricsText) :: rest =>
      match Write w metricsText with
      | (w1, Some err) => (w1, Some err)
      | (w1, None) => writeEntries rest w1
      end
  end.

Definition WriteMetrics {W : Type} `{Writer W} (world : World) (w : W)
    (metricsMap : gmap string string) : W * option WriteError * World :=
  let '(order, world1) := mapRange world metricsMap in
  (writeEntries order w, world1).

End Collector.

End text_collector.

(** ** The collector that parses the exposition into metric families *)

Module family_collector.
Import GoStrings config runtime metrics collector.

(** The messages of [client_model] the collector handles.  A family holds
    pointers to its metrics; the metrics live in a heap, since the collector
    updates them in place.  [Rest] stands for the fields of a metric the
    collector never reads (value, timestamp). *)
Abbreviation ptr := positive.

Record LabelPair := {
  lp_Name : string;
  lp_Value : string
}.

Inductive MetricType := COUNTER | GAUGE | SUMMARY | UNTYPED | HISTOGRAM.

Record Metric := {
  Label : list LabelPair;
  Rest : string
}.

Record MetricFamily := {
  mf_Name : string;
  mf_Help : string;
  mf_Type : MetricType;
  mf_Metric : list ptr
}.

Definition Heap := gmap ptr Metric.

(** What one endpoint yields: the slice of families and the objects they
    point to. *)
Definition Families : Type := list MetricFamily * gmap ptr Metric.

(** Package [expfmt] of the Prometheus library: the text parser, [None]
    being its error, and the text encoder of one family, [None] being its
    error. *)
Class Expfmt := {
  TextToMetricFamilies : Body -> option (gmap string MetricFamily * gmap ptr Metric);
  Encode : gmap ptr Metric -> MetricFamily -> option string
}.

Definition setLabel (metric : Metric) (l : list LabelPair) : Metric :=
  {| Label := l; Rest := Rest metric |}.

(** The loop that builds [customLabels] from the configured labels. *)
Fixpoint buildCustomLabels (entries : list (string * string)) (customLabels : list LabelPair)
    : list LabelPair :=
  match entries with
  | [] => customLabels
  | (key, value) :: rest =>
      buildCustomLabels rest (customLabels ++ [{| lp_Name := key; lp_Value := value |}])
  end.

(** [metric.Label = append(metric.Label, customLabels...)] for every metric
    of one family; a nil pointer panics. *)
Fixpoint labelMetrics (customLabels : list LabelPair) (metricPtrs : list ptr)
    (h : gmap ptr Metric) : go (gmap ptr Metric) :=
  match metricPtrs with
  | [] => Returns h
  | p :: rest =>
      match h !! p with
      | None => Panics
      | Some metric =>
          labelMetrics customLabels rest
            (<[p := setLabel metric (Label metric ++ customLabels)]> h)
      end
  end.

Fixpoint labelFamilies (customLabels : list LabelPair) (families : list MetricFamily)
    (h : gmap ptr Metric) : go (gmap ptr Metric) :=
  match families with
  | [] => Returns h
  | family :: rest =>
      h1 <-! labelMetrics customLabels (mf_Metric family) h;
      labelFamilies customLabels rest h1
  end.

Section Collector.

Context {World : Type} `{Runtime World} `{Expfmt}.

(** [parseMetrics]: the parser's map of families turned into a slice by a
    loop over the map. *)
Definition parseMetrics (w : World) (reader : Body) : (Families + CollectError) * World :=
  match TextToMetricFamilies reader with
  | None => (inr ErrParse, w)
  | Some (metricFamilies, h) =>
      let '(order, w1) := mapRange w metricFamilies in
      (inl (map snd order, h), w1)
  end.

(** [addCustomLabels]: the slice it was given, the metrics updated in place. *)
Definition addCustomLabels (c : Config) (w : World) (families : Families)
    : go (Families * World) :=
  if (size (Labels c) =? 0)%nat then Returns (families, w)
  else
    let '(order, w1) := mapRange w (Labels c) in
    let customLabels := buildCustomLabels order [] in
    h1 <-! labelFamilies customLabels (fst families) (snd families);
    Returns ((fst families, h1), w1).

Definition collectEndpoint (c : Config) (w : World) (endpoint : EndpointConfig)
    : go ((Families + CollectError) * World) :=
  let url := URL (Slurm c) +:+ Path endpoint in
  match roundTrip w url with
  | (RequestError, w1) => Returns (inr ErrCreateRequest, w1)
  | (DoError, w1) => Returns (inr ErrFetch, w1)
  | (Response code body, w1) =>
      if negb (code =? 200) then Returns (inr (ErrStatus code), w1)
      else match parseMetrics w1 body with
           | (inr err, w2) => Returns (inr (ErrParseMetrics err), w2)
           | (inl metricFamilies, w2) =>
               r <-! addCustomLabels c w2 metricFamilies;
               Returns (inl (fst r), snd r)
           end
  end.

(** The inner loop of [WriteMetrics]: [encoder.Encode] on each family. *)
Fixpoint encodeFamilies {W : Type} `{Writer W} (h : gmap ptr Metric)
    (metricFamilies : list MetricFamily) (w : W) : W * option WriteError :=
  match metricFamilies with
  | [] => (w, None)
  | family :: rest =>
      match Encode h family with
      | None => (w, Some ErrEncode)
      | Some text =>
          match Write w text with
          | (w1, Some err) => (w1, Some err)
          | (w1, None) => encodeFamilies h rest w1
          end
      end
  end.

Fixpoint writeEntries {W : Type} `{Writer W} (entries : list (string * Families)) (w : W)
    : W * option WriteError :=
  match entries with
  | [] => (w, None)
  | (_, metricFamilies) :: rest =>
      match encodeFamilies (snd metricFamilies) (fst metricFamilies) w with
      | (w1, Some err) => (w1, Some err)
      | (w1, None) => writeEntries rest w1
      end
  end.

Definition WriteMetrics {W : Type} `{Writer W} (world : World) (w : W)
    (families : gmap string Families) : W * option WriteError * World :=
  let '(order, world1) := mapRange world families in
  (writeEntries order w, world1).

End Collector.

(** What [NewCollector] keeps of its arguments: the configuration and the
    timeout of the HTTP client. *)
Record Collector := {
  c_config : Config;
  c_timeout : Z
}.

(** [NewCollector]; [None] is the error of an invalid timeout. *)
Definition NewCollector (ParseDuration : string -> option Z) (cfg : Config) : option Collector :=
  match GetTimeoutDuration ParseDuration cfg with
  | None => None
  | Some timeout => Some {| c_config := cfg; c_timeout := timeout |}
  end.

(** The errors of [GetMetricsAsText]. *)
Inductive TextError :=
| ErrEndpointNotFound (endpointName : string)
| ErrTextRequest
| ErrTextFetch
| ErrTextStatus (code : Z)
| ErrTextRead.

(** The loop of [GetMetricsAsText] over [c.config.Endpoints]: the first
    endpoint of that name that is enabled. *)
Fixpoint findEndpoint (endpoints : list EndpointConfig) (endpointName : string)
    : option EndpointConfig :=
  match endpoints with
  | [] => None
  | ep :: rest =>
      if String.eqb (Name ep) endpointName && Enabled ep then Some ep
      else findEndpoint rest endpointName
  end.

(** The loop over the scanned lines: each line and a line feed go to the
    builder. *)
Fixpoint copyLines (lines : list string) (builder : string) : string :=
  match lines with
  | [] => builder
  | line :: rest => copyLines rest (builder +:+ line +:+ str LF)
  end.

Section Debugging.

Context {World : Type} `{Runtime World} `{Expfmt}.

Definition GetMetricsAsText (c : Config) (w : World) (endpointName : string)
    : (string + TextError) * World :=
  match findEndpoint (Endpoints c) endpointName with
  | None => (inr (ErrEndpointNotFound endpointName), w)
  | Some endpoint =>
      match roundTrip w (URL (Slurm c) +:+ Path endpoint) with
      | (RequestError, w1) => (inr ErrTextRequest, w1)
      | (DoError, w1) => (inr ErrTextFetch, w1)
      | (Response code body, w1) =>
          if negb (code =? 200) then (inr (ErrTextStatus code), w1)
          else match body with
               | BodyFails => (inr ErrTextRead, w1)
               | BodyBytes s =>
                   if scanErr s then (inr ErrTextRead, w1)
                   else (inl (copyLines (scanLines s) EmptyString), w1)
               end
      end
  end.

(** [CollectFromFile]: [http.Get] and [parseMetrics], whatever the status. *)
Definition CollectFromFile (w : World) (filePath : string)
    : (Families + CollectError) * World :=
  match roundTrip w filePath with
  | (RequestError, w1) => (inr ErrTestFile, w1)
  | (DoError, w1) => (inr ErrTestFile, w1)
  | (Response _ body, w1) => parseMetrics w1 body
  end.

End Debugging.

End family_collector.

(** ** Package [internal/server]: the [/metrics] route *)

Module server.
Import GoStrings config runtime metrics collector.

(** [http.ResponseWriter]. *)
Class ResponseWriter (W : Type) := {
  rw_Writer :: Writer W;
  WriteHeader : W -> Z -> W;
  HeaderSet : W -> string -> string -> W
}.

(** The response of [net/http] as the client receives it.  The first
    [WriteHeader] fixes the status line and the header; a [Write] before any
    [WriteHeader] sends status 200 first.  [writesLeft] is the number of
    writes the connection still takes, [None] when it never breaks. *)
Record response := {
  status : option Z;
  header : gmap string string;
  body : string;
  writesLeft : option nat
}.

Definition response_WriteHeader (r : response) (code : Z) : response :=
  match status r with
  | Some _ => r
  | None => {| status := Some code; header := header r; body := body r;
               writesLeft := writesLeft r |}
  end.

Definition response_HeaderSet (r : response) (k v : string) : response :=
  match status r with
  | Some _ => r
  | None => {| status := status r; header := <[k := v]> (header r); body := body r;
               writesLeft := writesLeft r |}
  end.

Definition response_Write (r : response) (b : string) : response * option WriteError :=
  let r1 := response_WriteHeader r 200 in
  match writesLeft r1 with
  | Some O => (r1, Some ErrWrite)
  | Some (S n) =>
      ({| status := status r1; header := header r1; body := body r1 +:+ b;
          writesLeft := Some n |}, None)
  | None =>
      ({| status := status r1; header := header r1; body := body r1 +:+ b;
          writesLeft := None |}, None)
  end.

#[global] Instance response_ResponseWriter : ResponseWriter response := {
  rw_Writer := {| Write := response_Write |};
  WriteHeader := response_WriteHeader;
  HeaderSet := response_HeaderSet
}.

(** The status the client reads once the handler has returned: the server
    sends 200 when the handler never wrote the header. *)
Definition finalStatus (r : response) : Z := default 200 (status r).

(** [responseWriterWrapper]. *)
Record responseWriterWrapper (W : Type) := {
  inner : W;
  statusCode : Z
}.
Arguments inner {W} _.
Arguments statusCode {W} _.

Definition wrapper_WriteHeader {W : Type} `{ResponseWriter W}
    (w : responseWriterWrapper W) (code : Z) : responseWriterWrapper W :=
  if statusCode w =? 0
  then {| inner := WriteHeader (inner w) code; statusCode := code |}
  else w.

Definition wrapper_Write {W : Type} `{ResponseWriter W}
    (w : responseWriterWrapper W) (b : string) : responseWriterWrapper W * option WriteError :=
  let w1 := if statusCode w =? 0
            then {| inner := WriteHeader (inner w) 200; statusCode := 200 |}
            else w in
  match Write (inner w1) b with
  | (i, err) => ({| inner := i; statusCode := statusCode w1 |}, err)
  end.

#[global] Instance wrapper_ResponseWriter {W : Type} `{ResponseWriter W}
    : ResponseWriter (responseWriterWrapper W) := {
  rw_Writer := {| Write := wrapper_Write |};
  WriteHeader := wrapper_WriteHeader;
  HeaderSet w k v := {| inner := HeaderSet (inner w) k v; statusCode := statusCode w |}
}.

(** [http.Error]. *)
Definition Error {W : Type} `{ResponseWriter W} (w : W) (msg : string) (code : Z) : W :=
  let w1 := HeaderSet w "Content-Type" "text/plain; charset=utf-8" in
  let w2 := HeaderSet w1 "X-Content-Type-Options" "nosniff" in
  let w3 := WriteHeader w2 code in
  fst (Write w3 (msg +:+ str LF)).

Record Request := {
  Method : string;
  URLPath : string
}.

Section Server.

Context {World : Type} `{Runtime World}.
Variable Payload : Type.
Variable collectEndpoint :
  Config -> World -> EndpointConfig -> go ((Payload + CollectError) * World).
Variable WriteMetrics :
  forall (W : Type), Writer W -> World -> W -> gmap string Payload ->
    W * option WriteError * World.

(** [promhttp.Handler] of the Prometheus library writes the exposition of
    the exporter's own metrics. *)
Variable expose : Registry -> string.

Definition promhttp_ServeHTTP {W : Type} `{ResponseWriter W} (reg : Registry) (w : W) : W :=
  fst (Write w (expose reg)).

(** The handler [handleMetrics] returns. *)
Definition handleMetrics {W : Type} `{ResponseWriter W}
    (c : Config) (world : World) (reg : Registry) (w : W) : go (W * World * Registry) :=
  r <-! CollectAll Payload collectEndpoint c world reg;
  match r with
  | (metricsMap, Some _, world1, reg1) =>
      Returns (Error w "Failed to collect metrics" 500, world1, reg1)
  | (metricsMap, None, world1, reg1) =>
      let w1 := HeaderSet w "Content-Type" "text/plain; version=0.0.4; charset=utf-8" in
      match WriteMetrics W _ world1 w1 metricsMap with
      | (w2, Some _, world2) => Returns (w2, world2, reg1)
      | (w2, None, world2) => Returns (promhttp_ServeHTTP reg1 w2, world2, reg1)
      end
  end.

(** [instrumentHandler] around [handleMetrics], as [Start] mounts it on
    [/metrics]. *)
Definition metricsRoute (c : Config) (world : World) (reg : Registry)
    (req : Request) (w : response) : go (response * World * Registry) :=
  let wrw := {| inner := w; statusCode := 200 |} in
  r <-! handleMetrics c world reg wrw;
  match r with
  | (wrw1, world1, reg1) =>
      Returns (inner wrw1, world1,
               IncRequests (Method req) (URLPath req) (statusCode wrw1) reg1)
  end.

End Server.

(** [subtle.ConstantTimeByteEq] on two bytes: the 32-bit difference minus
    one, shifted right by 31. *)
Definition ConstantTimeByteEq (x y : Z) : Z :=
  Z.shiftr ((Z.lxor x y - 1) mod 2 ^ 32) 31.

(** The loop of [subtle.ConstantTimeCompare]: [v |= x[i] ^ y[i]]. *)
Fixpoint xorBytes (x y : string) (v : Z) : Z :=
  match x, y with
  | String a x1, String b y1 =>
      xorBytes x1 y1 (Z.lor v (Z.lxor (Z.of_N (N_of_ascii a)) (Z.of_N (N_of_ascii b))))
  | _, _ => v
  end.

(** [subtle.ConstantTimeCompare]. *)
Definition ConstantTimeCompare (x y : string) : Z :=
  if negb (String.length x =? String.length y)%nat then 0
  else ConstantTimeByteEq (xorBytes x y 0) 0.

(** [basicAuthMiddleware].  [credentials] is what [r.BasicAuth] gives, [None]
    when the request has no valid basic authentication header; [next] is the
    handler wrapped and [back] what returning to the server amounts to. *)
Definition basicAuthMiddleware {W T : Type} `{ResponseWriter W} (c : Config)
    (next : W -> T) (back : W -> T) (credentials : option (string * string)) (w : W) : T :=
  let ok := match credentials with Some _ => true | None => false end in
  let username := match credentials with Some (u, _) => u | None => EmptyString end in
  let password := match credentials with Some (_, p) => p | None => EmptyString end in
  let usernameMatch := ConstantTimeCompare username (Username (BasicAuth (Server c))) in
  let passwordMatch := ConstantTimeCompare password (Password (BasicAuth (Server c))) in
  if negb ok || negb (usernameMatch =? 1) || negb (passwordMatch =? 1)
  then
    let w1 := HeaderSet w "WWW-Authenticate"
                (("Basic realm=" +:+ str DQUOTE +:+ "Slurm Exporter" +:+ str DQUOTE)%string) in
    back (Error w1 "Unauthorized" 401)
  else next w.

Section Start.

Context {World : Type} `{Runtime World}.
Variable Payload : Type.
Variable collectEndpoint :
  Config -> World -> EndpointConfig -> go ((Payload + CollectError) * World).
Variable WriteMetrics :
  forall (W : Type), Writer W -> World -> W -> gmap string Payload ->
    W * option WriteError * World.
Variable expose : Registry -> string.

(** The handler [Start] installs, on a request the mux hands to the pattern
    [/metrics]: the instrumented handler, behind [basicAuthMiddleware] when
    basic authentication is enabled.  The middleware that returns without
    calling the mux leaves the world and the registry as they are. *)
Definition Start_metrics (c : Config) (world : World) (reg : Registry) (req : Request)
    (credentials : option (string * string)) (w : response)
    : go (response * World * Registry) :=
  let mux := fun w0 : response =>
    metricsRoute Payload collectEndpoint WriteMetrics expose c world reg req w0 in
  if BasicAuth_Enabled (BasicAuth (Server c))
  then basicAuthMiddleware c mux (fun w1 => Returns (w1, world, reg)) credentials w
  else mux w.

End Start.

End server.

(** ** Package [main]: the logger *)

Module exporter.
Import config.

(** The levels of [log/slog] and the two handlers [setupLogger] chooses
    from. *)
Inductive slogLevel := LevelDebug | LevelInfo | LevelWarn | LevelError.

Inductive Handler := JSONHandler | TextHandler.

(** [setupLogger]: the level and the handler of the logger it builds. *)
Definition setupLogger (cfg : LoggingConfig) : slogLevel * Handler :=
  let level :=
    if String.eqb (Level cfg) "debug" then LevelDebug
    else if String.eqb (Level cfg) "info" then LevelInfo
    else if String.eqb (Level cfg) "warn" then LevelWarn
    else if String.eqb (Level cfg) "error" then LevelError
    else LevelInfo in
  (level, if String.eqb (Output cfg) "json" then JSONHandler else TextHandler).

(** The part of [main] that lets the flags [--log.level] and [--log.format]
    override the logging configuration. *)
Definition overrideLogging (logLevel logFormat : string) (cfg : Config) : Config :=
  let cfg1 := if negb (String.eqb logLevel "info")
              then withLogging cfg (setLevel (Logging cfg) logLevel) else cfg in
  if negb (String.eqb logFormat "text")
  then (if String.eqb logFormat "json"
        then withLogging cfg1 (setOutput (Logging cfg1) "json") else cfg1)
  else cfg1.

End exporter.

(** ** A concrete world, for running the collector

    The upstream answers from a table; every loop over a map visits the
    entries in the order of [map_to_list], or in the reverse order when
    [reversed] is set, and each loop flips [reversed] for the next one. *)

Module fixtures.
Import GoStrings config runtime metrics collector.
Local Open Scope string_scope.

Record canned := {
  upstream : list (string * RoundTrip);
  reversed : bool
}.

Definition answer (table : list (string * RoundTrip)) (url : string) : RoundTrip :=
  match List.find (fun p => String.eqb (fst p) url) table with
  | Some p => snd p
  | None => DoError
  end.

Definition visit {V : Type} (w : canned) (m : gmap string V) : list (string * V) :=
  if reversed w then reverse (map_to_list m) else map_to_list m.

#[global] Instance canned_Runtime : Runtime canned := {
  roundTrip w url := (answer (upstream w) url, w);
  mapRange V w m := (visit w m, {| upstream := upstream w; reversed := negb (reversed w) |})
}.

Definition noAuth : BasicAuthConfig :=
  {| BasicAuth_Enabled := false; Username := EmptyString; Password := EmptyString |}.

Definition noSSL : SSLConfig :=
  {| SSL_Enabled := false; CertFile := EmptyString; KeyFile := EmptyString |}.

Definition mkConfig (endpoints : list EndpointConfig) (labels : gmap string string) : Config :=
  {| Slurm := {| URL := "http://slurm:6817"; Timeout := "10s" |};
     Server := {| Port := 8080; BasicAuth := noAuth; SSL := noSSL |};
     Endpoints := endpoints;
     Labels := labels;
     Logging := {| Level := "info"; Output := "stdout" |} |}.

Definition nodes : EndpointConfig :=
  {| Name := "nodes"; Path := "/metrics/nodes"; Enabled := true |}.
Definition jobs : EndpointConfig :=
  {| Name := "jobs"; Path := "/metrics/jobs"; Enabled := true |}.
Definition scheduler : EndpointConfig :=
  {| Name := "scheduler"; Path := "/metrics/scheduler"; Enabled := true |}.

Definition oneLabel : gmap string string := {[ "cluster" := "c1" ]}.
Definition twoLabels : gmap string string := <[ "env" := "prod" ]> oneLabel.

Definition quoted (s : string) : string := str DQUOTE +:+ s +:+ str DQUOTE.

Definition emptyRegistry : Registry :=
  {| ScrapeDuration := []; ScrapeSuccess := ∅; ScrapeErrors := ∅;
     HTTPRequestsTotal := ∅; HTTPRequestDuration := [] |}.

Definition world0 : canned := {| upstream := []; reversed := false |}.

(** One parsed family with one metric that already carries a [cluster]
    label. *)
Definition upMetric : family_collector.Metric :=
  {| family_collector.Label :=
       [{| family_collector.lp_Name := "cluster"; family_collector.lp_Value := "upstream" |}];
     family_collector.Rest := "5" |}.

Definition idle : family_collector.MetricFamily :=
  {| family_collector.mf_Name := "slurm_nodes_idle";
     family_collector.mf_Help := EmptyString;
     family_collector.mf_Type := family_collector.GAUGE;
     family_collector.mf_Metric := [1%positive] |}.

Definition parsed : family_collector.Families := ([idle], {[ 1%positive := upMetric ]}).

(** The same sample as a line of exposition text. *)
Definition idleLine : string :=
  "slurm_nodes_idle{cluster=" +:+ quoted "upstream" +:+ "} 5" +:+ str LF.

(** A duration parser that knows the one timeout the fixtures use. *)
Definition tenSeconds (s : string) : option Z :=
  if String.eqb s "10s" then Some 10000000000 else None.

(** A configuration whose only endpoint is switched off. *)
Definition allDisabled : Config :=
  mkConfig [{| Name := "nodes"; Path := "/metrics/nodes"; Enabled := false |}] ∅.

(** A sample of metric [m] whose label [k] has the value made of the four
    bytes [a], space, quote, backslash, written with the quote and the
    backslash escaped by a backslash each. *)
Definition escapedLine : string :=
  "m{k=" +:+ str DQUOTE +:+ "a \" +:+ str DQUOTE +:+ "\\" +:+ str DQUOTE +:+ "} 1".

(** The same without the space in the value. *)
Definition escapedNoSpace : string :=
  "m{k=" +:+ str DQUOTE +:+ "a\" +:+ str DQUOTE +:+ "\\" +:+ str DQUOTE +:+ "} 1".

(** An upstream that answers the given endpoints. *)
Definition urlOf (c : Config) (e : EndpointConfig) : string := URL (Slurm c) +:+ Path e.

Definition serving (c : Config) (answers : list (EndpointConfig * RoundTrip)) : canned :=
  {| upstream := map (fun p => (urlOf c p.1, p.2)) answers; reversed := false |}.

Definition ok (s : string) : RoundTrip := Response 200 (BodyBytes s).

(** A body of three lines, the second of a single token. *)
Definition bodyWithJunk : string :=
  "slurm_nodes_idle 5" +:+ str LF +:+ "junk" +:+ str LF +:+ "slurm_jobs 7" +:+ str LF.

(** A body whose second line has a first field that ends in an open brace. *)
Definition bodyWithOpenBrace : string :=
  "slurm_nodes_idle 5" +:+ str LF +:+ "slurm_jobs{ 7" +:+ str LF.

(** A response nothing was written to, on a connection that does not
    break, and the same behind the instrumenting wrapper. *)
Definition fresh : server.response :=
  {| server.status := None; server.header := ∅; server.body := EmptyString;
     server.writesLeft := None |}.

Definition freshSink : server.responseWriterWrapper server.response :=
  {| server.inner := fresh; server.statusCode := 200 |}.

Definition scrape : server.Request :=
  {| server.Method := "GET"; server.URLPath := "/metrics" |}.

(** The exporter's own exposition, reduced to the success gauge of the
    scheduler endpoint. *)
Definition exposeScheduler (reg : Registry) : string :=
  match ScrapeSuccess reg !! "scheduler" with
  | Some 1 => "slurm_exporter_scrape_success{endpoint=" +:+ quoted "scheduler" +:+ "} 1"
              +:+ str LF
  | _ => "slurm_exporter_scrape_success{endpoint=" +:+ quoted "scheduler" +:+ "} 0"
         +:+ str LF
  end.

(** *** A small stand-in for [expfmt]

    It parses two bodies, the one of the nodes endpoint with two families
    and the one of the jobs endpoint with one, and rejects everything else;
    it encodes a family as one line per metric. *)

Definition nodesBody : string :=
  "slurm_nodes_idle 5" +:+ str LF +:+ "slurm_nodes_alloc 3" +:+ str LF.

Definition jobsBody : string := "slurm_jobs 7" +:+ str LF.

Definition gaugeOf (name : string) (p : positive) : family_collector.MetricFamily :=
  {| family_collector.mf_Name := name;
     family_collector.mf_Help := EmptyString;
     family_collector.mf_Type := family_collector.UNTYPED;
     family_collector.mf_Metric := [p] |}.

Definition bare (value : string) : family_collector.Metric :=
  {| family_collector.Label := []; family_collector.Rest := value |}.

Definition toyParse (reader : Body)
    : option (gmap string family_collector.MetricFamily * gmap positive family_collector.Metric) :=
  match reader with
  | BodyFails => None
  | BodyBytes s =>
      if String.eqb s nodesBody
      then Some (<["slurm_nodes_alloc" := gaugeOf "slurm_nodes_alloc" 2]>
                   {["slurm_nodes_idle" := gaugeOf "slurm_nodes_idle" 1]},
                 <[2%positive := bare "3"]> {[1%positive := bare "5"]})
      else if String.eqb s jobsBody
      then Some ({["slurm_jobs" := gaugeOf "slurm_jobs" 1]}, {[1%positive := bare "7"]})
      else None
  end.

Definition toyLabel (l : family_collector.LabelPair) : string :=
  family_collector.lp_Name l +:+ "=" +:+ quoted (family_collector.lp_Value l).

Definition toyMetric (name : string) (m : family_collector.Metric) : string :=
  name +:+ "{" +:+ Join (map toyLabel (family_collector.Label m)) "," +:+ "} "
  +:+ family_collector.Rest m +:+ str LF.

Definition toyEncode (h : gmap positive family_collector.Metric)
    (f : family_collector.MetricFamily) : option string :=
  String.concat EmptyString
    <$> mapM (fun p => toyMetric (family_collector.mf_Name f) <$> h !! p)
          (family_collector.mf_Metric f).

Definition toyExpfmt : family_collector.Expfmt :=
  {| family_collector.TextToMetricFamilies := toyParse;
     family_collector.Encode := toyEncode |}.

(** Three endpoints of which the scheduler's answers 503. *)
Definition threeEndpoints : Config := mkConfig [nodes; scheduler; jobs] oneLabel.

Definition degraded : canned :=
  serving threeEndpoints
    [(nodes, ok nodesBody); (scheduler, Response 503 (BodyBytes EmptyString));
     (jobs, ok jobsBody)].

(** A configuration file that leaves the logging section out, the file
    system that holds it and the YAML parser that reads it. *)
Definition noLogging : Config :=
  withLogging (mkConfig [nodes; jobs] oneLabel)
    {| Level := EmptyString; Output := EmptyString |}.

Definition yamlText : string := "slurm: {url: http://slurm:6817, timeout: 10s}".

Definition oneFile (path : string) : option string :=
  if String.eqb path "config.yaml" then Some yamlText else None.

Definition yamlOf (data : string) : option Config :=
  if String.eqb data yamlText then Some noLogging else None.

(** Two enabled endpoints of one name, of which the second answers 503, and
    the same with the failing one first. *)
Definition nodesAgain : EndpointConfig :=
  {| Name := "nodes"; Path := "/metrics/nodes2"; Enabled := true |}.

Definition twins : Config := mkConfig [nodes; nodesAgain; jobs] ∅.

Definition halfDown : canned :=
  serving twins
    [(nodes, ok nodesBody); (nodesAgain, Response 503 (BodyBytes EmptyString));
     (jobs, ok jobsBody)].

(** A configuration with basic authentication switched on. *)
Definition withAuth : Config :=
  {| Slurm := Slurm threeEndpoints;
     Server := {| Port := 8080;
                  BasicAuth := {| BasicAuth_Enabled := true; Username := "prom";
                                  Password := "s3cret" |};
                  SSL := noSSL |};
     Endpoints := Endpoints threeEndpoints;
     Labels := Labels threeEndpoints;
     Logging := Logging threeEndpoints |}.

(** An upstream whose jobs endpoint answers 503 with a body that parses. *)
Definition errorPage : canned :=
  serving threeEndpoints [(jobs, Response 503 (BodyBytes jobsBody))].

(** A response on a connection that takes [n] more writes. *)
Definition hangsUp (n : nat) : server.response :=
  {| server.status := None; server.header := ∅; server.body := EmptyString;
     server.writesLeft := Some n |}.

End fixtures.

(** ** Vocabulary of the properties *)

Module props.
Import GoStrings config runtime metrics collector family_collector.

(** [l] repeated [n] times. *)
Definition times {A : Type} (n : nat) (l : list A) : list A := mjoin (replicate n l).

(** The label pairs of the configured labels, in the order visited. *)
Definition customOf (order : list (string * string)) : list LabelPair :=
  map (fun kv => {| lp_Name := kv.1; lp_Value := kv.2 |}) order.

(** A metric after [n] rounds of appending the custom labels. *)
Definition appended (n : nat) (customLabels : list LabelPair) (metric : Metric) : Metric :=
  setLabel metric (Label metric ++ times n customLabels).

(** The metric pointers of a slice of families, with repetition. *)
Definition ptrsOf (families : list MetricFamily) : list ptr :=
  mjoin (mf_Metric <$> families).

(** No family points outside the heap. *)
Definition closed (families : Families) : Prop :=
  Forall (fun p => is_Some (families.2 !! p)) (ptrsOf families.1).

(** The values a label list gives for one key, in order. *)
Definition valuesOf (k : string) (l : list LabelPair) : list string :=
  lp_Value <$> filter (fun p => lp_Name p = k) l.

(** *** One scrape, endpoint by endpoint *)

Section Trace.

Context {World Payload : Type}.
Variable collectEndpoint :
  Config -> World -> EndpointConfig -> go ((Payload + CollectError) * World).

(** What each endpoint gives when the endpoints are collected one after the
    other, and the world after the last one; a panic of any of them is a
    panic of the whole. *)
Fixpoint trace (c : Config) (endpoints : list EndpointConfig) (w : World)
    : go (list (EndpointConfig * (Payload + CollectError)) * World) :=
  match endpoints with
  | [] => Returns ([], w)
  | endpoint :: rest =>
      r <-! collectEndpoint c w endpoint;
      t <-! trace c rest r.2;
      Returns ((endpoint, r.1) :: t.1, t.2)
  end.

End Trace.

Definition nameOf {Payload : Type} (eo : EndpointConfig * (Payload + CollectError)) : string :=
  Name eo.1.

Definition succeeded {Payload : Type} (eo : EndpointConfig * (Payload + CollectError))
    : option (string * Payload) :=
  match eo.2 with
  | inl metrics => Some (Name eo.1, metrics)
  | inr _ => None
  end.

(** The endpoints that succeeded, by name, with what they gave, in
    declaration order. *)
Definition successes {Payload : Type} (tr : list (EndpointConfig * (Payload + CollectError)))
    : list (string * Payload) :=
  omap succeeded tr.

(** What [CollectAll] tells the registry about one endpoint. *)
Definition recordOutcome {Payload : Type} (reg : Registry)
    (eo : EndpointConfig * (Payload + CollectError)) : Registry :=
  match eo.2 with
  | inl _ => SetSuccess (Name eo.1) 1 (ObserveDuration (Name eo.1) reg)
  | inr _ => IncErrors (Name eo.1) (SetSuccess (Name eo.1) 0 (ObserveDuration (Name eo.1) reg))
  end.

Definition recorded {Payload : Type} (tr : list (EndpointConfig * (Payload + CollectError)))
    (reg : Registry) : Registry :=
  fold_left recordOutcome tr reg.

Definition store {Payload : Type} (results : gmap string Payload) (kv : string * Payload)
    : gmap string Payload :=
  <[kv.1 := kv.2]> results.

(** The strings of a list, one after the other. *)
Definition joined (l : list string) : string := foldr String.app EmptyString l.

(** The text the family collector writes for the families of one endpoint,
    when the encoder takes each of them. *)
Definition encoded `{Expfmt} (families : Families) : option string :=
  joined <$> mapM (Encode families.2) families.1.

(** The parser hands out no nil metric: the metrics its families point to
    are in the heap it returns. *)
Definition parserClosed `{Expfmt} : Prop :=
  forall reader parsed h0 name f p,
    TextToMetricFamilies reader = Some (parsed, h0) ->
    parsed !! name = Some f -> p ∈ mf_Metric f -> is_Some (h0 !! p).

(** A response behind the instrumenting wrapper, on a connection that does
    not break. *)
Definition healthy (w : server.responseWriterWrapper server.response) : Prop :=
  server.statusCode w = 200 /\ server.writesLeft (server.inner w) = None.

(** The status line after some writes: as it was, or sent by the first of
    them. *)
Definition statusAfter (old new : option Z) : Prop :=
  new = old \/ new = Some (default 200 old).

(** *** Reading a sample line back

    The repository has no reader of its own output, so the reading side of
    the round trip is the format as section 4.1 of the specification words
    it.  A data line is a metric name, optionally followed by a
    brace-enclosed list of comma-separated pairs of a key, an equals sign
    and a quoted value; inside a value a backslash escapes the next
    character (a backslash and [n] stand for a line feed), and the first
    unescaped quote ends the value. *)

Definition unescape (c : ascii) : ascii :=
  if isByte c 110 then LF else c.

Fixpoint spec_readValue (s : string) (acc : string) : option (string * string) :=
  match s with
  | EmptyString => None
  | String c r =>
      if isByte c 92 then
        match r with
        | String d r' => spec_readValue r' (String (unescape d) acc)
        | EmptyString => None
        end
      else if isByte c 34 then Some (String.rev acc, r)
      else spec_readValue r (String c acc)
  end.

Fixpoint spec_readKey (s : string) (acc : string) : option (string * string) :=
  match s with
  | EmptyString => None
  | String c r =>
      if isByte c 61 then Some (String.rev acc, r)
      else spec_readKey r (String c acc)
  end.

Fixpoint spec_readPairs (fuel : nat) (s : string) : option (list (string * string)) :=
  match fuel with
  | O => None
  | S fuel' =>
      match spec_readKey s EmptyString with
      | Some (k, String q r) =>
          if isByte q 34 then
            match spec_readValue r EmptyString with
            | Some (v, String c r') =>
                if isByte c 44 then cons (k, v) <$> spec_readPairs fuel' r'
                else if isByte c 125 then Some [(k, v)]
                else None
            | _ => None
            end
          else None
      | _ => None
      end
  end.

(** The label pairs of a data line: none when the name is followed by white
    space, the pairs between the braces otherwise; [None] when the line does
    not follow the format. *)
Fixpoint spec_readLabels (line : string) : option (list (string * string)) :=
  match line with
  | EmptyString => None
  | String c r =>
      if asciiSpace c then Some []
      else if isByte c 123 then
        match r with
        | String d _ => if isByte d 125 then Some [] else spec_readPairs (String.length r) r
        | EmptyString => None
        end
      else spec_readLabels r
  end.

(** *** Vocabulary of the further properties *)

(** Whether a byte occurs in a string, and whether a string ends with a line
    feed. *)
Fixpoint hasByte (n : N) (s : string) : bool :=
  match s with
  | EmptyString => false
  | String c r => isByte c n || hasByte n r
  end.

Fixpoint endsWithLF (s : string) : bool :=
  match s with
  | EmptyString => false
  | String c EmptyString => isByte c 10
  | String _ r => endsWithLF r
  end.

(** A data line of two fields or more whose first field has its first open
    brace as its last byte. *)
Definition openBraceLast (line : string) : bool :=
  negb (HasPrefix line "#" || String.eqb (TrimSpace line) EmptyString)
  && (2 <=? length (Fields line))%nat
  && match Fields line with
     | metricPart :: _ =>
         Contains metricPart "{" && (Index metricPart "{" =? len metricPart - 1)
     | [] => false
     end.

(** What the upstream answers to the request for an endpoint, in a given
    world. *)
Definition answerOf {World : Type} `{Runtime World}
    (c : Config) (w : World) (e : EndpointConfig) : RoundTrip :=
  (roundTrip w (URL (Slurm c) +:+ Path e)).1.

(** The ways an endpoint fails for the family collector: the request cannot
    be made, it gets no answer (no connection, a timeout), the answer has a
    status other than 200, or the parser returns an error on the body, be it
    that the body breaks while the parser reads it or that it does not
    parse. *)
Definition upstreamFails {World : Type} `{Runtime World} `{Expfmt}
    (c : Config) (w : World) (e : EndpointConfig) : Prop :=
  match answerOf c w e with
  | RequestError => True
  | DoError => True
  | Response code reader => code <> 200 \/ TextToMetricFamilies reader = None
  end.

(** A line as the scanner hands it over: without the carriage return at its
    end, if it has one. *)
Definition chomp (line : string) : string := dropCR (String.rev line).

(** One configured label as the text collector writes it: the key, an equals
    sign and the value between quotes, the value as it is. *)
Definition pairText (kv : string * string) : string :=
  kv.1 +:+ "=" +:+ str DQUOTE +:+ kv.2 +:+ str DQUOTE.

(** A configuration with its endpoints replaced by a single one. *)
Definition only (c : Config) (ep : EndpointConfig) : Config :=
  {| Slurm := Slurm c; Server := Server c; Endpoints := [ep];
     Labels := Labels c; Logging := Logging c |}.

(** What a handler may do with its response writer. *)
Inductive WriterOp :=
| OpWriteHeader (code : Z)
| OpWrite (b : string)
| OpHeaderSet (k v : string).

Definition applyOp {W : Type} `{server.ResponseWriter W} (w : W) (op : WriterOp) : W :=
  match op with
  | OpWriteHeader code => server.WriteHeader w code
  | OpWrite b => fst (Write (Writer := server.rw_Writer) w b)
  | OpHeaderSet k v => server.HeaderSet w k v
  end.

Definition applyOps {W : Type} `{server.ResponseWriter W} (w : W) (ops : list WriterOp) : W :=
  fold_left applyOp ops w.

(** A status code that ends the header: not an informational one. *)
Definition finalCode (op : WriterOp) : Prop :=
  match op with
  | OpWriteHeader code => 200 <= code <= 999
  | _ => True
  end.

(** The operations the wrapper hands on to the writer it wraps when its
    status code is set already. *)
Definition passes (op : WriterOp) : bool :=
  match op with
  | OpWriteHeader _ => false
  | _ => true
  end.

(** A wrapper that has recorded the status line its response carries, or
    none when none was sent. *)
Definition recordsStatus (w : server.responseWriterWrapper server.response) : Prop :=
  (server.statusCode w = 0 /\ server.status (server.inner w) = None) \/
  (server.statusCode w <> 0 /\
   server.status (server.inner w) = Some (server.statusCode w)).

(** The writes a connection takes of a sequence of writes. *)
Definition sent (left : option nat) (chunks : list string) : list string :=
  match left with
  | None => chunks
  | Some n => take n chunks
  end.

(** The outcomes of the endpoints of one name, those that failed among
    them, and the last of a list. *)
Definition named {Payload : Type} (name : string)
    (tr : list (EndpointConfig * (Payload + CollectError)))
    : list (EndpointConfig * (Payload + CollectError)) :=
  filter (fun eo => nameOf eo = name) tr.

Definition failed {Payload : Type} (eo : EndpointConfig * (Payload + CollectError)) : bool :=
  match eo.2 with
  | inl _ => false
  | inr _ => true
  end.

End props.

(** * Properties *)

(** What a call yields, the world it leaves aside. *)
Definition yields {A World : Type} (r : go (A * World)) : go A :=
  match r with
  | Returns (a, _) => Returns a
  | Panics => Panics
  end.

Lemma go_bind_Returns {A B : Type} (a : A) (k : A -> go B) : go_bind (Returns a) k = k a.
Proof. reflexivity. Qed.

Section GoRange.

Context {V : Type}.

Lemma go_range_empty (order : list (string * V)) :
  go_range (∅ : gmap string V) order -> order = [].
Proof.
  unfold go_range. rewrite map_to_list_empty. apply Permutation_nil_r.
Qed.

Lemma go_range_length (m : gmap string V) (order : list (string * V)) :
  go_range m order -> length order = size m.
Proof.
  unfold go_range. intros Hp. rewrite (Permutation_length Hp).
  apply length_map_to_list.
Qed.

(** A map of at most one entry has a single order of iteration. *)
Lemma go_range_small (m : gmap string V) (o1 o2 : list (string * V)) :
  (size m <= 1)%nat -> go_range m o1 -> go_range m o2 -> o1 = o2.
Proof.
  intros Hs H1 H2.
  assert (Hp : o1 ≡ₚ o2) by (unfold go_range in *; by rewrite H1, H2).
  apply go_range_length in H1.
  destruct o1 as [|x [|y o1]]; simpl in *.
  - by apply Permutation_nil_l.
  - by apply Permutation_singleton_l in Hp.
  - lia.
Qed.

(** The entries seen for one key are the one the map holds. *)
Lemma go_range_filter_key (m : gmap string V) (order : list (string * V)) (k : string) (v : V) :
  go_range m order -> m !! k = Some v ->
  filter (fun kv => kv.1 = k) order = [(k, v)].
Proof.
  unfold go_range. intros Hp Hk.
  assert (Hnd : NoDup (order.*1)).
  { rewrite Hp. apply NoDup_fst_map_to_list. }
  assert (Hin : (k, v) ∈ order).
  { rewrite Hp. by apply elem_of_map_to_list. }
  clear Hp Hk. induction order as [|[k' v'] order IH]; [by apply elem_of_nil in Hin|].
  simpl in Hnd. apply NoDup_cons in Hnd as [Hk' Hnd].
  rewrite filter_cons. simpl. apply elem_of_cons in Hin as [Heq|Hin].
  - inversion Heq; subst k' v'. rewrite decide_True by done. f_equal.
    clear IH Hnd. induction order as [|[k2 v2] order IH]; [done|].
    rewrite filter_cons. simpl. rewrite decide_False.
    + apply IH. intros Hx. apply Hk'. simpl. by right.
    + intros ->. apply Hk'. simpl. by left.
  - rewrite decide_False.
    + by apply IH.
    + intros ->. apply Hk'. apply list_elem_of_fmap. by exists (k, v).
Qed.

End GoRange.

(** ** The family collector's [addCustomLabels] on the heap *)

Section FamilyLabels.
Import GoStrings config runtime metrics collector family_collector props.

Lemma buildCustomLabels_customOf (order : list (string * string)) (acc : list LabelPair) :
  buildCustomLabels order acc = acc ++ customOf order.
Proof.
  revert acc. induction order as [|[k v] order IH]; intros acc; simpl.
  - by rewrite app_nil_r.
  - rewrite IH. by rewrite <- app_assoc.
Qed.

Lemma appended_0 (cl : list LabelPair) (m : Metric) : appended 0 cl m = m.
Proof. destruct m. unfold appended, setLabel, times. simpl. by rewrite app_nil_r. Qed.

Lemma appended_S (n : nat) (cl : list LabelPair) (m : Metric) :
  appended n cl (setLabel m (Label m ++ cl)) = appended (S n) cl m.
Proof. unfold appended, setLabel, times. simpl. by rewrite <- app_assoc. Qed.

Lemma labelMetrics_spec (cl : list LabelPair) (ptrs : list ptr) (h : gmap ptr Metric) :
  Forall (fun p => is_Some (h !! p)) ptrs ->
  exists h', labelMetrics cl ptrs h = Returns h' /\
    forall p, h' !! p = appended (count_occ Pos.eq_dec ptrs p) cl <$> h !! p.
Proof.
  revert h. induction ptrs as [|p0 ptrs IH]; intros h Hall.
  - exists h. split; [done|]. intros p. simpl.
    destruct (h !! p) as [m|]; simpl; [by rewrite appended_0 | done].
  - apply Forall_cons in Hall as [[m0 Hm0] Hall]. simpl. rewrite Hm0.
    destruct (IH (<[p0 := setLabel m0 (Label m0 ++ cl)]> h)) as (h' & Hrun & Hh').
    { eapply Forall_impl; [exact Hall|]. intros p [m Hm]. simpl.
      destruct (decide (p0 = p)) as [->|Hne].
      - rewrite lookup_insert_eq. eauto.
      - rewrite lookup_insert_ne by done. eauto. }
    exists h'. split; [exact Hrun|]. intros p. rewrite Hh'.
    destruct (Pos.eq_dec p0 p) as [->|Hne].
    + rewrite lookup_insert_eq, Hm0. simpl. by rewrite appended_S.
    + by rewrite lookup_insert_ne.
Qed.

Lemma labelFamilies_spec (cl : list LabelPair) (families : list MetricFamily)
    (h : gmap ptr Metric) :
  Forall (fun p => is_Some (h !! p)) (ptrsOf families) ->
  exists h', labelFamilies cl families h = Returns h' /\
    forall p, h' !! p = appended (count_occ Pos.eq_dec (ptrsOf families) p) cl <$> h !! p.
Proof.
  revert h. induction families as [|f families IH]; intros h Hall.
  - exists h. split; [done|]. intros p. simpl.
    destruct (h !! p) as [m|]; simpl; [by rewrite appended_0 | done].
  - unfold ptrsOf in Hall. simpl in Hall. apply Forall_app in Hall as [Hf Hrest].
    destruct (labelMetrics_spec cl (mf_Metric f) h Hf) as (h1 & Hrun1 & Hh1).
    destruct (IH h1) as (h' & Hrun & Hh').
    { eapply Forall_impl; [exact Hrest|]. intros p [m Hm]. simpl.
      rewrite Hh1, Hm. simpl. eauto. }
    exists h'. split.
    + simpl. rewrite Hrun1. simpl. exact Hrun.
    + intros p. rewrite Hh', Hh1. unfold ptrsOf at 2. simpl.
      rewrite count_occ_app. destruct (h !! p) as [m|]; simpl; [|done].
      f_equal. unfold appended, setLabel, times. simpl. f_equal.
      rewrite <- app_assoc. f_equal.
      rewrite replicate_add, join_app. done.
Qed.

Context {World : Type} `{RuntimeLaws World}.

(** With labels configured, [addCustomLabels] returns the slice it was given
    and leaves every metric with the custom labels appended once per pointer
    to it. *)
Lemma family_addCustomLabels_spec (c : Config) (w : World) (families : Families) :
  Labels c <> ∅ -> closed families ->
  exists order w1 h1,
    mapRange w (Labels c) = (order, w1) /\ go_range (Labels c) order /\
    family_collector.addCustomLabels c w families = Returns ((families.1, h1), w1) /\
    forall p, h1 !! p =
      appended (count_occ Pos.eq_dec (ptrsOf families.1) p) (customOf order) <$> families.2 !! p.
Proof.
  intros Hne Hcl. unfold family_collector.addCustomLabels.
  apply map_size_non_empty_iff in Hne. apply Nat.eqb_neq in Hne. rewrite Hne.
  pose proof (mapRange_ok _ w (Labels c)) as Hr.
  destruct (mapRange w (Labels c)) as [order w1] eqn:Hm. simpl in Hr.
  destruct (labelFamilies_spec (customOf order) families.1 families.2 Hcl)
    as (h1 & Hrun & Hh1).
  exists order, w1, h1. repeat split; try done.
  rewrite buildCustomLabels_customOf. simpl. rewrite Hrun. done.
Qed.

End FamilyLabels.

(** The concrete world visits every entry of a map once. *)
#[global] Instance canned_RuntimeLaws : runtime.RuntimeLaws fixtures.canned.
Proof.
  constructor. intros V w m. unfold go_range. simpl. unfold fixtures.visit.
  destruct (fixtures.reversed w); [apply reverse_Permutation | reflexivity].
Qed.

(** ** The label injector *)

Section Injector.
Import GoStrings config runtime metrics collector props.

Lemma valuesOf_app (k : string) (l1 l2 : list family_collector.LabelPair) :
  valuesOf k (l1 ++ l2) = valuesOf k l1 ++ valuesOf k l2.
Proof. unfold valuesOf. by rewrite filter_app, fmap_app. Qed.

Lemma valuesOf_customOf (k : string) (order : list (string * string)) :
  valuesOf k (customOf order) = (filter (fun kv => kv.1 = k) order).*2.
Proof.
  unfold valuesOf, customOf. induction order as [|[k' v'] order IH]; [done|].
  simpl. rewrite !filter_cons. simpl. destruct (decide (k' = k)); simpl;
    [f_equal|]; exact IH.
Qed.

Lemma valuesOf_times (k v : string) (n : nat) (cl : list family_collector.LabelPair) :
  valuesOf k cl = [v] -> valuesOf k (times n cl) = replicate n v.
Proof.
  intros Hcl. unfold times. induction n as [|n IH]; [done|].
  simpl. by rewrite valuesOf_app, Hcl, IH.
Qed.

Lemma times_nonempty {A : Type} (n : nat) (l : list A) :
  (0 < n)%nat -> l <> [] -> times n l <> [].
Proof.
  intros Hn Hl. destruct n as [|n]; [lia|]. unfold times. simpl.
  destruct l; [done|]. done.
Qed.

Lemma count_occ_elem_of (ptrs : list positive) (p : positive) :
  p ∈ ptrs -> (0 < count_occ Pos.eq_dec ptrs p)%nat.
Proof. intros Hin. apply count_occ_In. by apply list_elem_of_In. Qed.

Context {World : Type} `{RuntimeLaws World}.

(** C5. With no extra labels configured, [addCustomLabels] hands back what
    it was given: the text collector the same text, the family collector the
    same slice over an untouched heap; neither loops over the map. *)
Theorem addCustomLabels_empty_mapping_identity
    (c : Config) (w : World) (metricsText : string) (families : family_collector.Families) :
  Labels c = ∅ ->
  text_collector.addCustomLabels c w metricsText = Returns (metricsText, w) /\
  family_collector.addCustomLabels c w families = Returns (families, w).
Proof.
  intros He. unfold text_collector.addCustomLabels, family_collector.addCustomLabels.
  rewrite He, map_size_empty. simpl. done.
Qed.

(** C2, as the code has it.  Two invocations on the same input yield the
    same output when the mapping has at most one entry, or when both loops
    over the mapping visit its entries in the same order. *)
Theorem addCustomLabels_equal_for_equal_order
    (c : Config) (w1 w2 : World) (metricsText : string) (families : family_collector.Families) :
  (size (Labels c) <= 1)%nat \/ fst (mapRange w1 (Labels c)) = fst (mapRange w2 (Labels c)) ->
  yields (text_collector.addCustomLabels c w1 metricsText)
    = yields (text_collector.addCustomLabels c w2 metricsText) /\
  yields (family_collector.addCustomLabels c w1 families)
    = yields (family_collector.addCustomLabels c w2 families).
Proof.
  intros Hor.
  assert (Ho : fst (mapRange w1 (Labels c)) = fst (mapRange w2 (Labels c))).
  { destruct Hor as [Hs|Ho]; [|exact Ho].
    apply (go_range_small (Labels c)); [exact Hs | apply mapRange_ok ..]. }
  unfold text_collector.addCustomLabels, family_collector.addCustomLabels.
  destruct (size (Labels c) =? 0)%nat; [done|].
  destruct (mapRange w1 (Labels c)) as [o1 w1'], (mapRange w2 (Labels c)) as [o2 w2'].
  simpl in Ho. subst o2. split.
  - destruct (text_collector.relabelLines _ _ _); done.
  - destruct (family_collector.labelFamilies _ _ _); done.
Qed.

(** C1, as the code has it.  The custom labels are appended after the labels
    a metric already has: for a key of the mapping, the values the metric
    had for it stay where they were, and the mapping's value follows them,
    once per pointer to the metric; so the key's last value is the
    mapping's. *)
Theorem addCustomLabels_appends_after_upstream
    (c : Config) (w : World) (families : family_collector.Families)
    (p : positive) (m : family_collector.Metric) (k v : string) :
  closed families ->
  p ∈ ptrsOf families.1 ->
  families.2 !! p = Some m ->
  Labels c !! k = Some v ->
  exists h1 w1 m1,
    family_collector.addCustomLabels c w families = Returns ((families.1, h1), w1) /\
    h1 !! p = Some m1 /\
    valuesOf k (family_collector.Label m1)
      = valuesOf k (family_collector.Label m)
        ++ replicate (count_occ Pos.eq_dec (ptrsOf families.1) p) v /\
    last (valuesOf k (family_collector.Label m1)) = Some v.
Proof.
  intros Hcl Hin Hm Hk.
  assert (Hne : Labels c <> ∅).
  { intros He. rewrite He in Hk. by rewrite lookup_empty in Hk. }
  destruct (family_addCustomLabels_spec c w families Hne Hcl)
    as (order & w1 & h1 & _ & Hr & Hrun & Hh1).
  exists h1, w1, (appended (count_occ Pos.eq_dec (ptrsOf families.1) p) (customOf order) m).
  assert (Hv : valuesOf k (customOf order) = [v]).
  { rewrite valuesOf_customOf, (go_range_filter_key (Labels c) order k v Hr Hk). done. }
  assert (Heq : valuesOf k (family_collector.Label
             (appended (count_occ Pos.eq_dec (ptrsOf families.1) p) (customOf order) m))
           = valuesOf k (family_collector.Label m)
             ++ replicate (count_occ Pos.eq_dec (ptrsOf families.1) p) v).
  { unfold appended. simpl. by rewrite valuesOf_app, (valuesOf_times k v). }
  split; [exact Hrun|]. split; [by rewrite Hh1, Hm|]. split; [exact Heq|].
  rewrite Heq. pose proof (count_occ_elem_of _ _ Hin) as Hpos.
  destruct (count_occ Pos.eq_dec (ptrsOf families.1) p) as [|n]; [lia|].
  rewrite replicate_S_end, app_assoc. by rewrite last_snoc.
Qed.

(** C6, as the code has it.  With labels configured the family collector
    returns the slice it was given and updates the metrics it points to in
    place: every such metric ends with a longer label list, the custom labels
    after its own, and nothing else in the heap changes. *)
Theorem addCustomLabels_updates_in_place
    (c : Config) (w : World) (families : family_collector.Families) :
  Labels c <> ∅ ->
  closed families ->
  exists order w1 h1,
    go_range (Labels c) order /\
    family_collector.addCustomLabels c w families = Returns ((families.1, h1), w1) /\
    (forall p, p ∉ ptrsOf families.1 -> h1 !! p = families.2 !! p) /\
    (forall p m, p ∈ ptrsOf families.1 -> families.2 !! p = Some m ->
       exists m1, h1 !! p = Some m1 /\
         family_collector.Label m1
           = family_collector.Label m
             ++ times (count_occ Pos.eq_dec (ptrsOf families.1) p) (customOf order) /\
         family_collector.Label m1 <> family_collector.Label m /\
         family_collector.Rest m1 = family_collector.Rest m).
Proof.
  intros Hne Hcl.
  destruct (family_addCustomLabels_spec c w families Hne Hcl)
    as (order & w1 & h1 & _ & Hr & Hrun & Hh1).
  exists order, w1, h1. split; [exact Hr|]. split; [exact Hrun|]. split.
  - intros p Hp. rewrite Hh1.
    assert (Hc : count_occ Pos.eq_dec (ptrsOf families.1) p = 0%nat).
    { apply count_occ_not_In. by rewrite <- list_elem_of_In. }
    rewrite Hc. destruct (families.2 !! p) as [m|]; simpl; [by rewrite appended_0 | done].
  - intros p m Hp Hm. eexists. split; [by rewrite Hh1, Hm|].
    unfold appended. simpl. split; [done|]. split; [|done].
    intros Heq. apply (f_equal length) in Heq. rewrite length_app in Heq.
    assert (Hnil : times (count_occ Pos.eq_dec (ptrsOf families.1) p) (customOf order) <> []).
    { apply times_nonempty; [by apply count_occ_elem_of|].
      intros Hc. apply (f_equal length) in Hc. unfold customOf in Hc.
      rewrite length_map, (go_range_length _ _ Hr) in Hc. simpl in Hc.
      by apply map_size_non_empty_iff in Hne. }
    destruct (times _ _); [done|]. simpl in Heq. lia.
Qed.

End Injector.

Section InjectorRuns.
Import GoStrings config runtime metrics collector props fixtures.

Lemma addCustomLabels_empty_mapping_identity_witness :
  text_collector.addCustomLabels (mkConfig [nodes] ∅) world0 idleLine
    = Returns (idleLine, world0) /\
  family_collector.addCustomLabels (mkConfig [nodes] ∅) world0 parsed
    = Returns (parsed, world0).
Proof.
  apply (addCustomLabels_empty_mapping_identity (mkConfig [nodes] ∅) world0 idleLine parsed).
  reflexivity.
Defined.

(** Two labels, two invocations one after the other in the same world: the
    second loop over the mapping visits the entries in another order, and
    the two outputs differ. *)
Lemma addCustomLabels_outputs_differ :
  exists o1 w1 o2 w2,
    text_collector.addCustomLabels (mkConfig [nodes] twoLabels) world0
      ("slurm_nodes_idle 5" +:+ str LF) = Returns (o1, w1) /\
    text_collector.addCustomLabels (mkConfig [nodes] twoLabels) w1
      ("slurm_nodes_idle 5" +:+ str LF) = Returns (o2, w2) /\
    o1 = ("slurm_nodes_idle{cluster=" +:+ quoted "c1" +:+ ",env=" +:+ quoted "prod"
          +:+ "} 5" +:+ str LF)%string /\
    o2 = ("slurm_nodes_idle{env=" +:+ quoted "prod" +:+ ",cluster=" +:+ quoted "c1"
          +:+ "} 5" +:+ str LF)%string /\
    o1 <> o2.
Proof.
  eexists _, _, _, _.
  split; [vm_compute; reflexivity|].
  split; [vm_compute; reflexivity|].
  split; [vm_compute; reflexivity|].
  split; [vm_compute; reflexivity|].
  apply String.eqb_neq. vm_compute. reflexivity.
Qed.

Lemma addCustomLabels_equal_for_equal_order_witness :
  yields (text_collector.addCustomLabels (mkConfig [nodes] oneLabel) world0 idleLine)
    = yields (text_collector.addCustomLabels (mkConfig [nodes] oneLabel)
                {| upstream := []; reversed := true |} idleLine) /\
  yields (family_collector.addCustomLabels (mkConfig [nodes] oneLabel) world0 parsed)
    = yields (family_collector.addCustomLabels (mkConfig [nodes] oneLabel)
                {| upstream := []; reversed := true |} parsed).
Proof.
  apply (addCustomLabels_equal_for_equal_order (mkConfig [nodes] oneLabel) world0
           {| upstream := []; reversed := true |} idleLine parsed).
  left. vm_compute. lia.
Defined.

Lemma parsed_closed : closed parsed.
Proof.
  unfold closed. simpl. constructor; [|constructor].
  exists upMetric. reflexivity.
Qed.

(** A metric that already has [cluster="upstream"], and [cluster] configured
    as [c1]: afterwards the metric carries the key twice, the upstream value
    first; the relabelled text line does too. *)
Lemma addCustomLabels_keeps_upstream_value :
  (exists h1 w1 m1,
     family_collector.addCustomLabels (mkConfig [nodes] oneLabel) world0 parsed
       = Returns (([idle], h1), w1) /\
     h1 !! 1%positive = Some m1 /\
     valuesOf "cluster" (family_collector.Label m1) = ["upstream"; "c1"]%string /\
     valuesOf "cluster" (family_collector.Label m1) <> ["c1"]%string) /\
  yields (text_collector.addCustomLabels (mkConfig [nodes] oneLabel) world0 idleLine)
    = Returns ("slurm_nodes_idle{cluster=" +:+ quoted "upstream" +:+ ",cluster="
               +:+ quoted "c1" +:+ "} 5" +:+ str LF)%string.
Proof.
  split.
  - eexists _, _, _.
    split; [vm_compute; reflexivity|].
    split; [vm_compute; reflexivity|].
    split; [vm_compute; reflexivity|].
    vm_compute. discriminate.
  - vm_compute. reflexivity.
Qed.

Lemma addCustomLabels_appends_after_upstream_witness :
  exists h1 w1 m1,
    family_collector.addCustomLabels (mkConfig [nodes] oneLabel) world0 parsed
      = Returns ((parsed.1, h1), w1) /\
    h1 !! 1%positive = Some m1 /\
    valuesOf "cluster" (family_collector.Label m1)
      = valuesOf "cluster" (family_collector.Label upMetric)
        ++ replicate (count_occ Pos.eq_dec (ptrsOf parsed.1) 1%positive) "c1"%string /\
    last (valuesOf "cluster" (family_collector.Label m1)) = Some "c1"%string.
Proof.
  apply (addCustomLabels_appends_after_upstream (mkConfig [nodes] oneLabel) world0 parsed
           1%positive upMetric "cluster" "c1").
  - exact parsed_closed.
  - simpl. apply list_elem_of_here.
  - reflexivity.
  - reflexivity.
Defined.

(** The heap after the call no longer holds the metric the caller passed. *)
Lemma addCustomLabels_changes_its_input :
  exists h1 w1,
    family_collector.addCustomLabels (mkConfig [nodes] oneLabel) world0 parsed
      = Returns ((parsed.1, h1), w1) /\
    parsed.2 !! 1%positive = Some upMetric /\
    h1 !! 1%positive
      = Some (family_collector.setLabel upMetric
                [{| family_collector.lp_Name := "cluster";
                    family_collector.lp_Value := "upstream" |};
                 {| family_collector.lp_Name := "cluster";
                    family_collector.lp_Value := "c1" |}]) /\
    h1 !! 1%positive <> parsed.2 !! 1%positive.
Proof.
  eexists _, _.
  split; [vm_compute; reflexivity|].
  split; [reflexivity|].
  split; [vm_compute; reflexivity|].
  vm_compute. discriminate.
Qed.

Lemma addCustomLabels_updates_in_place_witness :
  exists order w1 h1,
    go_range (Labels (mkConfig [nodes] oneLabel)) order /\
    family_collector.addCustomLabels (mkConfig [nodes] oneLabel) world0 parsed
      = Returns ((parsed.1, h1), w1) /\
    (forall p, p ∉ ptrsOf parsed.1 -> h1 !! p = parsed.2 !! p) /\
    (forall p m, p ∈ ptrsOf parsed.1 -> parsed.2 !! p = Some m ->
       exists m1, h1 !! p = Some m1 /\
         family_collector.Label m1
           = family_collector.Label m
             ++ times (count_occ Pos.eq_dec (ptrsOf parsed.1) p) (customOf order) /\
         family_collector.Label m1 <> family_collector.Label m /\
         family_collector.Rest m1 = family_collector.Rest m).
Proof.
  apply (addCustomLabels_updates_in_place (mkConfig [nodes] oneLabel) world0 parsed).
  - simpl. unfold oneLabel. apply insert_non_empty.
  - exact parsed_closed.
Defined.

End InjectorRuns.

(** ** Validation of the configuration *)

Section Validation.
Import GoStrings config runtime metrics collector fixtures.

Lemma isEmpty_false (s : string) : isEmpty s = false -> s <> EmptyString.
Proof. destruct s; [discriminate | done]. Qed.

Lemma validateEndpoints_None (i : nat) (endpoints : list EndpointConfig) :
  validateEndpoints i endpoints = None ->
  Forall (fun e => Name e <> EmptyString /\ Path e <> EmptyString) endpoints.
Proof.
  revert i. induction endpoints as [|e endpoints IH]; intros i Hv; [constructor|].
  simpl in Hv.
  destruct (isEmpty (Name e)) eqn:Hn; [discriminate|].
  destruct (isEmpty (Path e)) eqn:Hp; [discriminate|].
  constructor; [|by eapply IH].
  split; by apply isEmpty_false.
Qed.

(** C8, as the code has it.  [Validate] looks at the endpoints configured:
    a configuration it accepts has at least one endpoint, and each endpoint
    has a name and a path; whether any of them is enabled is not looked
    at. *)
Theorem Validate_requires_a_configured_endpoint
    (ParseDuration : string -> option Z) (c : Config) :
  snd (Validate ParseDuration c) = None ->
  Endpoints c <> [] /\
  Forall (fun e => Name e <> EmptyString /\ Path e <> EmptyString) (Endpoints c).
Proof.
  unfold Validate. intros Hv.
  destruct (isEmpty (URL (Slurm c))); [discriminate|].
  destruct (isEmpty (Timeout (Slurm c))); [discriminate|].
  destruct (ParseDuration (Timeout (Slurm c))); [|discriminate].
  destruct ((Port (Server c) <=? 0) || (65535 <? Port (Server c))); [discriminate|].
  destruct (BasicAuth_Enabled (BasicAuth (Server c)) && _); [discriminate|].
  destruct (SSL_Enabled (SSL (Server c)) && _); [discriminate|].
  destruct (length (Endpoints c) =? 0)%nat eqn:Hlen; [discriminate|].
  destruct (validateEndpoints 0 (Endpoints c)) eqn:Hve; [discriminate|].
  split.
  - intros He. rewrite He in Hlen. discriminate.
  - by eapply validateEndpoints_None.
Qed.

Lemma Validate_requires_a_configured_endpoint_witness :
  Endpoints (mkConfig [nodes; jobs] oneLabel) <> [] /\
  Forall (fun e => Name e <> EmptyString /\ Path e <> EmptyString)
    (Endpoints (mkConfig [nodes; jobs] oneLabel)).
Proof.
  apply (Validate_requires_a_configured_endpoint tenSeconds (mkConfig [nodes; jobs] oneLabel)).
  vm_compute. reflexivity.
Defined.

(** A configuration with one endpoint, disabled: [Validate] returns [nil]
    under every duration parser that reads its timeout, no endpoint is
    enabled, and [CollectAll] runs over the empty list. *)
Lemma Validate_accepts_all_disabled :
  GetEnabledEndpoints allDisabled = [] /\
  (forall ParseDuration : string -> option Z,
     is_Some (ParseDuration (Timeout (Slurm allDisabled))) ->
     Validate ParseDuration allDisabled = (allDisabled, None)) /\
  Validate tenSeconds allDisabled = (allDisabled, None) /\
  CollectAll string text_collector.collectEndpoint allDisabled world0 emptyRegistry
    = Returns (∅, None, world0, emptyRegistry).
Proof.
  split; [reflexivity|]. split; [|split; reflexivity].
  intros pd [d Hd]. unfold Validate. simpl in *. rewrite Hd. reflexivity.
Qed.

End Validation.

(** ** The text collector, line by line *)

Section TextLines.
Import GoStrings config runtime metrics collector text_collector props.

Lemma app_Empty (t : string) : EmptyString +:+ t = t.
Proof. reflexivity. Qed.

Lemma app_String (a : ascii) (s t : string) : String a s +:+ t = String a (s +:+ t).
Proof. reflexivity. Qed.

Lemma length_app_string (s t : string) :
  String.length (s +:+ t) = (String.length s + String.length t)%nat.
Proof. induction s as [|a s IH]; [done|]. rewrite app_String. simpl. by rewrite IH. Qed.

Lemma prefix_Empty (s : string) : String.prefix EmptyString s = true.
Proof. by destruct s. Qed.

Lemma Index_String (c : ascii) (s substr : string) :
  Index (String c s) substr =
    if String.prefix substr (String c s) then 0
    else if Index s substr <? 0 then -1 else Index s substr + 1.
Proof. reflexivity. Qed.

Lemma prefix_String (a b : ascii) (s t : string) :
  String.prefix (String a s) (String b t)
    = if ascii_dec a b then String.prefix s t else false.
Proof. reflexivity. Qed.

(** The first brace of [name{...] is the one after [name] when [name] has
    none. *)
Lemma Index_brace (name X : string) :
  Index name "{" < 0 -> Index (name +:+ "{" +:+ X) "{" = len name.
Proof.
  induction name as [|c name IH]; intros Hlt.
  - rewrite app_Empty, app_String, Index_String, prefix_String.
    destruct (ascii_dec "{" "{"); [|done]. by rewrite prefix_Empty.
  - rewrite Index_String, prefix_String in Hlt.
    rewrite app_String, Index_String, prefix_String.
    destruct (ascii_dec "{" c) as [Hc|Hc].
    + rewrite prefix_Empty in Hlt. lia.
    + destruct (Index name "{" <? 0) eqn:Hi; [|apply Z.ltb_ge in Hi; lia].
      apply Z.ltb_lt in Hi. rewrite (IH Hi). unfold len. simpl String.length.
      destruct (Z.of_nat (String.length name) <? 0) eqn:Hl; [apply Z.ltb_lt in Hl|]; lia.
Qed.

Lemma substring_prefix (s t : string) : substring 0 (String.length s) (s +:+ t) = s.
Proof.
  induction s as [|a s IH]; [by destruct t|]. rewrite app_String. simpl. by rewrite IH.
Qed.

Lemma substring_skip (s t : string) (n : nat) :
  substring (String.length s) n (s +:+ t) = substring 0 n t.
Proof. induction s as [|a s IH]; [done|]. rewrite app_String. simpl. exact IH. Qed.

Lemma slice_in_range (s : string) (lo hi : Z) :
  0 <= lo -> lo <= hi -> hi <= len s ->
  slice s lo hi = Returns (substring (Z.to_nat lo) (Z.to_nat (hi - lo)) s).
Proof.
  intros H0 H1 H2. unfold slice.
  apply Z.leb_le in H0, H1, H2. by rewrite H0, H1, H2.
Qed.

Lemma slice_prefix (s t : string) : slice (s +:+ t) 0 (len s) = Returns s.
Proof.
  rewrite slice_in_range.
  - unfold len. rewrite Z.sub_0_r, Nat2Z.id. simpl Z.to_nat. by rewrite substring_prefix.
  - lia.
  - unfold len. lia.
  - unfold len. rewrite length_app_string. lia.
Qed.

Lemma app_assoc_string (s t u : string) : (s +:+ t) +:+ u = s +:+ t +:+ u.
Proof. induction s as [|a s IH]; [done|]. rewrite !app_String. by rewrite IH. Qed.

Lemma slice_braces (name L : string) :
  slice (name +:+ "{" +:+ L +:+ "}") (len name + 1) (len (name +:+ "{" +:+ L +:+ "}") - 1)
    = Returns L.
Proof.
  assert (Hlen : len (name +:+ "{" +:+ L +:+ "}") = len name + 1 + len L + 1).
  { unfold len. rewrite !length_app_string. simpl String.length. lia. }
  rewrite slice_in_range; [|unfold len in *; lia ..].
  assert (E1 : Z.to_nat (len name + 1) = String.length (name +:+ "{")).
  { unfold len. rewrite length_app_string. simpl String.length. lia. }
  assert (E2 : Z.to_nat (len (name +:+ "{" +:+ L +:+ "}") - 1 - (len name + 1))
               = String.length L).
  { rewrite Hlen. unfold len. lia. }
  rewrite E1, E2, <- (app_assoc_string name "{").
  by rewrite substring_skip, substring_prefix.
Qed.

Lemma relabelLines_app (labelsStr : string) (l1 l2 : list string) (result : string) :
  relabelLines labelsStr (l1 ++ l2) result
    = go_bind (relabelLines labelsStr l1 result) (relabelLines labelsStr l2).
Proof.
  revert result. induction l1 as [|line l1 IH]; intros result; simpl; [done|].
  destruct (relabelLine labelsStr result line); simpl; [apply IH | done].
Qed.

(** A line of fewer than two fields goes to the output as it is. *)
Lemma relabelLine_short (labelsStr result line : string) :
  (length (Fields line) < 2)%nat ->
  relabelLine labelsStr result line = Returns (result +:+ line +:+ str LF).
Proof.
  intros Hlt. unfold relabelLine.
  destruct (HasPrefix line "#" || String.eqb (TrimSpace line) EmptyString); [done|].
  apply Nat.ltb_lt in Hlt. by rewrite Hlt.
Qed.

(** A line whose first field is [name{L}] gets the custom labels after [L]. *)
Lemma relabelLine_braced (labelsStr result line name L : string) (tail : list string) :
  HasPrefix line "#" = false ->
  TrimSpace line <> EmptyString ->
  Fields line = (name +:+ "{" +:+ L +:+ "}") :: tail ->
  tail <> [] ->
  Index name "{" < 0 ->
  relabelLine labelsStr result line
    = Returns (result +:+ name +:+ "{" +:+ L +:+ "," +:+ labelsStr +:+ "} "
               +:+ Join tail " " +:+ str LF).
Proof.
  intros Hc Hb Hf Ht Hn. unfold relabelLine.
  rewrite Hc. apply String.eqb_neq in Hb. rewrite Hb. simpl orb. cbv iota.
  rewrite Hf. destruct tail as [|t tail]; [done|]. simpl length. simpl Nat.ltb. cbv iota.
  unfold Contains. rewrite (Index_brace name (L +:+ "}") Hn).
  replace (0 <=? len name) with true by (symmetry; apply Z.leb_le; unfold len; lia).
  rewrite slice_prefix. simpl go_bind. rewrite slice_braces. reflexivity.
Qed.

Context {World : Type} `{Runtime World}.

(** What [addCustomLabels] makes of a text in which one line is known to
    add [out labelsStr] to the output: the lines before it are relabelled,
    then come the bytes of that line, then the lines after it. *)
Lemma addCustomLabels_at_line (c : Config) (w : World) (metricsText : string)
    (pre post : list string) (line : string) (out : string -> string) :
  Labels c <> ∅ ->
  scanLines metricsText = pre ++ line :: post ->
  (forall labelsStr result,
     relabelLine labelsStr result line = Returns (result +:+ out labelsStr)) ->
  text_collector.addCustomLabels c w metricsText =
    (let labelsStr := buildLabels true (fst (mapRange w (Labels c))) EmptyString in
     go_bind (relabelLines labelsStr pre EmptyString) (fun r1 =>
     go_bind (relabelLines labelsStr post (r1 +:+ out labelsStr)) (fun r2 =>
     Returns (r2, snd (mapRange w (Labels c)))))).
Proof.
  intros Hne Hs Hl. unfold text_collector.addCustomLabels.
  apply map_size_non_empty_iff in Hne. apply Nat.eqb_neq in Hne. rewrite Hne.
  destruct (mapRange w (Labels c)) as [order w1]. simpl fst. simpl snd. cbv zeta.
  rewrite Hs, relabelLines_app.
  destruct (relabelLines (buildLabels true order EmptyString) pre EmptyString) as [r1|];
    simpl; [|done].
  rewrite Hl. simpl. done.
Qed.

End TextLines.

Section TextClaims.
Import GoStrings config runtime metrics collector text_collector props.

Context {World : Type} `{Runtime World}.

(** Among the lines the scanner yields, one of fewer than two fields is
    copied to the output unchanged, and the lines before and after it are
    relabelled as they are without it. *)
Lemma short_scanned_line_copied (c : Config) (w : World)
    (metricsText : string) (pre post : list string) (bad : string) :
  Labels c <> ∅ ->
  scanLines metricsText = pre ++ bad :: post ->
  (length (Fields bad) < 2)%nat ->
  text_collector.addCustomLabels c w metricsText =
    (let labelsStr := buildLabels true (fst (mapRange w (Labels c))) EmptyString in
     go_bind (relabelLines labelsStr pre EmptyString) (fun r1 =>
     go_bind (relabelLines labelsStr post (r1 +:+ bad +:+ str LF)) (fun r2 =>
     Returns (r2, snd (mapRange w (Labels c)))))).
Proof.
  intros Hne Hs Hb.
  apply (addCustomLabels_at_line c w metricsText pre post bad (fun _ => bad +:+ str LF));
    [exact Hne | exact Hs |].
  intros labelsStr result. by apply relabelLine_short.
Qed.

(** The text collector neither unescapes nor escapes.  For a scanned line
    whose first field is [name{L}], followed by at least one more field, the
    bytes of [L] go to the output as they are, escape sequences included,
    with a comma and the custom labels after them. *)
Theorem braced_labels_copied_byte_for_byte (c : Config) (w : World)
    (metricsText : string) (pre post : list string) (line name L : string)
    (tail : list string) :
  Labels c <> ∅ ->
  scanLines metricsText = pre ++ line :: post ->
  HasPrefix line "#" = false ->
  TrimSpace line <> EmptyString ->
  Fields line = (name +:+ "{" +:+ L +:+ "}") :: tail ->
  tail <> [] ->
  Index name "{" < 0 ->
  text_collector.addCustomLabels c w metricsText =
    (let labelsStr := buildLabels true (fst (mapRange w (Labels c))) EmptyString in
     go_bind (relabelLines labelsStr pre EmptyString) (fun r1 =>
     go_bind (relabelLines labelsStr post
                (r1 +:+ name +:+ "{" +:+ L +:+ "," +:+ labelsStr +:+ "} "
                 +:+ Join tail " " +:+ str LF)) (fun r2 =>
     Returns (r2, snd (mapRange w (Labels c)))))).
Proof.
  intros Hne Hs Hc Hb Hf Ht Hn.
  apply (addCustomLabels_at_line c w metricsText pre post line
           (fun labelsStr => name +:+ "{" +:+ L +:+ "," +:+ labelsStr +:+ "} "
                             +:+ Join tail " " +:+ str LF));
    [exact Hne | exact Hs |].
  intros labelsStr result. by apply relabelLine_braced.
Qed.

(** A body the parser rejects fails the endpoint in the family collector. *)
Lemma family_collectEndpoint_parse_error `{family_collector.Expfmt}
    (c : Config) (w : World) (endpoint : EndpointConfig) (body : Body) (w1 : World) :
  roundTrip w (URL (Slurm c) +:+ Path endpoint) = (Response 200 body, w1) ->
  family_collector.TextToMetricFamilies body = None ->
  family_collector.collectEndpoint c w endpoint
    = Returns (inr (ErrParseMetrics ErrParse), w1).
Proof.
  intros Hr Hp. unfold family_collector.collectEndpoint, family_collector.parseMetrics.
  rewrite Hr, Hp. reflexivity.
Qed.

End TextClaims.

Section TextRuns.
Import GoStrings config runtime metrics collector text_collector props fixtures.

Lemma oneLabel_nonempty : oneLabel <> ∅.
Proof. unfold oneLabel. apply insert_non_empty. Qed.

Lemma short_scanned_line_copied_run :
  text_collector.addCustomLabels (mkConfig [nodes] oneLabel) world0 bodyWithJunk =
    (let labelsStr :=
       buildLabels true (fst (mapRange world0 (Labels (mkConfig [nodes] oneLabel))))
         EmptyString in
     go_bind (relabelLines labelsStr ["slurm_nodes_idle 5"%string] EmptyString) (fun r1 =>
     go_bind (relabelLines labelsStr ["slurm_jobs 7"%string] (r1 +:+ "junk" +:+ str LF))
       (fun r2 =>
     Returns (r2, snd (mapRange world0 (Labels (mkConfig [nodes] oneLabel))))))).
Proof.
  apply (short_scanned_line_copied (mkConfig [nodes] oneLabel) world0
           bodyWithJunk ["slurm_nodes_idle 5"%string] ["slurm_jobs 7"%string] "junk").
  - exact oneLabel_nonempty.
  - vm_compute. reflexivity.
  - vm_compute. lia.
Qed.

(** What that run writes: the junk line between the two relabelled ones. *)
Example bodyWithJunk_relabelled :
  yields (text_collector.addCustomLabels (mkConfig [nodes] oneLabel) world0 bodyWithJunk)
    = Returns ("slurm_nodes_idle{cluster=" +:+ quoted "c1" +:+ "} 5" +:+ str LF
               +:+ "junk" +:+ str LF
               +:+ "slurm_jobs{cluster=" +:+ quoted "c1" +:+ "} 7" +:+ str LF)%string.
Proof. vm_compute. reflexivity. Qed.

(** Malformed lines that do fail the collection.  In the text collector a
    first field that ends in an open brace makes the slice expression for the
    existing labels panic, and the panic leaves [CollectAll].  In the family
    collector a body the parser rejects, here one with a line of a single
    token, fails the endpoint: nothing of the body is kept. *)
Lemma malformed_line_fails_collection :
  text_collector.addCustomLabels (mkConfig [nodes] oneLabel) world0 bodyWithOpenBrace
    = Panics /\
  CollectAll string text_collector.collectEndpoint (mkConfig [nodes] oneLabel)
    (serving (mkConfig [nodes] oneLabel) [(nodes, ok bodyWithOpenBrace)]) emptyRegistry
    = Panics /\
  (forall E : family_collector.Expfmt,
     family_collector.TextToMetricFamilies
       (BodyBytes ("slurm_nodes_idle 5" +:+ str LF +:+ "junk" +:+ str LF)) = None ->
     exists reg1,
       CollectAll family_collector.Families family_collector.collectEndpoint
         (mkConfig [nodes] oneLabel)
         (serving (mkConfig [nodes] oneLabel)
            [(nodes, ok ("slurm_nodes_idle 5" +:+ str LF +:+ "junk" +:+ str LF))])
         emptyRegistry
       = Returns (∅, None,
                  serving (mkConfig [nodes] oneLabel)
                    [(nodes, ok ("slurm_nodes_idle 5" +:+ str LF +:+ "junk" +:+ str LF))],
                  reg1) /\
       ScrapeSuccess reg1 !! "nodes"%string = Some 0).
Proof.
  split; [vm_compute; reflexivity|]. split; [vm_compute; reflexivity|].
  intros E HE. eexists. split.
  - unfold CollectAll. change (GetEnabledEndpoints (mkConfig [nodes] oneLabel)) with [nodes].
    unfold collectLoop.
    rewrite (family_collectEndpoint_parse_error (mkConfig [nodes] oneLabel)
               (serving (mkConfig [nodes] oneLabel)
                  [(nodes, ok ("slurm_nodes_idle 5" +:+ str LF +:+ "junk" +:+ str LF))])
               nodes
               (BodyBytes ("slurm_nodes_idle 5" +:+ str LF +:+ "junk" +:+ str LF))
               (serving (mkConfig [nodes] oneLabel)
                  [(nodes, ok ("slurm_nodes_idle 5" +:+ str LF +:+ "junk" +:+ str LF))]));
      [|vm_compute; reflexivity | exact HE].
    simpl. reflexivity.
  - vm_compute. reflexivity.
Qed.

Lemma braced_labels_copied_byte_for_byte_witness :
  text_collector.addCustomLabels (mkConfig [nodes] oneLabel) world0
      (escapedNoSpace +:+ str LF) =
    (let labelsStr :=
       buildLabels true (fst (mapRange world0 (Labels (mkConfig [nodes] oneLabel))))
         EmptyString in
     go_bind (relabelLines labelsStr [] EmptyString) (fun r1 =>
     go_bind (relabelLines labelsStr []
                (r1 +:+ "m" +:+ "{"
                 +:+ ("k=" +:+ str DQUOTE +:+ "a\" +:+ str DQUOTE +:+ "\\" +:+ str DQUOTE)
                 +:+ "," +:+ labelsStr +:+ "} " +:+ Join ["1"%string] " " +:+ str LF))
       (fun r2 =>
     Returns (r2, snd (mapRange world0 (Labels (mkConfig [nodes] oneLabel))))))).
Proof.
  apply (braced_labels_copied_byte_for_byte (mkConfig [nodes] oneLabel) world0
           (escapedNoSpace +:+ str LF) [] [] escapedNoSpace "m"
           ("k=" +:+ str DQUOTE +:+ "a\" +:+ str DQUOTE +:+ "\\" +:+ str DQUOTE)
           ["1"%string]).
  - exact oneLabel_nonempty.
  - vm_compute. reflexivity.
  - vm_compute. reflexivity.
  - apply String.eqb_neq. vm_compute. reflexivity.
  - vm_compute. reflexivity.
  - discriminate.
  - vm_compute. reflexivity.
Defined.

(** Read back, that line gives the value it had, and the custom label. *)
Example escapedNoSpace_reads_back :
  spec_readLabels escapedNoSpace
    = Some [("k", "a" +:+ str DQUOTE +:+ "\")]%string /\
  exists out w1,
    text_collector.addCustomLabels (mkConfig [nodes] oneLabel) world0
      (escapedNoSpace +:+ str LF) = Returns (out, w1) /\
    spec_readLabels out
      = Some [("k", "a" +:+ str DQUOTE +:+ "\"); ("cluster", "c1")]%string.
Proof.
  split; [vm_compute; reflexivity|]. eexists _, _.
  split; vm_compute; reflexivity.
Qed.

(** C9, on the input where the code fails it.  The sample line of metric
    [m] whose label [k] has the value made of [a], a space, a quote and a
    backslash, written with the quote and the backslash escaped, reads as a
    sample with that value.  The text collector cuts the line at the space
    inside the quoted value, closes the label list after what stands before
    the space and puts the rest of the value after it: the output no longer
    reads as a sample, and the value is lost. *)
Lemma escaped_value_with_space_corrupted :
  spec_readLabels escapedLine
    = Some [("k", "a " +:+ str DQUOTE +:+ "\")]%string /\
  exists out w1,
    text_collector.addCustomLabels (mkConfig [nodes] oneLabel) world0
      (escapedLine +:+ str LF) = Returns (out, w1) /\
    out = ("m{k=" +:+ str DQUOTE +:+ ",cluster=" +:+ quoted "c1" +:+ "} \"
           +:+ str DQUOTE +:+ "\\" +:+ str DQUOTE +:+ "} 1" +:+ str LF)%string /\
    spec_readLabels out = None.
Proof.
  split; [vm_compute; reflexivity|]. eexists _, _.
  split; [vm_compute; reflexivity|]. split; vm_compute; reflexivity.
Qed.

End TextRuns.

(** ** The loop of [CollectAll] *)

Section Engine.
Import GoStrings config runtime metrics collector props.

Context {World Payload : Type}.
Variable collectEndpoint :
  Config -> World -> EndpointConfig -> go ((Payload + CollectError) * World).

Abbreviation Outcome := (EndpointConfig * (Payload + CollectError))%type.

Lemma collectLoop_trace (c : Config) (endpoints : list EndpointConfig) (w : World)
    (reg : Registry) (results : gmap string Payload) :
  collectLoop Payload collectEndpoint c endpoints w reg results =
    go_bind (trace collectEndpoint c endpoints w) (fun t =>
      Returns (fold_left store (successes t.1) results, t.2, recorded t.1 reg)).
Proof.
  revert w reg results. induction endpoints as [|e endpoints IH]; intros w reg results.
  - reflexivity.
  - simpl. destruct (collectEndpoint c w e) as [[[metrics|err] w1]|]; simpl; [| |done].
    + rewrite IH. destruct (trace collectEndpoint c endpoints w1) as [[t w2]|]; done.
    + rewrite IH. destruct (trace collectEndpoint c endpoints w1) as [[t w2]|]; done.
Qed.

Lemma trace_endpoints (c : Config) (endpoints : list EndpointConfig) (w w1 : World)
    (tr : list Outcome) :
  trace collectEndpoint c endpoints w = Returns (tr, w1) -> tr.*1 = endpoints.
Proof.
  revert w tr. induction endpoints as [|e endpoints IH]; intros w tr Ht; simpl in Ht.
  - by inversion Ht.
  - destruct (collectEndpoint c w e) as [[o w2]|]; simpl in Ht; [|done].
    destruct (trace collectEndpoint c endpoints w2) as [[t w3]|] eqn:Hrest; simpl in Ht; [|done].
    inversion Ht; subst. simpl. f_equal. by eapply IH.
Qed.

Lemma CollectAll_trace (c : Config) (w w1 : World) (reg : Registry) (tr : list Outcome) :
  trace collectEndpoint c (GetEnabledEndpoints c) w = Returns (tr, w1) ->
  CollectAll Payload collectEndpoint c w reg
    = Returns (fold_left store (successes tr) ∅, None, w1, recorded tr reg).
Proof.
  intros Ht. unfold CollectAll. by rewrite collectLoop_trace, Ht.
Qed.

(** *** The result map *)

Lemma store_fold_notin (l : list (string * Payload)) (m : gmap string Payload) (k : string) :
  k ∉ l.*1 -> fold_left store l m !! k = m !! k.
Proof.
  revert m. induction l as [|[k' v'] l IH]; intros m Hk; [done|].
  simpl in *. apply not_elem_of_cons in Hk as [Hne Hk].
  rewrite IH by done. unfold store. simpl. by rewrite lookup_insert_ne.
Qed.

Lemma store_fold_in (l : list (string * Payload)) (m : gmap string Payload)
    (k : string) (v : Payload) :
  NoDup l.*1 -> (k, v) ∈ l -> fold_left store l m !! k = Some v.
Proof.
  revert m. induction l as [|[k' v'] l IH]; intros m Hnd Hin; [by apply elem_of_nil in Hin|].
  simpl in *. apply NoDup_cons in Hnd as [Hk' Hnd].
  apply elem_of_cons in Hin as [Heq|Hin].
  - inversion Heq; subst. rewrite store_fold_notin by done.
    unfold store. simpl. by rewrite lookup_insert_eq.
  - by apply IH.
Qed.

Lemma store_fold_to_list (l : list (string * Payload)) :
  NoDup l.*1 -> map_to_list (fold_left store l ∅) ≡ₚ l.
Proof.
  induction l as [|[k v] l IH] using rev_ind; intros Hnd;
    [simpl; by rewrite map_to_list_empty|].
  rewrite fmap_app in Hnd. apply NoDup_app in Hnd as (Hnd & Hk & _).
  rewrite fold_left_app. simpl. unfold store at 1. simpl.
  rewrite map_to_list_insert.
  - rewrite IH by done. by rewrite Permutation_app_comm.
  - rewrite store_fold_notin; [apply lookup_empty|].
    intros Hin. apply (Hk k Hin). simpl. apply list_elem_of_here.
Qed.

Lemma successes_names (tr : list Outcome) (k : string) :
  k ∈ (successes tr).*1 -> k ∈ nameOf <$> tr.
Proof.
  unfold successes. induction tr as [|[e o] tr IH]; [done|].
  simpl. unfold succeeded at 1. simpl. destruct o as [metrics|err]; simpl.
  - intros Hin. apply elem_of_cons in Hin as [->|Hin]; [apply list_elem_of_here|].
    apply list_elem_of_further. by apply IH.
  - intros Hin. apply list_elem_of_further. by apply IH.
Qed.

Lemma successes_NoDup (tr : list Outcome) :
  NoDup (nameOf <$> tr) -> NoDup (successes tr).*1.
Proof.
  induction tr as [|[e o] tr IH]; intros Hnd; [constructor|].
  simpl in Hnd. apply NoDup_cons in Hnd as [Hk Hnd].
  unfold successes. simpl. unfold succeeded at 1. simpl.
  destruct o as [metrics|err]; simpl; [|by apply IH].
  apply NoDup_cons. split; [|by apply IH].
  intros Hin. apply Hk. by apply successes_names.
Qed.

Lemma successes_inl (tr : list Outcome) (e : EndpointConfig) (metrics : Payload) :
  (e, inl metrics) ∈ tr -> (Name e, metrics) ∈ successes tr.
Proof.
  intros Hin. unfold successes. apply list_elem_of_omap.
  exists (e, inl metrics). split; [exact Hin | reflexivity].
Qed.

Lemma successes_inr (tr : list Outcome) (e : EndpointConfig) (err : CollectError) :
  NoDup (nameOf <$> tr) -> (e, inr err) ∈ tr -> Name e ∉ (successes tr).*1.
Proof.
  induction tr as [|[e' o] tr IH]; intros Hnd Hin; [by apply elem_of_nil in Hin|].
  simpl in Hnd. apply NoDup_cons in Hnd as [Hk Hnd].
  unfold successes. simpl. unfold succeeded at 1. simpl.
  apply elem_of_cons in Hin as [Heq|Hin].
  - inversion Heq; subst. simpl. intros Hs. apply Hk. by apply successes_names.
  - assert (Hne : Name e <> Name e').
    { intros Heq. apply Hk. unfold nameOf at 1. simpl. rewrite <- Heq.
      apply list_elem_of_fmap. by exists (e, inr err). }
    destruct o as [metrics|err']; simpl.
    + apply not_elem_of_cons. split; [exact Hne | by apply IH].
    + by apply IH.
Qed.

(** *** The registry *)

Lemma recorded_notin (tr : list Outcome) (reg : Registry) (k : string) :
  k ∉ nameOf <$> tr ->
  ScrapeSuccess (recorded tr reg) !! k = ScrapeSuccess reg !! k /\
  ScrapeErrors (recorded tr reg) !! k = ScrapeErrors reg !! k.
Proof.
  revert reg. induction tr as [|[e o] tr IH]; intros reg Hk; [done|].
  simpl in Hk. apply not_elem_of_cons in Hk as [Hne Hk]. unfold nameOf in Hne. simpl in Hne.
  unfold recorded in *. simpl. destruct (IH (recordOutcome reg (e, o)) Hk) as [-> ->].
  unfold recordOutcome. simpl. destruct o as [metrics|err]; simpl;
    rewrite ?lookup_insert_ne by done; done.
Qed.

Lemma recorded_in (tr : list Outcome) (reg : Registry) (e : EndpointConfig)
    (o : Payload + CollectError) :
  NoDup (nameOf <$> tr) -> (e, o) ∈ tr ->
  ScrapeSuccess (recorded tr reg) !! Name e
    = Some (match o with inl _ => 1 | inr _ => 0 end) /\
  counter (ScrapeErrors (recorded tr reg)) (Name e)
    = counter (ScrapeErrors reg) (Name e) + match o with inl _ => 0 | inr _ => 1 end.
Proof.
  revert reg. induction tr as [|[e' o'] tr IH]; intros reg Hnd Hin;
    [by apply elem_of_nil in Hin|].
  simpl in Hnd. apply NoDup_cons in Hnd as [Hk Hnd].
  apply elem_of_cons in Hin as [Heq|Hin].
  - inversion Heq; subst e' o'. unfold nameOf in Hk. simpl in Hk.
    unfold recorded. simpl. fold (recorded tr (recordOutcome reg (e, o))).
    unfold counter. destruct (recorded_notin tr (recordOutcome reg (e, o)) (Name e) Hk)
      as [-> ->].
    unfold recordOutcome. simpl. destruct o as [metrics|err]; simpl.
    + rewrite lookup_insert_eq. split; [done|]. lia.
    + rewrite !lookup_insert_eq. simpl. split; [done|]. unfold counter. done.
  - assert (Hne : Name e' <> Name e).
    { intros Heq. apply Hk. unfold nameOf at 1. simpl. rewrite Heq.
      apply list_elem_of_fmap. by exists (e, o). }
    unfold recorded. simpl. fold (recorded tr (recordOutcome reg (e', o'))).
    destruct (IH (recordOutcome reg (e', o')) Hnd Hin) as [-> ->].
    split; [done|]. f_equal. unfold counter, recordOutcome. simpl.
    destruct o' as [metrics|err]; simpl; rewrite ?lookup_insert_ne by done; done.
Qed.

End Engine.

(** ** Writing the response *)

Section Sink.
Import GoStrings config runtime metrics collector props server.

Abbreviation sink := (responseWriterWrapper response).

Lemma joined_app (l1 l2 : list string) : joined (l1 ++ l2) = joined l1 +:+ joined l2.
Proof.
  induction l1 as [|s l1 IH]; [done|]. simpl. rewrite IH. by rewrite app_assoc_string.
Qed.

Lemma app_Empty_r (s : string) : s +:+ EmptyString = s.
Proof. induction s as [|a s IH]; [done|]. rewrite app_String. by rewrite IH. Qed.

Lemma statusAfter_refl (old : option Z) : statusAfter old old.
Proof. by left. Qed.

Lemma statusAfter_write (old mid : option Z) :
  statusAfter old mid -> Some (default 200 mid) = Some (default 200 old).
Proof. intros [->| ->]; [done|]. by destruct old. Qed.

Lemma statusAfter_step (old mid : option Z) :
  statusAfter old mid -> statusAfter old (Some (default 200 mid)).
Proof. intros Hs. right. by apply statusAfter_write. Qed.

(** A write on a healthy connection appends the bytes and, if no status line
    went out yet, sends 200 first. *)
Lemma healthy_Write (w : sink) (b : string) :
  healthy w ->
  exists w', Write w b = (w', None) /\ healthy w' /\
    body (inner w') = body (inner w) +:+ b /\
    status (inner w') = Some (default 200 (status (inner w))).
Proof.
  destruct w as [r sc]. unfold healthy. simpl. intros [-> Hwl].
  unfold Write. simpl. unfold wrapper_Write. simpl.
  unfold response_Write, response_WriteHeader.
  destruct (status r) as [code|] eqn:Hst; simpl; rewrite Hwl; simpl;
    eexists; (split; [reflexivity|]); simpl; rewrite ?Hst; done.
Qed.

Lemma healthy_HeaderSet (w : sink) (k v : string) :
  healthy w ->
  healthy (HeaderSet w k v) /\
  body (inner (HeaderSet w k v)) = body (inner w) /\
  status (inner (HeaderSet w k v)) = status (inner w).
Proof.
  destruct w as [r sc]. unfold healthy. simpl. intros [-> Hwl].
  unfold response_HeaderSet. destruct (status r) eqn:Hst; simpl; rewrite ?Hst; done.
Qed.

Context `{family_collector.Expfmt}.

Lemma family_encodeFamilies_cons {W : Type} `{Writer W}
    (h : gmap positive family_collector.Metric) (f : family_collector.MetricFamily)
    (families : list family_collector.MetricFamily) (w : W) :
  family_collector.encodeFamilies h (f :: families) w =
    match family_collector.Encode h f with
    | None => (w, Some ErrEncode)
    | Some text =>
        match Write w text with
        | (w1, Some err) => (w1, Some err)
        | (w1, None) => family_collector.encodeFamilies h families w1
        end
    end.
Proof. reflexivity. Qed.

Lemma family_writeEntries_cons {W : Type} `{Writer W}
    (k : string) (fams : family_collector.Families)
    (entries : list (string * family_collector.Families)) (w : W) :
  family_collector.writeEntries ((k, fams) :: entries) w =
    match family_collector.encodeFamilies fams.2 fams.1 w with
    | (w1, Some err) => (w1, Some err)
    | (w1, None) => family_collector.writeEntries entries w1
    end.
Proof. reflexivity. Qed.

Lemma family_encodeFamilies_healthy (h : gmap positive family_collector.Metric)
    (families : list family_collector.MetricFamily) (texts : list string) (w : sink) :
  healthy w ->
  mapM (family_collector.Encode h) families = Some texts ->
  exists w', family_collector.encodeFamilies h families w = (w', None) /\ healthy w' /\
    body (inner w') = body (inner w) +:+ joined texts /\
    statusAfter (status (inner w)) (status (inner w')).
Proof.
  revert texts w. induction families as [|f families IH]; intros texts w Hw Hm.
  - simpl in Hm. inversion Hm; subst. exists w. simpl.
    rewrite app_Empty_r. split; [done|]. split; [done|]. split; [done|].
    apply statusAfter_refl.
  - simpl in Hm. destruct (family_collector.Encode h f) as [text|] eqn:He; [|done].
    simpl in Hm. destruct (mapM (family_collector.Encode h) families) as [rest|] eqn:Hr;
      [|done].
    simpl in Hm. inversion Hm; subst texts.
    destruct (healthy_Write w text Hw) as (w1 & Hw1 & Hh1 & Hb1 & Hs1).
    destruct (IH rest w1 Hh1 eq_refl) as (w' & Hrun & Hh' & Hb' & Hs').
    exists w'. rewrite family_encodeFamilies_cons, He, Hw1, Hrun.
    split; [done|]. split; [done|]. split.
    + rewrite Hb', Hb1. simpl. by rewrite app_assoc_string.
    + rewrite Hs1 in Hs'. destruct Hs' as [->| ->]; right; [done|]. simpl. done.
Qed.

Lemma family_writeEntries_healthy (entries : list (string * family_collector.Families))
    (w : sink) :
  healthy w ->
  Forall (fun kv => is_Some (encoded kv.2)) entries ->
  exists w', family_collector.writeEntries entries w = (w', None) /\ healthy w' /\
    body (inner w') = body (inner w) +:+ joined (omap (fun kv => encoded kv.2) entries) /\
    statusAfter (status (inner w)) (status (inner w')).
Proof.
  revert w. induction entries as [|[k fams] entries IH]; intros w Hw Hall.
  - exists w. simpl. rewrite app_Empty_r. split; [done|]. split; [done|]. split; [done|].
    apply statusAfter_refl.
  - apply Forall_cons in Hall as [[text Ht] Hall]. simpl in Ht.
    unfold encoded in Ht.
    destruct (mapM (family_collector.Encode fams.2) fams.1) as [texts|] eqn:Hm; [|done].
    simpl in Ht. inversion Ht; subst text.
    destruct (family_encodeFamilies_healthy fams.2 fams.1 texts w Hw Hm)
      as (w1 & Hrun1 & Hh1 & Hb1 & Hs1).
    destruct (IH w1 Hh1 Hall) as (w' & Hrun & Hh' & Hb' & Hs').
    exists w'. rewrite family_writeEntries_cons, Hrun1, Hrun.
    split; [done|]. split; [done|]. split.
    + rewrite Hb', Hb1. unfold encoded at 2. simpl. rewrite Hm. simpl.
      by rewrite app_assoc_string.
    + destruct Hs1 as [Hs1|Hs1]; rewrite Hs1 in Hs'; [exact Hs'|].
      destruct Hs' as [->| ->]; right; done.
Qed.

End Sink.

(** ** One scrape through the family collector *)

Section FamilyScrape.
Import GoStrings config runtime metrics collector props server.

Context {World : Type} `{RuntimeLaws World} `{family_collector.Expfmt}.

Lemma family_addCustomLabels_slice (c : Config) (w w1 : World)
    (families out : family_collector.Families) :
  family_collector.addCustomLabels c w families = Returns (out, w1) -> out.1 = families.1.
Proof.
  unfold family_collector.addCustomLabels.
  destruct (size (Labels c) =? 0)%nat; [by intros [= <- _]|].
  destruct (mapRange w (Labels c)) as [order w2].
  destruct (family_collector.labelFamilies _ _ _); simpl; [|done].
  by intros [= <- _].
Qed.

(** The slice an endpoint yields holds the families of the parser's map, in
    the order the loop over that map visited them. *)
Lemma family_collectEndpoint_slice (c : Config) (w w1 : World) (e : EndpointConfig)
    (families : family_collector.Families) :
  family_collector.collectEndpoint c w e = Returns (inl families, w1) ->
  exists reader parsed h0,
    family_collector.TextToMetricFamilies reader = Some (parsed, h0) /\
    families.1 ≡ₚ (map_to_list parsed).*2.
Proof.
  unfold family_collector.collectEndpoint.
  destruct (roundTrip w (URL (Slurm c) +:+ Path e)) as [[| |code reader] w2]; [done..|].
  destruct (negb (code =? 200)); [done|].
  unfold family_collector.parseMetrics.
  destruct (family_collector.TextToMetricFamilies reader) as [[parsed h0]|] eqn:Hp; [|done].
  pose proof (mapRange_ok _ w2 parsed) as Hr.
  destruct (mapRange w2 parsed) as [order w3]. simpl in Hr.
  destruct (family_collector.addCustomLabels c w3 (map snd order, h0)) as [[out w4]|] eqn:Ha;
    simpl; [|done].
  intros [= <- _]. exists reader, parsed, h0. split; [done|].
  rewrite (family_addCustomLabels_slice _ _ _ _ _ Ha). simpl.
  unfold go_range in Hr. by rewrite Hr.
Qed.

Lemma trace_inl {Payload : Type}
    (collectEndpoint : Config -> World -> EndpointConfig ->
                       go ((Payload + CollectError) * World))
    (c : Config) (endpoints : list EndpointConfig) (w w1 : World)
    (tr : list (EndpointConfig * (Payload + CollectError)))
    (e : EndpointConfig) (o : Payload + CollectError) :
  trace collectEndpoint c endpoints w = Returns (tr, w1) ->
  (e, o) ∈ tr ->
  exists wa wb, collectEndpoint c wa e = Returns (o, wb).
Proof.
  revert w tr. induction endpoints as [|e0 endpoints IH]; intros w tr Ht Hin; simpl in Ht.
  - inversion Ht; subst. by apply elem_of_nil in Hin.
  - destruct (collectEndpoint c w e0) as [[o0 w2]|] eqn:Hc; simpl in Ht; [|done].
    destruct (trace collectEndpoint c endpoints w2) as [[t w3]|] eqn:Hrest; simpl in Ht;
      [|done].
    inversion Ht; subst. apply elem_of_cons in Hin as [Heq|Hin].
    + inversion Heq; subst. eauto.
    + by eapply IH.
Qed.

Lemma family_WriteMetrics_healthy (world : World) (w : responseWriterWrapper response)
    (m : gmap string family_collector.Families) :
  healthy w ->
  (forall k fams, m !! k = Some fams -> is_Some (encoded fams)) ->
  exists order w' world',
    go_range m order /\
    family_collector.WriteMetrics world w m = (w', None, world') /\
    healthy w' /\
    body (inner w') = body (inner w) +:+ joined (omap (fun kv => encoded kv.2) order) /\
    statusAfter (status (inner w)) (status (inner w')).
Proof.
  intros Hw Henc. unfold family_collector.WriteMetrics.
  pose proof (mapRange_ok _ world m) as Hr.
  destruct (mapRange world m) as [order world'] eqn:Hm. simpl in Hr.
  destruct (family_writeEntries_healthy order w Hw) as (w' & Hrun & Hh & Hb & Hs).
  { apply Forall_forall. intros [k fams] Hin. simpl. apply (Henc k).
    apply elem_of_map_to_list. unfold go_range in Hr. by rewrite <- Hr. }
  exists order, w', world'. rewrite Hrun. done.
Qed.

(** What [CollectAll] returns and what [WriteMetrics] then writes, given
    what each endpoint gave. *)
Lemma family_collect_then_write (c : Config) (w w1 : World) (reg : Registry)
    (tr : list (EndpointConfig * (family_collector.Families + CollectError)))
    (out : responseWriterWrapper response) :
  trace family_collector.collectEndpoint c (GetEnabledEndpoints c) w = Returns (tr, w1) ->
  NoDup (Name <$> GetEnabledEndpoints c) ->
  (forall e fams, (e, inl fams) ∈ tr -> is_Some (encoded fams)) ->
  healthy out ->
  exists order out' w2,
    CollectAll family_collector.Families family_collector.collectEndpoint c w reg
      = Returns (fold_left store (successes tr) ∅, None, w1, recorded tr reg) /\
    family_collector.WriteMetrics w1 out (fold_left store (successes tr) ∅)
      = (out', None, w2) /\
    order ≡ₚ successes tr /\
    healthy out' /\
    body (inner out') = body (inner out) +:+ joined (omap (fun kv => encoded kv.2) order) /\
    statusAfter (status (inner out)) (status (inner out')).
Proof.
  intros Ht Hnd Henc Hout.
  assert (Hnames : NoDup (nameOf <$> tr)).
  { rewrite <- (trace_endpoints _ _ _ _ _ _ Ht) in Hnd. by rewrite <- list_fmap_compose in Hnd. }
  pose proof (successes_NoDup tr Hnames) as Hsnd.
  destruct (family_WriteMetrics_healthy w1 out (fold_left store (successes tr) ∅) Hout)
    as (order & out' & w2 & Hr & Hrun & Hh & Hb & Hs).
  { intros k fams Hk.
    assert (Hin : (k, fams) ∈ successes tr).
    { rewrite <- (store_fold_to_list _ Hsnd). by apply elem_of_map_to_list. }
    unfold successes in Hin. apply list_elem_of_omap in Hin as ([e o] & Hin & Hs).
    unfold succeeded in Hs. simpl in Hs. destruct o as [fams'|err]; [|done].
    inversion Hs; subst. by apply (Henc e). }
  exists order, out', w2. split; [by apply CollectAll_trace|]. split; [exact Hrun|].
  split; [|done]. unfold go_range in Hr. rewrite Hr. by apply store_fold_to_list.
Qed.

(** The endpoints are collected one after the other: what the endpoint
    after [pre] gives, it gives in the world the endpoints of [pre] left. *)
Lemma trace_at {Payload : Type}
    (collectEndpoint : Config -> World -> EndpointConfig ->
                       go ((Payload + CollectError) * World))
    (c : Config) (pre post : list EndpointConfig) (e : EndpointConfig) (w w1 wa : World)
    (tr trpre : list (EndpointConfig * (Payload + CollectError))) :
  trace collectEndpoint c (pre ++ e :: post) w = Returns (tr, w1) ->
  trace collectEndpoint c pre w = Returns (trpre, wa) ->
  exists o wb, collectEndpoint c wa e = Returns (o, wb) /\ (e, o) ∈ tr.
Proof.
  revert w tr trpre. induction pre as [|e0 pre IH]; intros w tr trpre Ht Hpre.
  - simpl in Hpre. injection Hpre as <- <-. simpl in Ht.
    destruct (collectEndpoint c w e) as [[o wb]|]; simpl in Ht; [|done].
    destruct (trace collectEndpoint c post wb) as [[t w3]|]; simpl in Ht; [|done].
    injection Ht as <- _. exists o, wb. split; [done|]. apply list_elem_of_here.
  - simpl in Ht, Hpre.
    destruct (collectEndpoint c w e0) as [[o0 w2]|]; simpl in Ht, Hpre; [|done].
    destruct (trace collectEndpoint c (pre ++ e :: post) w2) as [[t w3]|] eqn:Hrest;
      simpl in Ht; [|done].
    destruct (trace collectEndpoint c pre w2) as [[tp w4]|] eqn:Hp; simpl in Hpre; [|done].
    injection Ht as <- <-. injection Hpre as <- <-.
    destruct (IH w2 t tp Hrest Hp) as (o & wb & Hc & Hin).
    exists o, wb. split; [done|]. by apply list_elem_of_further.
Qed.

(** And each outcome of the scrape is the one of an enabled endpoint, in the
    world the endpoints before it left. *)
Lemma trace_elem {Payload : Type}
    (collectEndpoint : Config -> World -> EndpointConfig ->
                       go ((Payload + CollectError) * World))
    (c : Config) (endpoints : list EndpointConfig) (w w1 : World)
    (tr : list (EndpointConfig * (Payload + CollectError)))
    (e : EndpointConfig) (o : Payload + CollectError) :
  trace collectEndpoint c endpoints w = Returns (tr, w1) ->
  (e, o) ∈ tr ->
  exists pre post trpre wa wb,
    endpoints = pre ++ e :: post /\
    trace collectEndpoint c pre w = Returns (trpre, wa) /\
    collectEndpoint c wa e = Returns (o, wb).
Proof.
  revert w tr. induction endpoints as [|e0 endpoints IH]; intros w tr Ht Hin; simpl in Ht.
  - injection Ht as <- _. by apply elem_of_nil in Hin.
  - destruct (collectEndpoint c w e0) as [[o0 w2]|] eqn:Hc; simpl in Ht; [|done].
    destruct (trace collectEndpoint c endpoints w2) as [[t w3]|] eqn:Hrest; simpl in Ht;
      [|done].
    injection Ht as <- <-. apply elem_of_cons in Hin as [Heq|Hin].
    + injection Heq as -> ->. exists [], endpoints, [], w, w2. done.
    + destruct (IH w2 t Hrest Hin) as (pre & post & trpre & wa & wb & -> & Hp & Hce).
      exists (e0 :: pre), post, ((e0, o0) :: trpre), wa, wb.
      split; [done|]. split; [|done]. simpl. rewrite Hc. simpl. by rewrite Hp.
Qed.

Lemma labelMetrics_Rest (cl : list family_collector.LabelPair) (ptrs : list positive)
    (h h' : gmap positive family_collector.Metric) :
  family_collector.labelMetrics cl ptrs h = Returns h' ->
  forall p, family_collector.Rest <$> h' !! p = family_collector.Rest <$> h !! p.
Proof.
  revert h. induction ptrs as [|p0 ptrs IH]; intros h Hrun p; simpl in Hrun.
  - by injection Hrun as <-.
  - destruct (h !! p0) as [m0|] eqn:Hm0; [|done].
    rewrite (IH _ Hrun p). destruct (decide (p0 = p)) as [->|Hne].
    + by rewrite lookup_insert_eq, Hm0.
    + by rewrite lookup_insert_ne.
Qed.

Lemma labelFamilies_Rest (cl : list family_collector.LabelPair)
    (families : list family_collector.MetricFamily)
    (h h' : gmap positive family_collector.Metric) :
  family_collector.labelFamilies cl families h = Returns h' ->
  forall p, family_collector.Rest <$> h' !! p = family_collector.Rest <$> h !! p.
Proof.
  revert h. induction families as [|f families IH]; intros h Hrun p; simpl in Hrun.
  - by injection Hrun as <-.
  - destruct (family_collector.labelMetrics cl (family_collector.mf_Metric f) h)
      as [h1|] eqn:Hm; simpl in Hrun; [|done].
    rewrite (IH _ Hrun p). exact (labelMetrics_Rest cl _ h h1 Hm p).
Qed.

(** What [collectEndpoint] gives, by what the upstream answers: an error in
    each of the ways an endpoint fails, and else the families of the
    parser's map, each once, over the parser's metrics with nothing but
    their labels touched. *)
Lemma family_collectEndpoint_by_answer (c : Config) (wa wb : World) (e : EndpointConfig)
    (o : family_collector.Families + CollectError) :
  family_collector.collectEndpoint c wa e = Returns (o, wb) ->
  (upstreamFails c wa e -> exists err, o = inr err) /\
  (forall reader parsed h0,
     answerOf c wa e = Response 200 reader ->
     family_collector.TextToMetricFamilies reader = Some (parsed, h0) ->
     exists fams, o = inl fams /\
       fams.1 ≡ₚ (map_to_list parsed).*2 /\
       forall p, family_collector.Rest <$> fams.2 !! p
                 = family_collector.Rest <$> h0 !! p).
Proof.
  unfold family_collector.collectEndpoint, upstreamFails, answerOf.
  destruct (roundTrip wa (URL (Slurm c) +:+ Path e)) as [[| |code reader] w2]; simpl.
  - intros [= <- _]. split; [eauto | done].
  - intros [= <- _]. split; [eauto | done].
  - destruct (code =? 200) eqn:Hcode; simpl.
    + apply Z.eqb_eq in Hcode. subst code.
      unfold family_collector.parseMetrics.
      destruct (family_collector.TextToMetricFamilies reader) as [[parsed h0]|] eqn:Hp.
      * pose proof (mapRange_ok _ w2 parsed) as Hr.
        destruct (mapRange w2 parsed) as [order w3]. simpl in Hr. unfold go_range in Hr.
        destruct (family_collector.addCustomLabels c w3 (map snd order, h0))
          as [[out w4]|] eqn:Ha; simpl; [|done].
        intros [= <- _]. split; [by intros [Hx|Hx]|].
        intros reader' parsed' h0' [= <-] Hp'. rewrite Hp in Hp'.
        injection Hp' as <- <-. exists out. split; [done|]. split.
        -- rewrite (family_addCustomLabels_slice _ _ _ _ _ Ha). simpl. by rewrite Hr.
        -- unfold family_collector.addCustomLabels in Ha.
           destruct (size (Labels c) =? 0)%nat; [by injection Ha as <- _|].
           destruct (mapRange w3 (Labels c)) as [lorder w5].
           destruct (family_collector.labelFamilies _ _ _) as [h1|] eqn:Hl;
             simpl in Ha; [|done].
           injection Ha as <- _. simpl. exact (labelFamilies_Rest _ _ _ _ Hl).
      * intros [= <- _]. split; [eauto|]. intros reader' parsed' h0' [= <-] Hp'.
        by rewrite Hp in Hp'.
    + intros [= <- _]. split; [eauto|]. intros reader' parsed' h0' [= Hc _].
      subst code. discriminate Hcode.
Qed.

(** C3, as the code has it.  Endpoints with distinct names, a sink that
    takes the writes and an encoder that takes the families collected.  The
    families are written endpoint by endpoint, one block for each endpoint
    that succeeded, in the order the loop over the result map visits them,
    some permutation of them; every such block is written and nothing is
    merged.  The families of one block are those the parser found in the
    body the upstream answered for that endpoint in this scrape, in the
    order the loop over the parser's map visited them, a permutation of
    them. *)
Theorem families_written_in_map_order (c : Config) (w w1 : World) (reg : Registry)
    (tr : list (EndpointConfig * (family_collector.Families + CollectError)))
    (out : responseWriterWrapper response) :
  trace family_collector.collectEndpoint c (GetEnabledEndpoints c) w = Returns (tr, w1) ->
  NoDup (Name <$> GetEnabledEndpoints c) ->
  (forall e fams, (e, inl fams) ∈ tr -> is_Some (encoded fams)) ->
  healthy out ->
  exists results order out' w2,
    CollectAll family_collector.Families family_collector.collectEndpoint c w reg
      = Returns (results, None, w1, recorded tr reg) /\
    family_collector.WriteMetrics w1 out results = (out', None, w2) /\
    order ≡ₚ successes tr /\
    body (inner out') = body (inner out) +:+ joined (omap (fun kv => encoded kv.2) order) /\
    (forall name fams, (name, fams) ∈ order ->
       is_Some (encoded fams) /\
       exists pre e post trpre wa reader parsed h0,
         GetEnabledEndpoints c = pre ++ e :: post /\
         Name e = name /\
         trace family_collector.collectEndpoint c pre w = Returns (trpre, wa) /\
         answerOf c wa e = Response 200 reader /\
         family_collector.TextToMetricFamilies reader = Some (parsed, h0) /\
         fams.1 ≡ₚ (map_to_list parsed).*2).
Proof.
  intros Ht Hnd Henc Hout.
  destruct (family_collect_then_write c w w1 reg tr out Ht Hnd Henc Hout)
    as (order & out' & w2 & Hc & Hw & Hp & _ & Hb & _).
  exists (fold_left store (successes tr) ∅), order, out', w2.
  split; [exact Hc|]. split; [exact Hw|]. split; [exact Hp|]. split; [exact Hb|].
  intros name fams Hin. rewrite Hp in Hin.
  unfold successes in Hin. apply list_elem_of_omap in Hin as ([e o] & Hin & Hs).
  unfold succeeded in Hs. simpl in Hs. destruct o as [fams'|err]; [|done].
  injection Hs as <- <-. split; [by apply (Henc e)|].
  destruct (trace_elem _ _ _ _ _ _ _ _ Ht Hin)
    as (pre & post & trpre & wa & wb & Hsplit & Hpre & Hce).
  exists pre, e, post, trpre, wa.
  unfold family_collector.collectEndpoint in Hce. unfold answerOf.
  destruct (roundTrip wa (URL (Slurm c) +:+ Path e)) as [[| |code reader] w3];
    simpl in *; [done..|].
  destruct (code =? 200) eqn:Hcode; simpl in Hce; [|done].
  apply Z.eqb_eq in Hcode. subst code.
  unfold family_collector.parseMetrics in Hce.
  destruct (family_collector.TextToMetricFamilies reader) as [[parsed h0]|] eqn:Hpa; [|done].
  pose proof (mapRange_ok _ w3 parsed) as Hr.
  destruct (mapRange w3 parsed) as [porder w4]. simpl in Hr. unfold go_range in Hr.
  destruct (family_collector.addCustomLabels c w4 (map snd porder, h0))
    as [[res w5]|] eqn:Ha; simpl in Hce; [|done].
  injection Hce as <- _.
  exists reader, parsed, h0. split; [done|]. split; [done|]. split; [done|].
  split; [done|]. split; [done|].
  rewrite (family_addCustomLabels_slice _ _ _ _ _ Ha). simpl. by rewrite Hr.
Qed.

(** C4.  Endpoints with distinct names, a connection that does not break and
    an encoder that takes the families collected.  Of the enabled
    endpoints, taken in the world the ones before it left: one that fails
    (the request cannot be made or gets no answer, the status is not 200, or
    the parser returns an error on the body, be it that the body breaks or
    that it does not parse) has no result, its success gauge is 0 and its
    error counter is up by one; one whose answer is 200 with a body that
    parses has as result the families the parser found in that body, each
    once and with the values of their metrics, is among the blocks written,
    and its success gauge is 1.  The route answers 200 with one block for
    each result followed by the exporter's own metrics. *)
Theorem partial_failure_isolated (expose : Registry -> string)
    (c : Config) (w w1 : World) (reg : Registry) (req : Request) (r0 : response)
    (tr : list (EndpointConfig * (family_collector.Families + CollectError))) :
  trace family_collector.collectEndpoint c (GetEnabledEndpoints c) w = Returns (tr, w1) ->
  NoDup (Name <$> GetEnabledEndpoints c) ->
  (forall e fams, (e, inl fams) ∈ tr -> is_Some (encoded fams)) ->
  status r0 = None ->
  writesLeft r0 = None ->
  exists results order r1 w2,
    CollectAll family_collector.Families family_collector.collectEndpoint c w reg
      = Returns (results, None, w1, recorded tr reg) /\
    (forall pre e post trpre wa,
       GetEnabledEndpoints c = pre ++ e :: post ->
       trace family_collector.collectEndpoint c pre w = Returns (trpre, wa) ->
       (upstreamFails c wa e ->
          results !! Name e = None /\
          ScrapeSuccess (recorded tr reg) !! Name e = Some 0 /\
          counter (ScrapeErrors (recorded tr reg)) (Name e)
            = counter (ScrapeErrors reg) (Name e) + 1) /\
       (forall reader parsed h0,
          answerOf c wa e = Response 200 reader ->
          family_collector.TextToMetricFamilies reader = Some (parsed, h0) ->
          exists fams,
            results !! Name e = Some fams /\
            fams.1 ≡ₚ (map_to_list parsed).*2 /\
            (forall p, family_collector.Rest <$> fams.2 !! p
                       = family_collector.Rest <$> h0 !! p) /\
            (Name e, fams) ∈ order /\
            is_Some (encoded fams) /\
            ScrapeSuccess (recorded tr reg) !! Name e = Some 1 /\
            counter (ScrapeErrors (recorded tr reg)) (Name e)
              = counter (ScrapeErrors reg) (Name e))) /\
    metricsRoute family_collector.Families family_collector.collectEndpoint
        (fun W HW => family_collector.WriteMetrics (W := W)) expose c w reg req r0
      = Returns (r1, w2, IncRequests (Method req) (URLPath req) 200 (recorded tr reg)) /\
    status r1 = Some 200 /\
    order ≡ₚ map_to_list results /\
    body r1 = body r0 +:+ joined (omap (fun kv => encoded kv.2) order)
              +:+ expose (recorded tr reg).
Proof.
  intros Ht Hnd Henc Hst Hwl.
  assert (Hnames : NoDup (nameOf <$> tr)).
  { rewrite <- (trace_endpoints _ _ _ _ _ _ Ht) in Hnd. by rewrite <- list_fmap_compose in Hnd. }
  pose proof (successes_NoDup tr Hnames) as Hsnd.
  set (wrw := {| inner := r0; statusCode := 200 |}).
  set (wrw1 := HeaderSet wrw "Content-Type" "text/plain; version=0.0.4; charset=utf-8").
  assert (Hwrw : healthy wrw) by done.
  destruct (healthy_HeaderSet wrw "Content-Type" "text/plain; version=0.0.4; charset=utf-8"
              Hwrw) as (Hh1 & Hb1 & Hs1). fold wrw1 in Hh1, Hb1, Hs1.
  destruct (family_collect_then_write c w w1 reg tr wrw1 Ht Hnd Henc Hh1)
    as (order & out' & w2 & Hc & Hw & Hp & Hh' & Hb' & Hs').
  destruct (healthy_Write out' (expose (recorded tr reg)) Hh')
    as (out2 & Hw2 & Hh2 & Hb2 & Hs2).
  exists (fold_left store (successes tr) ∅), order, (inner out2), w2.
  split; [exact Hc|]. split; [|split; [|split; [|split]]].
  - intros pre e post trpre wa Hsplit Hpre. rewrite Hsplit in Ht.
    destruct (trace_at _ _ _ _ _ _ _ _ _ _ Ht Hpre) as (o & wb & Hce & Hin).
    destruct (family_collectEndpoint_by_answer c wa wb e o Hce) as [Hfail Hok]. split.
    + intros Hf. destruct (Hfail Hf) as [err ->]. split.
      * rewrite store_fold_notin; [apply lookup_empty | by eapply successes_inr].
      * apply (recorded_in tr reg e (inr err) Hnames Hin).
    + intros reader parsed h0 Ha Hpa.
      destruct (Hok reader parsed h0 Ha Hpa) as (fams & -> & Hperm & Hrest).
      exists fams. split; [apply store_fold_in; [exact Hsnd | by apply successes_inl]|].
      split; [exact Hperm|]. split; [exact Hrest|]. split.
      { rewrite Hp. by apply successes_inl. }
      split; [by apply (Henc e)|].
      destruct (recorded_in tr reg e (inl fams) Hnames Hin) as [Hg Hcnt].
      split; [exact Hg|]. rewrite Hcnt. lia.
  - unfold metricsRoute, handleMetrics. fold wrw. rewrite Hc, go_bind_Returns.
    cbv beta iota zeta. fold wrw1. rewrite Hw. unfold promhttp_ServeHTTP. rewrite Hw2.
    rewrite go_bind_Returns. simpl fst. cbv beta iota. destruct Hh2 as [-> _]. reflexivity.
  - rewrite Hs2. rewrite Hs1 in Hs'. simpl in Hs'. rewrite Hst in Hs'.
    destruct Hs' as [->| ->]; done.
  - rewrite Hp. symmetry. by apply store_fold_to_list.
  - rewrite Hb2, Hb', Hb1. simpl. by rewrite app_assoc_string.
Qed.

End FamilyScrape.

(** ** The error of [CollectAll] *)

Section ErrorResult.
Import GoStrings config runtime metrics collector props server.

Context {World Payload : Type} `{Runtime World}.
Variable collectEndpoint :
  Config -> World -> EndpointConfig -> go ((Payload + CollectError) * World).
Variable WriteMetrics :
  forall (W : Type), Writer W -> World -> W -> gmap string Payload ->
    W * option WriteError * World.
Variable expose : Registry -> string.

(** C10.  Whatever the endpoints give, success or error, [CollectAll]
    returns a [nil] error, and [handleMetrics] goes on to write the metrics:
    it never answers through [http.Error]. *)
Theorem CollectAll_error_is_nil {W : Type} `{ResponseWriter W}
    (c : Config) (w w1 : World) (reg : Registry) (rw : W)
    (tr : list (EndpointConfig * (Payload + CollectError))) :
  trace collectEndpoint c (GetEnabledEndpoints c) w = Returns (tr, w1) ->
  exists results reg1,
    CollectAll Payload collectEndpoint c w reg = Returns (results, None, w1, reg1) /\
    handleMetrics Payload collectEndpoint WriteMetrics expose c w reg rw =
      match WriteMetrics W _ w1
              (HeaderSet rw "Content-Type" "text/plain; version=0.0.4; charset=utf-8")
              results with
      | (rw2, Some _, w2) => Returns (rw2, w2, reg1)
      | (rw2, None, w2) => Returns (promhttp_ServeHTTP expose reg1 rw2, w2, reg1)
      end.
Proof.
  intros Ht. exists (fold_left store (successes tr) ∅), (recorded tr reg).
  pose proof (CollectAll_trace collectEndpoint c w w1 reg tr Ht) as Hc.
  split; [exact Hc|]. unfold handleMetrics. rewrite Hc, go_bind_Returns. reflexivity.
Qed.

End ErrorResult.

Section ScrapeRuns.
Import GoStrings config runtime metrics collector props server fixtures.

Lemma encodable_Forall `{family_collector.Expfmt}
    (tr : list (EndpointConfig * (family_collector.Families + CollectError))) :
  Forall (fun eo => match eo.2 with
                    | inl fams => is_Some (encoded fams)
                    | inr _ => True
                    end) tr ->
  forall e fams, (e, inl fams) ∈ tr -> is_Some (encoded fams).
Proof.
  intros Hall e fams Hin. rewrite Forall_forall in Hall. apply (Hall _ Hin).
Qed.

Lemma CollectAll_error_is_nil_witness :
  exists results reg1,
    CollectAll string text_collector.collectEndpoint threeEndpoints degraded emptyRegistry
      = Returns (results, None,
                 {| upstream := upstream degraded; reversed := false |}, reg1) /\
    handleMetrics string text_collector.collectEndpoint
        (fun W HW => text_collector.WriteMetrics (W := W)) exposeScheduler
        threeEndpoints degraded emptyRegistry fresh =
      match text_collector.WriteMetrics
              {| upstream := upstream degraded; reversed := false |}
              (HeaderSet fresh "Content-Type" "text/plain; version=0.0.4; charset=utf-8")
              results with
      | (rw2, Some _, w2) => Returns (rw2, w2, reg1)
      | (rw2, None, w2) => Returns (promhttp_ServeHTTP exposeScheduler reg1 rw2, w2, reg1)
      end.
Proof.
  eapply (CollectAll_error_is_nil text_collector.collectEndpoint
            (fun W HW => text_collector.WriteMetrics (W := W)) exposeScheduler
            threeEndpoints degraded).
  vm_compute. reflexivity.
Defined.

Lemma threeEndpoints_distinct : NoDup (Name <$> GetEnabledEndpoints threeEndpoints).
Proof. apply (bool_decide_unpack (NoDup _)). vm_compute. exact I. Qed.

Lemma partial_failure_isolated_witness :
  exists tr w1,
    trace (family_collector.collectEndpoint (H0 := toyExpfmt)) threeEndpoints
      (GetEnabledEndpoints threeEndpoints) degraded = Returns (tr, w1) /\
    exists results order r1 w2,
      CollectAll family_collector.Families
          (family_collector.collectEndpoint (H0 := toyExpfmt))
          threeEndpoints degraded emptyRegistry
        = Returns (results, None, w1, recorded tr emptyRegistry) /\
      (forall pre e post trpre wa,
         GetEnabledEndpoints threeEndpoints = pre ++ e :: post ->
         trace (family_collector.collectEndpoint (H0 := toyExpfmt)) threeEndpoints pre
           degraded = Returns (trpre, wa) ->
         (upstreamFails (H0 := toyExpfmt) threeEndpoints wa e ->
            results !! Name e = None /\
            ScrapeSuccess (recorded tr emptyRegistry) !! Name e = Some 0 /\
            counter (ScrapeErrors (recorded tr emptyRegistry)) (Name e)
              = counter (ScrapeErrors emptyRegistry) (Name e) + 1) /\
         (forall reader parsed h0,
            answerOf threeEndpoints wa e = Response 200 reader ->
            family_collector.TextToMetricFamilies (Expfmt := toyExpfmt) reader
              = Some (parsed, h0) ->
            exists fams,
              results !! Name e = Some fams /\
              fams.1 ≡ₚ (map_to_list parsed).*2 /\
              (forall p, family_collector.Rest <$> fams.2 !! p
                         = family_collector.Rest <$> h0 !! p) /\
              (Name e, fams) ∈ order /\
              is_Some (encoded (H := toyExpfmt) fams) /\
              ScrapeSuccess (recorded tr emptyRegistry) !! Name e = Some 1 /\
              counter (ScrapeErrors (recorded tr emptyRegistry)) (Name e)
                = counter (ScrapeErrors emptyRegistry) (Name e))) /\
      metricsRoute family_collector.Families
          (family_collector.collectEndpoint (H0 := toyExpfmt))
          (fun W HW => family_collector.WriteMetrics (H0 := toyExpfmt) (W := W))
          exposeScheduler threeEndpoints degraded emptyRegistry scrape fresh
        = Returns (r1, w2, IncRequests (Method scrape) (URLPath scrape) 200
                             (recorded tr emptyRegistry)) /\
      status r1 = Some 200 /\
      order ≡ₚ map_to_list results /\
      body r1 = body fresh
                +:+ joined (omap (fun kv => encoded (H := toyExpfmt) kv.2) order)
                +:+ exposeScheduler (recorded tr emptyRegistry).
Proof.
  eexists _, _. split; [vm_compute; reflexivity|].
  apply (partial_failure_isolated (H1 := toyExpfmt) exposeScheduler threeEndpoints degraded).
  - vm_compute. reflexivity.
  - exact threeEndpoints_distinct.
  - apply (encodable_Forall (H := toyExpfmt)).
    repeat constructor; vm_compute; eexists; reflexivity.
  - reflexivity.
  - reflexivity.
Defined.

(** What that scrape answers: status 200, the families of nodes and jobs,
    and the gauge of the scheduler at 0. *)
Example degraded_scrape_answer :
  exists r1 w2 reg2,
    metricsRoute family_collector.Families
        (family_collector.collectEndpoint (H0 := toyExpfmt))
        (fun W HW => family_collector.WriteMetrics (H0 := toyExpfmt) (W := W))
        exposeScheduler threeEndpoints degraded emptyRegistry scrape fresh
      = Returns (r1, w2, reg2) /\
    finalStatus r1 = 200 /\
    body r1 = ("slurm_nodes_idle{cluster=" +:+ quoted "c1" +:+ "} 5" +:+ str LF
               +:+ "slurm_nodes_alloc{cluster=" +:+ quoted "c1" +:+ "} 3" +:+ str LF
               +:+ "slurm_jobs{cluster=" +:+ quoted "c1" +:+ "} 7" +:+ str LF
               +:+ "slurm_exporter_scrape_success{endpoint=" +:+ quoted "scheduler"
               +:+ "} 0" +:+ str LF)%string /\
    map_to_list (ScrapeSuccess reg2)
      = [("scheduler", 0); ("nodes", 1); ("jobs", 1)]%string /\
    map_to_list (ScrapeErrors reg2) = [("scheduler", 1)]%string.
Proof.
  eexists _, _, _. split; [vm_compute; reflexivity|].
  repeat split; vm_compute; reflexivity.
Qed.

Lemma families_written_in_map_order_witness :
  exists tr w1,
    trace (family_collector.collectEndpoint (H0 := toyExpfmt)) threeEndpoints
      (GetEnabledEndpoints threeEndpoints) degraded = Returns (tr, w1) /\
    exists results order out' w2,
      CollectAll family_collector.Families
          (family_collector.collectEndpoint (H0 := toyExpfmt))
          threeEndpoints degraded emptyRegistry
        = Returns (results, None, w1, recorded tr emptyRegistry) /\
      family_collector.WriteMetrics (H0 := toyExpfmt) w1 freshSink results
        = (out', None, w2) /\
      order ≡ₚ successes tr /\
      body (inner out')
        = body (inner freshSink)
          +:+ joined (omap (fun kv => encoded (H := toyExpfmt) kv.2) order) /\
      (forall name fams, (name, fams) ∈ order ->
         is_Some (encoded (H := toyExpfmt) fams) /\
         exists pre e post trpre wa reader parsed h0,
           GetEnabledEndpoints threeEndpoints = pre ++ e :: post /\
           Name e = name /\
           trace (family_collector.collectEndpoint (H0 := toyExpfmt)) threeEndpoints pre
             degraded = Returns (trpre, wa) /\
           answerOf threeEndpoints wa e = Response 200 reader /\
           family_collector.TextToMetricFamilies (Expfmt := toyExpfmt) reader
             = Some (parsed, h0) /\
           fams.1 ≡ₚ (map_to_list parsed).*2).
Proof.
  eexists _, _. split; [vm_compute; reflexivity|].
  apply (families_written_in_map_order (H1 := toyExpfmt) threeEndpoints degraded).
  - vm_compute. reflexivity.
  - exact threeEndpoints_distinct.
  - apply (encodable_Forall (H := toyExpfmt)).
    repeat constructor; vm_compute; eexists; reflexivity.
  - split; reflexivity.
Defined.

(** Nodes declared before jobs, and in the body of nodes the idle family
    before the alloc family: in a world whose loops over maps start in the
    reverse order, the text collector writes the block of jobs before the
    block of nodes, and the family collector moreover the alloc family
    before the idle family. *)
Lemma written_order_not_declaration_order :
  (exists results w1 reg1 out' w2,
     CollectAll string text_collector.collectEndpoint (mkConfig [nodes; jobs] ∅)
         {| upstream := upstream degraded; reversed := true |} emptyRegistry
       = Returns (results, None, w1, reg1) /\
     text_collector.WriteMetrics w1 freshSink results = (out', None, w2) /\
     body (inner out')
       = ("slurm_jobs 7" +:+ str LF
          +:+ "slurm_nodes_idle 5" +:+ str LF +:+ "slurm_nodes_alloc 3" +:+ str LF)%string /\
     body (inner out') <> (nodesBody +:+ jobsBody)%string) /\
  (exists results w1 reg1 out' w2,
     CollectAll family_collector.Families
         (family_collector.collectEndpoint (H0 := toyExpfmt)) (mkConfig [nodes; jobs] ∅)
         {| upstream := upstream degraded; reversed := true |} emptyRegistry
       = Returns (results, None, w1, reg1) /\
     family_collector.WriteMetrics (H0 := toyExpfmt) w1 freshSink results
       = (out', None, w2) /\
     body (inner out')
       = ("slurm_jobs{} 7" +:+ str LF
          +:+ "slurm_nodes_alloc{} 3" +:+ str LF +:+ "slurm_nodes_idle{} 5" +:+ str LF)%string /\
     body (inner out')
       <> ("slurm_nodes_idle{} 5" +:+ str LF
           +:+ "slurm_nodes_alloc{} 3" +:+ str LF +:+ "slurm_jobs{} 7" +:+ str LF)%string).
Proof.
  split.
  - eexists _, _, _, _, _. split; [vm_compute; reflexivity|].
    split; [vm_compute; reflexivity|]. split; [vm_compute; reflexivity|].
    apply String.eqb_neq. vm_compute. reflexivity.
  - eexists _, _, _, _, _. split; [vm_compute; reflexivity|].
    split; [vm_compute; reflexivity|]. split; [vm_compute; reflexivity|].
    apply String.eqb_neq. vm_compute. reflexivity.
Qed.

(** Every endpoint failing: the result map is empty, the error still [nil],
    each gauge at 0 and each error counter at 1. *)
Example all_endpoints_failing :
  exists reg1,
    CollectAll string text_collector.collectEndpoint threeEndpoints world0 emptyRegistry
      = Returns (∅, None, world0, reg1) /\
    map_to_list (ScrapeSuccess reg1)
      = [("scheduler", 0); ("nodes", 0); ("jobs", 0)]%string /\
    map_to_list (ScrapeErrors reg1)
      = [("scheduler", 1); ("nodes", 1); ("jobs", 1)]%string.
Proof.
  eexists. split; [vm_compute; reflexivity|]. split; vm_compute; reflexivity.
Qed.

(** Two endpoints that expose the same family: both blocks are written. *)
Example same_family_written_twice :
  exists results w1 reg1 out' w2,
    CollectAll string text_collector.collectEndpoint (mkConfig [nodes; jobs] ∅)
        (serving (mkConfig [nodes; jobs] ∅)
           [(nodes, ok ("up 1" +:+ str LF)); (jobs, ok ("up 1" +:+ str LF))])
        emptyRegistry
      = Returns (results, None, w1, reg1) /\
    text_collector.WriteMetrics w1 freshSink results = (out', None, w2) /\
    body (inner out') = ("up 1" +:+ str LF +:+ "up 1" +:+ str LF)%string.
Proof.
  eexists _, _, _, _, _. split; [vm_compute; reflexivity|].
  split; vm_compute; reflexivity.
Qed.

End ScrapeRuns.

(** ** The family collector returns *)

Section FamilyTotal.
Import GoStrings config runtime metrics collector props.

Context {World : Type} `{RuntimeLaws World} `{family_collector.Expfmt}.

(** Each way an endpoint can fail is an error of [collectEndpoint]. *)
Lemma family_collectEndpoint_failures (c : Config) (w w1 : World) (e : EndpointConfig) :
  (roundTrip w (URL (Slurm c) +:+ Path e) = (RequestError, w1) ->
   family_collector.collectEndpoint c w e = Returns (inr ErrCreateRequest, w1)) /\
  (roundTrip w (URL (Slurm c) +:+ Path e) = (DoError, w1) ->
   family_collector.collectEndpoint c w e = Returns (inr ErrFetch, w1)) /\
  (forall code reader, code <> 200 ->
   roundTrip w (URL (Slurm c) +:+ Path e) = (Response code reader, w1) ->
   family_collector.collectEndpoint c w e = Returns (inr (ErrStatus code), w1)) /\
  (forall reader, family_collector.TextToMetricFamilies reader = None ->
   roundTrip w (URL (Slurm c) +:+ Path e) = (Response 200 reader, w1) ->
   family_collector.collectEndpoint c w e
     = Returns (inr (ErrParseMetrics ErrParse), w1)).
Proof.
  unfold family_collector.collectEndpoint, family_collector.parseMetrics.
  split; [by intros ->|]. split; [by intros ->|]. split.
  - intros code reader Hc ->. apply Z.eqb_neq in Hc. by rewrite Hc.
  - intros reader Hp ->. simpl. by rewrite Hp.
Qed.

Lemma text_collectEndpoint_failures (c : Config) (w w1 : World) (e : EndpointConfig) :
  (roundTrip w (URL (Slurm c) +:+ Path e) = (RequestError, w1) ->
   text_collector.collectEndpoint c w e = Returns (inr ErrCreateRequest, w1)) /\
  (roundTrip w (URL (Slurm c) +:+ Path e) = (DoError, w1) ->
   text_collector.collectEndpoint c w e = Returns (inr ErrFetch, w1)) /\
  (forall code reader, code <> 200 ->
   roundTrip w (URL (Slurm c) +:+ Path e) = (Response code reader, w1) ->
   text_collector.collectEndpoint c w e = Returns (inr (ErrStatus code), w1)) /\
  (roundTrip w (URL (Slurm c) +:+ Path e) = (Response 200 BodyFails, w1) ->
   text_collector.collectEndpoint c w e = Returns (inr ErrRead, w1)).
Proof.
  unfold text_collector.collectEndpoint.
  split; [by intros ->|]. split; [by intros ->|]. split.
  - intros code reader Hc ->. apply Z.eqb_neq in Hc. by rewrite Hc.
  - by intros ->.
Qed.

(** With a parser that hands out no nil metric, [collectEndpoint] never
    panics. *)
Lemma family_collectEndpoint_returns (c : Config) (w : World) (e : EndpointConfig) :
  parserClosed ->
  exists o w1, family_collector.collectEndpoint c w e = Returns (o, w1).
Proof.
  intros Hpc. unfold family_collector.collectEndpoint.
  destruct (roundTrip w (URL (Slurm c) +:+ Path e)) as [[| |code reader] w2]; [eauto..|].
  destruct (negb (code =? 200)); [eauto|].
  unfold family_collector.parseMetrics.
  destruct (family_collector.TextToMetricFamilies reader) as [[parsed h0]|] eqn:Hp; [|eauto].
  pose proof (mapRange_ok _ w2 parsed) as Hr.
  destruct (mapRange w2 parsed) as [order w3]. simpl in Hr.
  assert (Hcl : closed (map snd order, h0)).
  { unfold closed, ptrsOf. simpl. apply Forall_forall. intros p Hin.
    apply list_elem_of_join in Hin as (ptrs & Hp1 & Hp2).
    apply list_elem_of_fmap in Hp2 as (f & -> & Hf).
    apply list_elem_of_fmap in Hf as ([name f'] & -> & Hin).
    unfold go_range in Hr. rewrite Hr in Hin. apply elem_of_map_to_list in Hin.
    by eapply (Hpc reader parsed h0 name f'). }
  destruct (decide (Labels c = ∅)) as [He|Hne].
  - unfold family_collector.addCustomLabels. rewrite He, map_size_empty. simpl. eauto.
  - destruct (family_addCustomLabels_spec c w3 (map snd order, h0) Hne Hcl)
      as (order' & w4 & h1 & _ & _ & Hrun & _).
    rewrite Hrun. simpl. eauto.
Qed.

Lemma trace_returns {Payload : Type}
    (collectEndpoint : Config -> World -> EndpointConfig ->
                       go ((Payload + CollectError) * World))
    (c : Config) (endpoints : list EndpointConfig) (w : World) :
  (forall w e, exists o w1, collectEndpoint c w e = Returns (o, w1)) ->
  exists tr w1, trace collectEndpoint c endpoints w = Returns (tr, w1).
Proof.
  intros Hret. revert w. induction endpoints as [|e endpoints IH]; intros w.
  - simpl. eauto.
  - simpl. destruct (Hret w e) as (o & w1 & ->). simpl.
    destruct (IH w1) as (tr & w2 & ->). simpl. eauto.
Qed.

(** So with such a parser the family collector's [CollectAll] returns, for
    every configuration and every world, and its error is [nil]. *)
Lemma family_CollectAll_returns_nil (c : Config) (w : World) (reg : Registry) :
  parserClosed ->
  exists results w1 reg1,
    CollectAll family_collector.Families family_collector.collectEndpoint c w reg
      = Returns (results, None, w1, reg1).
Proof.
  intros Hpc.
  destruct (trace_returns family_collector.collectEndpoint c (GetEnabledEndpoints c) w)
    as (tr & w1 & Ht).
  { intros w' e. by apply family_collectEndpoint_returns. }
  eexists _, w1, _. by apply CollectAll_trace.
Qed.

End FamilyTotal.

(** ** One scrape through the text collector *)

Section TextScrape.
Import GoStrings config runtime metrics collector props server.

Context {World : Type} `{RuntimeLaws World}.

Lemma text_writeEntries_cons {W : Type} `{Writer W}
    (k metricsText : string) (entries : list (string * string)) (w : W) :
  text_collector.writeEntries ((k, metricsText) :: entries) w =
    match Write w metricsText with
    | (w1, Some err) => (w1, Some err)
    | (w1, None) => text_collector.writeEntries entries w1
    end.
Proof. reflexivity. Qed.



End TextScrape.

(** * Further properties *)

(** ** The configuration *)

Section ConfigMore.
Import GoStrings config exporter.

(** Membership in a list written out. *)
Local Ltac solve_valid := unfold validLevels; repeat constructor.

Lemma isEmpty_true (s : string) : isEmpty s = true <-> s = EmptyString.
Proof. destruct s; simpl; split; intros; done. Qed.

Lemma isEmpty_false_iff (s : string) : isEmpty s = false <-> s <> EmptyString.
Proof. destruct s; simpl; split; intros; done. Qed.

Lemma enabledOf_filter (endpoints : list EndpointConfig) :
  enabledOf endpoints = filter (fun e => Enabled e = true) endpoints.
Proof.
  induction endpoints as [|e endpoints IH]; [done|].
  simpl. rewrite filter_cons, IH.
  destruct (decide (Enabled e = true)) as [He|He].
  - by rewrite He.
  - by destruct (Enabled e).
Qed.

(** X1.  [GetEnabledEndpoints] returns the configured list with the
    endpoints that are not enabled removed: the enabled ones, each as often
    as it is configured and in the order of the configuration, and nothing
    else. *)
Theorem GetEnabledEndpoints_exactly_enabled (c : Config) :
  GetEnabledEndpoints c = filter (fun e => Enabled e = true) (Endpoints c) /\
  (forall e, e ∈ GetEnabledEndpoints c <-> e ∈ Endpoints c /\ Enabled e = true) /\
  sublist (GetEnabledEndpoints c) (Endpoints c) /\
  (length (GetEnabledEndpoints c) <= length (Endpoints c))%nat.
Proof.
  unfold GetEnabledEndpoints. rewrite enabledOf_filter. split; [done|]. split; [|split].
  - intros e. rewrite list_elem_of_filter. tauto.
  - apply sublist_filter.
  - apply length_filter.
Qed.

Lemma validateEndpoints_None_iff (i : nat) (endpoints : list EndpointConfig) :
  validateEndpoints i endpoints = None <->
  Forall (fun e => Name e <> EmptyString /\ Path e <> EmptyString) endpoints.
Proof.
  revert i. induction endpoints as [|e endpoints IH]; intros i; simpl.
  - split; [constructor | done].
  - rewrite Forall_cons, <- (IH (S i)), <- !isEmpty_false_iff.
    destruct (isEmpty (Name e)), (isEmpty (Path e)); simpl; split; intros; try done;
      try tauto; destruct H as [[? ?] ?]; done.
Qed.

Lemma validLevels_existsb (level : string) :
  existsb (String.eqb level) validLevels = true <-> level ∈ validLevels.
Proof.
  rewrite existsb_exists. split.
  - intros (x & Hin & Heq). apply String.eqb_eq in Heq. subst. by apply list_elem_of_In.
  - intros Hin. exists level. split; [by apply list_elem_of_In | apply String.eqb_refl].
Qed.

(** X2.  [Validate] returns [nil] exactly for the configurations that have
    an URL, a timeout the duration parser reads, a port from 1 to 65535, a
    user name and a password if basic authentication is on, a certificate
    and a key file if SSL is on, at least one endpoint, a name and a path for
    every endpoint, and a logging level that is empty or one of the four
    known ones. *)
Theorem Validate_accepts_exactly (ParseDuration : string -> option Z) (c : Config) :
  snd (Validate ParseDuration c) = None <->
  URL (Slurm c) <> EmptyString /\
  Timeout (Slurm c) <> EmptyString /\
  is_Some (ParseDuration (Timeout (Slurm c))) /\
  1 <= Port (Server c) <= 65535 /\
  (BasicAuth_Enabled (BasicAuth (Server c)) = true ->
   Username (BasicAuth (Server c)) <> EmptyString /\
   Password (BasicAuth (Server c)) <> EmptyString) /\
  (SSL_Enabled (SSL (Server c)) = true ->
   CertFile (SSL (Server c)) <> EmptyString /\ KeyFile (SSL (Server c)) <> EmptyString) /\
  Endpoints c <> [] /\
  Forall (fun e => Name e <> EmptyString /\ Path e <> EmptyString) (Endpoints c) /\
  (Level (Logging c) = EmptyString \/ Level (Logging c) ∈ validLevels).
Proof.
  unfold Validate. split.
  - intros Hv.
    destruct (isEmpty (URL (Slurm c))) eqn:H1; [discriminate|].
    destruct (isEmpty (Timeout (Slurm c))) eqn:H2; [discriminate|].
    destruct (ParseDuration (Timeout (Slurm c))) as [d|] eqn:H3; [|discriminate].
    destruct (Port (Server c) <=? 0) eqn:H4; [discriminate|].
    destruct (65535 <? Port (Server c)) eqn:H5; [discriminate|].
    simpl orb in Hv. cbv iota in Hv.
    destruct (BasicAuth_Enabled (BasicAuth (Server c)) && _) eqn:H6; [discriminate|].
    destruct (SSL_Enabled (SSL (Server c)) && _) eqn:H7; [discriminate|].
    destruct (length (Endpoints c) =? 0)%nat eqn:H8; [discriminate|].
    destruct (validateEndpoints 0 (Endpoints c)) eqn:H9; [discriminate|].
    apply isEmpty_false_iff in H1, H2. apply Z.leb_gt in H4. apply Z.ltb_ge in H5.
    apply validateEndpoints_None_iff in H9.
    split; [exact H1|]. split; [exact H2|]. split; [eauto|]. split; [lia|].
    split; [|split; [|split; [|split; [exact H9|]]]].
    + intros Hen. rewrite Hen in H6. simpl in H6.
      apply orb_false_iff in H6 as [Hu Hp]. by rewrite <- !isEmpty_false_iff.
    + intros Hen. rewrite Hen in H7. simpl in H7.
      apply orb_false_iff in H7 as [Hu Hp]. by rewrite <- !isEmpty_false_iff.
    + intros He. rewrite He in H8. discriminate.
    + destruct (isEmpty (Level (Logging c))) eqn:H10.
      * left. by apply isEmpty_true.
      * right. apply validLevels_existsb.
        destruct (existsb (String.eqb (Level (Logging c))) validLevels); [done|].
        simpl in Hv. discriminate.
  - intros (C1 & C2 & [d C3] & C4 & C5 & C6 & C7 & C8 & C9).
    apply isEmpty_false_iff in C1, C2. rewrite C1, C2, C3.
    assert (H4 : (Port (Server c) <=? 0) = false) by (apply Z.leb_gt; lia).
    assert (H5 : (65535 <? Port (Server c)) = false) by (apply Z.ltb_ge; lia).
    rewrite H4, H5. simpl orb. cbv iota.
    assert (H6 : BasicAuth_Enabled (BasicAuth (Server c))
                 && (isEmpty (Username (BasicAuth (Server c)))
                     || isEmpty (Password (BasicAuth (Server c)))) = false).
    { destruct (BasicAuth_Enabled (BasicAuth (Server c))); [|done].
      destruct (C5 eq_refl) as [Hu Hp]. apply isEmpty_false_iff in Hu, Hp.
      by rewrite Hu, Hp. }
    assert (H7 : SSL_Enabled (SSL (Server c))
                 && (isEmpty (CertFile (SSL (Server c)))
                     || isEmpty (KeyFile (SSL (Server c)))) = false).
    { destruct (SSL_Enabled (SSL (Server c))); [|done].
      destruct (C6 eq_refl) as [Hu Hp]. apply isEmpty_false_iff in Hu, Hp.
      by rewrite Hu, Hp. }
    rewrite H6, H7.
    assert (H8 : (length (Endpoints c) =? 0)%nat = false) by (by destruct (Endpoints c)).
    rewrite H8. apply validateEndpoints_None_iff with (i := 0%nat) in C8. rewrite C8.
    destruct (isEmpty (Level (Logging c))) eqn:H10.
    + simpl. by destruct (isEmpty (Output (Logging c))).
    + destruct C9 as [C9|C9]; [apply isEmpty_true in C9; congruence|].
      apply validLevels_existsb in C9. rewrite C9. simpl.
      by destruct (isEmpty (Output (Logging c))).
Qed.

(** The configuration an accepted one is turned into. *)
Lemma Validate_accepted_value (ParseDuration : string -> option Z) (c : Config) :
  snd (Validate ParseDuration c) = None ->
  Validate ParseDuration c =
    (withLogging c
       {| Level := if isEmpty (Level (Logging c)) then "info"%string else Level (Logging c);
          Output := if isEmpty (Output (Logging c)) then "stdout"%string
                    else Output (Logging c) |},
     None).
Proof.
  unfold Validate.
  destruct (isEmpty (URL (Slurm c))); [discriminate|].
  destruct (isEmpty (Timeout (Slurm c))); [discriminate|].
  destruct (ParseDuration (Timeout (Slurm c))); [|discriminate].
  destruct ((Port (Server c) <=? 0) || (65535 <? Port (Server c))); [discriminate|].
  destruct (BasicAuth_Enabled (BasicAuth (Server c)) && _); [discriminate|].
  destruct (SSL_Enabled (SSL (Server c)) && _); [discriminate|].
  destruct (length (Endpoints c) =? 0)%nat; [discriminate|].
  destruct (validateEndpoints 0 (Endpoints c)); [discriminate|].
  destruct c as [sl sv es ls [lv out]].
  cbn [Logging Level Output Slurm Server Endpoints Labels].
  destruct (isEmpty lv) eqn:Hl;
    cbn [withLogging setLevel setOutput Logging Level Output Slurm Server Endpoints Labels].
  - change (existsb (String.eqb "info") validLevels) with true.
    cbn [negb]. destruct (isEmpty out); done.
  - destruct (existsb (String.eqb lv) validLevels); cbn [negb]; [|discriminate].
    destruct (isEmpty out); done.
Qed.

Lemma Validate_rejected_value (ParseDuration : string -> option Z) (c : Config) :
  snd (Validate ParseDuration c) <> None -> fst (Validate ParseDuration c) = c.
Proof.
  unfold Validate.
  destruct (isEmpty (URL (Slurm c))); [done|].
  destruct (isEmpty (Timeout (Slurm c))); [done|].
  destruct (ParseDuration (Timeout (Slurm c))); [|done].
  destruct ((Port (Server c) <=? 0) || (65535 <? Port (Server c))); [done|].
  destruct (BasicAuth_Enabled (BasicAuth (Server c)) && _); [done|].
  destruct (SSL_Enabled (SSL (Server c)) && _); [done|].
  destruct (length (Endpoints c) =? 0)%nat; [done|].
  destruct (validateEndpoints 0 (Endpoints c)); [done|].
  destruct c as [sl sv es ls [lv out]].
  cbn [Logging Level Output Slurm Server Endpoints Labels].
  destruct (isEmpty lv) eqn:Hl;
    cbn [withLogging setLevel setOutput Logging Level Output Slurm Server Endpoints Labels].
  - change (existsb (String.eqb "info") validLevels) with true.
    cbn [negb]. destruct (isEmpty out); done.
  - destruct (existsb (String.eqb lv) validLevels); cbn [negb]; [|done].
    destruct (isEmpty out); done.
Qed.

(** X3.  [Validate] leaves a configuration it rejects as it was.  In one it
    accepts it changes the logging section only: an empty level becomes
    [info], an empty output [stdout]; and validating the result again
    accepts it and changes nothing. *)
Theorem Validate_fills_defaults_once (ParseDuration : string -> option Z) (c : Config) :
  match Validate ParseDuration c with
  | (c1, Some _) => c1 = c
  | (c1, None) =>
      Slurm c1 = Slurm c /\ Server c1 = Server c /\ Endpoints c1 = Endpoints c /\
      Labels c1 = Labels c /\
      Level (Logging c1)
        = (if isEmpty (Level (Logging c)) then "info"%string else Level (Logging c)) /\
      Output (Logging c1)
        = (if isEmpty (Output (Logging c)) then "stdout"%string else Output (Logging c)) /\
      Validate ParseDuration c1 = (c1, None)
  end.
Proof.
  destruct (Validate ParseDuration c) as [c1 [err|]] eqn:Hv.
  - pose proof (Validate_rejected_value ParseDuration c) as Hr.
    rewrite Hv in Hr. by apply Hr.
  - assert (Hs : snd (Validate ParseDuration c) = None) by (by rewrite Hv).
    pose proof (Validate_accepted_value ParseDuration c Hs) as Heq.
    rewrite Hv in Heq. injection Heq as ->.
    repeat (split; [reflexivity|]).
    apply Validate_accepts_exactly in Hs
      as (C1 & C2 & C3 & C4 & C5 & C6 & C7 & C8 & C9).
    set (c1 := withLogging c _).
    assert (Hs1 : snd (Validate ParseDuration c1) = None).
    { apply Validate_accepts_exactly. subst c1. simpl.
      repeat (split; [assumption|]). right.
      destruct C9 as [C9|C9]; [rewrite C9; simpl; solve_valid|].
      destruct (isEmpty (Level (Logging c))) eqn:Hl; [solve_valid | exact C9]. }
    rewrite (Validate_accepted_value ParseDuration c1 Hs1). f_equal.
    subst c1. destruct c as [sl sv es ls [lv out]]. unfold withLogging. simpl.
    f_equal. f_equal.
    + destruct (isEmpty lv) eqn:Hl; [done|]. by rewrite Hl.
    + destruct (isEmpty out) eqn:Ho; [done|]. by rewrite Ho.
Qed.

(** X4.  [Load] hands out validated configurations only: what it returns is
    what [Validate] made of the parsed file, it passes [Validate] again
    unchanged, has at least one endpoint, a logging level among the four
    known ones and an output. *)
Theorem Load_returns_validated (ReadFile : string -> option string)
    (Unmarshal : string -> option Config) (ParseDuration : string -> option Z)
    (path : string) (c1 : Config) :
  Load ReadFile Unmarshal ParseDuration path = inl c1 ->
  (exists data cfg, ReadFile path = Some data /\ Unmarshal data = Some cfg /\
     Validate ParseDuration cfg = (c1, None)) /\
  Validate ParseDuration c1 = (c1, None) /\
  Endpoints c1 <> [] /\
  Level (Logging c1) ∈ validLevels /\
  Output (Logging c1) <> EmptyString.
Proof.
  unfold Load. intros Hl.
  destruct (ReadFile path) as [data|] eqn:Hr; [|done].
  destruct (Unmarshal data) as [cfg|] eqn:Hu; [|done].
  destruct (Validate ParseDuration cfg) as [c2 [err|]] eqn:Hv; [done|].
  injection Hl as ->.
  pose proof (Validate_fills_defaults_once ParseDuration cfg) as Hd. rewrite Hv in Hd.
  destruct Hd as (_ & _ & He & _ & Hlv & Hout & Hid).
  assert (Hs : snd (Validate ParseDuration cfg) = None) by (by rewrite Hv).
  apply Validate_accepts_exactly in Hs as (_ & _ & _ & _ & _ & _ & C7 & _ & C9).
  split; [eauto|]. split; [exact Hid|]. split; [by rewrite He|]. split.
  - rewrite Hlv. destruct (isEmpty (Level (Logging cfg))) eqn:Hl; [solve_valid|].
    destruct C9 as [C9|C9]; [apply isEmpty_true in C9; congruence | exact C9].
  - rewrite Hout. destruct (isEmpty (Output (Logging cfg))) eqn:Ho; [done|].
    by apply isEmpty_false_iff.
Qed.

(** X5.  [NewCollector] cannot fail on a configuration [Validate] accepted:
    the timeout it parses is the one [Validate] has parsed. *)
Theorem NewCollector_after_Validate (ParseDuration : string -> option Z) (c c1 : Config) :
  Validate ParseDuration c = (c1, None) ->
  exists timeout,
    ParseDuration (Timeout (Slurm c)) = Some timeout /\
    family_collector.NewCollector ParseDuration c1
      = Some {| family_collector.c_config := c1; family_collector.c_timeout := timeout |}.
Proof.
  intros Hv.
  pose proof (Validate_fills_defaults_once ParseDuration c) as Hd. rewrite Hv in Hd.
  destruct Hd as (Hsl & _).
  assert (Hs : snd (Validate ParseDuration c) = None) by (by rewrite Hv).
  apply Validate_accepts_exactly in Hs as (_ & _ & [t Ht] & _).
  exists t. split; [exact Ht|].
  unfold family_collector.NewCollector, GetTimeoutDuration. by rewrite Hsl, Ht.
Qed.

(** X6.  The levels [Validate] lets through are the levels [setupLogger]
    knows: for an accepted configuration the level of the logger is the one
    configured, never the fallback, and the flags at their defaults change
    nothing.  A level given by flag is not validated: one that is not among
    the four gives level info. *)
Theorem setupLogger_level_of_validated (ParseDuration : string -> option Z)
    (c c1 : Config) (flag logFormat : string) :
  Validate ParseDuration c = (c1, None) ->
  overrideLogging "info" "text" c1 = c1 /\
  (Level (Logging c1), fst (setupLogger (Logging c1)))
    ∈ [("debug", LevelDebug); ("info", LevelInfo); ("warn", LevelWarn);
       ("error", LevelError)]%string /\
  (flag ∉ validLevels ->
   fst (setupLogger (Logging (overrideLogging flag logFormat c1))) = LevelInfo).
Proof.
  intros Hv. split; [reflexivity|]. split.
  - assert (Hin : Level (Logging c1) ∈ validLevels).
    { pose proof (Validate_fills_defaults_once ParseDuration c) as Hd. rewrite Hv in Hd.
      destruct Hd as (_ & _ & _ & _ & Hlv & _).
      assert (Hs : snd (Validate ParseDuration c) = None) by (by rewrite Hv).
      apply Validate_accepts_exactly in Hs as (_ & _ & _ & _ & _ & _ & _ & _ & C9).
      rewrite Hlv. destruct (isEmpty (Level (Logging c))) eqn:Hl; [solve_valid|].
      destruct C9 as [C9|C9]; [apply isEmpty_true in C9; congruence | exact C9]. }
    unfold validLevels in Hin. unfold setupLogger. simpl.
    repeat (apply elem_of_cons in Hin as [->|Hin]; [simpl; solve_valid|]).
    by apply elem_of_nil in Hin.
  - intros Hf. unfold overrideLogging.
    assert (Hne : forall l, l ∈ validLevels -> String.eqb flag l = false).
    { intros l Hl. apply String.eqb_neq. intros ->. done. }
    rewrite (Hne "info"%string) by solve_valid. simpl negb. cbv iota.
    assert (Hlv : forall cfg, fst (setupLogger (setLevel cfg flag)) = LevelInfo).
    { intros cfg. unfold setupLogger. simpl.
      rewrite (Hne "debug"%string), (Hne "info"%string), (Hne "warn"%string),
        (Hne "error"%string) by solve_valid. done. }
    destruct (negb (String.eqb logFormat "text")); [|apply Hlv].
    destruct (String.eqb logFormat "json"); [|apply Hlv].
    unfold setupLogger. simpl.
    rewrite (Hne "debug"%string), (Hne "info"%string), (Hne "warn"%string),
      (Hne "error"%string) by solve_valid. done.
Qed.

End ConfigMore.

Section ConfigRuns.
Import GoStrings config exporter fixtures.

Lemma Load_returns_validated_witness :
  Load oneFile yamlOf tenSeconds "config.yaml" = inl (mkConfig [nodes; jobs] oneLabel) /\
  (exists data cfg, oneFile "config.yaml" = Some data /\ yamlOf data = Some cfg /\
     Validate tenSeconds cfg = (mkConfig [nodes; jobs] oneLabel, None)) /\
  Validate tenSeconds (mkConfig [nodes; jobs] oneLabel)
    = (mkConfig [nodes; jobs] oneLabel, None) /\
  Endpoints (mkConfig [nodes; jobs] oneLabel) <> [] /\
  Level (Logging (mkConfig [nodes; jobs] oneLabel)) ∈ validLevels /\
  Output (Logging (mkConfig [nodes; jobs] oneLabel)) <> EmptyString.
Proof.
  split; [vm_compute; reflexivity|].
  apply (Load_returns_validated oneFile yamlOf tenSeconds "config.yaml").
  vm_compute. reflexivity.
Defined.

Lemma NewCollector_after_Validate_witness :
  exists timeout,
    tenSeconds (Timeout (Slurm noLogging)) = Some timeout /\
    family_collector.NewCollector tenSeconds (mkConfig [nodes; jobs] oneLabel)
      = Some {| family_collector.c_config := mkConfig [nodes; jobs] oneLabel;
                family_collector.c_timeout := timeout |}.
Proof.
  apply (NewCollector_after_Validate tenSeconds noLogging).
  vm_compute. reflexivity.
Defined.

Lemma setupLogger_level_of_validated_witness :
  overrideLogging "info" "text" (mkConfig [nodes; jobs] oneLabel)
    = mkConfig [nodes; jobs] oneLabel /\
  (Level (Logging (mkConfig [nodes; jobs] oneLabel)),
   fst (setupLogger (Logging (mkConfig [nodes; jobs] oneLabel))))
    ∈ [("debug", LevelDebug); ("info", LevelInfo); ("warn", LevelWarn);
       ("error", LevelError)]%string /\
  ("trace"%string ∉ validLevels ->
   fst (setupLogger (Logging (overrideLogging "trace" "json"
                                (mkConfig [nodes; jobs] oneLabel)))) = LevelInfo).
Proof.
  apply (setupLogger_level_of_validated tenSeconds noLogging).
  vm_compute. reflexivity.
Defined.

End ConfigRuns.

(** ** The loop of [CollectAll], endpoint names repeated or not *)

Section EngineMore.
Import GoStrings config runtime metrics collector props.

Context {World Payload : Type}.
Variable collectEndpoint :
  Config -> World -> EndpointConfig -> go ((Payload + CollectError) * World).

Lemma recorded_durations (tr : list (EndpointConfig * (Payload + CollectError)))
    (reg : Registry) :
  ScrapeDuration (recorded tr reg) = ScrapeDuration reg ++ (nameOf <$> tr) /\
  HTTPRequestsTotal (recorded tr reg) = HTTPRequestsTotal reg /\
  HTTPRequestDuration (recorded tr reg) = HTTPRequestDuration reg.
Proof.
  revert reg. induction tr as [|[e o] tr IH]; intros reg.
  - simpl. by rewrite app_nil_r.
  - unfold recorded in *. simpl. destruct (IH (recordOutcome reg (e, o))) as (-> & -> & ->).
    unfold recordOutcome. destruct o as [metrics|err]; simpl;
      by rewrite <- app_assoc.
Qed.

(** X7.  [CollectAll] starts and observes one timer per enabled endpoint, in
    the order of the configuration and whatever the endpoint gives; it does
    not touch the metrics of the HTTP requests. *)
Theorem CollectAll_observes_each_endpoint (c : Config) (w w1 : World) (reg : Registry)
    (tr : list (EndpointConfig * (Payload + CollectError))) :
  trace collectEndpoint c (GetEnabledEndpoints c) w = Returns (tr, w1) ->
  exists results reg1,
    CollectAll Payload collectEndpoint c w reg = Returns (results, None, w1, reg1) /\
    ScrapeDuration reg1 = ScrapeDuration reg ++ (Name <$> GetEnabledEndpoints c) /\
    HTTPRequestsTotal reg1 = HTTPRequestsTotal reg /\
    HTTPRequestDuration reg1 = HTTPRequestDuration reg.
Proof.
  intros Ht. exists (fold_left store (successes tr) ∅), (recorded tr reg).
  split; [by apply CollectAll_trace|].
  destruct (recorded_durations tr reg) as (-> & -> & ->).
  split; [|done]. f_equal.
  rewrite <- (trace_endpoints collectEndpoint c _ w w1 tr Ht).
  by rewrite <- list_fmap_compose.
Qed.

Lemma named_cons (name : string) (eo : EndpointConfig * (Payload + CollectError))
    (tr : list (EndpointConfig * (Payload + CollectError))) :
  named name (eo :: tr)
    = if decide (nameOf eo = name) then eo :: named name tr else named name tr.
Proof. unfold named. rewrite filter_cons. by destruct (decide _). Qed.

Lemma store_fold_last (tr : list (EndpointConfig * (Payload + CollectError)))
    (m : gmap string Payload) (name : string) :
  fold_left store (successes tr) m !! name
    = match last (successes (named name tr)) with
      | Some kv => Some kv.2
      | None => m !! name
      end.
Proof.
  revert m. induction tr as [|[e o] tr IH]; intros m; [done|].
  rewrite named_cons. change (nameOf (e, o)) with (Name e).
  destruct o as [metrics|err].
  - change (successes ((e, inl metrics) :: tr)) with ((Name e, metrics) :: successes tr).
    simpl. rewrite IH. destruct (decide (Name e = name)) as [Heq|Hne].
    + change (successes ((e, inl metrics) :: named name tr))
        with ((Name e, metrics) :: successes (named name tr)).
      rewrite last_cons. destruct (last (successes (named name tr))); [done|].
      unfold store. simpl. by rewrite Heq, lookup_insert_eq.
    + destruct (last (successes (named name tr))); [done|].
      unfold store. simpl. by rewrite lookup_insert_ne.
  - change (successes ((e, inr err) :: tr)) with (successes tr).
    rewrite IH. destruct (decide (Name e = name)); [|done].
    by change (successes ((e, inr err) :: named name tr)) with (successes (named name tr)).
Qed.

Lemma recorded_last (tr : list (EndpointConfig * (Payload + CollectError)))
    (reg : Registry) (name : string) :
  ScrapeSuccess (recorded tr reg) !! name
    = match last (named name tr) with
      | Some eo => Some (if failed eo then 0 else 1)
      | None => ScrapeSuccess reg !! name
      end /\
  counter (ScrapeErrors (recorded tr reg)) name
    = counter (ScrapeErrors reg) name
      + Z.of_nat (length (filter (fun eo => failed eo = true) (named name tr))).
Proof.
  revert reg. induction tr as [|[e o] tr IH]; intros reg.
  - simpl. split; [done|]. lia.
  - unfold recorded in *. simpl. destruct (IH (recordOutcome reg (e, o))) as [-> ->].
    rewrite named_cons. change (nameOf (e, o)) with (Name e).
    destruct (decide (Name e = name)) as [Heq|Hne].
    + rewrite last_cons, filter_cons. split.
      * destruct (last (named name tr)); [done|].
        unfold recordOutcome, failed. destruct o as [metrics|err]; simpl;
          by rewrite Heq, lookup_insert_eq.
      * unfold recordOutcome, failed, counter. destruct o as [metrics|err]; simpl.
        -- destruct (decide (false = true)); [done|]. done.
        -- destruct (decide (true = true)); [|done]. rewrite Heq, lookup_insert_eq.
           simpl length. unfold counter. simpl. lia.
    + split.
      * destruct (last (named name tr)); [done|].
        unfold recordOutcome. destruct o as [metrics|err]; simpl;
          by rewrite lookup_insert_ne.
      * f_equal. unfold recordOutcome, counter. destruct o as [metrics|err]; simpl;
          [done | by rewrite lookup_insert_ne].
Qed.

(** X8.  [CollectAll] keys the results and the gauges by the endpoint's
    name, and [Validate] lets two endpoints share a name.  Of the enabled
    endpoints of one name, the result map holds what the last one that
    succeeded gave, the success gauge shows the outcome of the last one, and
    the error counter grows by the number of them that failed; a name no
    enabled endpoint has keeps its gauge and has no result. *)
Theorem CollectAll_same_name_last_wins (c : Config) (w w1 : World) (reg : Registry)
    (tr : list (EndpointConfig * (Payload + CollectError))) (name : string) :
  trace collectEndpoint c (GetEnabledEndpoints c) w = Returns (tr, w1) ->
  exists results reg1,
    CollectAll Payload collectEndpoint c w reg = Returns (results, None, w1, reg1) /\
    results !! name = snd <$> last (successes (named name tr)) /\
    ScrapeSuccess reg1 !! name
      = match last (named name tr) with
        | Some eo => Some (if failed eo then 0 else 1)
        | None => ScrapeSuccess reg !! name
        end /\
    counter (ScrapeErrors reg1) name
      = counter (ScrapeErrors reg) name
        + Z.of_nat (length (filter (fun eo => failed eo = true) (named name tr))).
Proof.
  intros Ht. exists (fold_left store (successes tr) ∅), (recorded tr reg).
  split; [by apply CollectAll_trace|]. split.
  - rewrite store_fold_last, lookup_empty.
    by destruct (last (successes (named name tr))).
  - apply recorded_last.
Qed.

End EngineMore.

Section EngineRuns.
Import GoStrings config runtime metrics collector props fixtures.

Lemma CollectAll_observes_each_endpoint_witness :
  exists results reg1,
    CollectAll string text_collector.collectEndpoint twins halfDown emptyRegistry
      = Returns (results, None, halfDown, reg1) /\
    ScrapeDuration reg1
      = ScrapeDuration emptyRegistry ++ (Name <$> GetEnabledEndpoints twins) /\
    HTTPRequestsTotal reg1 = HTTPRequestsTotal emptyRegistry /\
    HTTPRequestDuration reg1 = HTTPRequestDuration emptyRegistry.
Proof.
  eapply (CollectAll_observes_each_endpoint text_collector.collectEndpoint twins halfDown).
  vm_compute. reflexivity.
Defined.

(** With the endpoint that fails declared last, the name [nodes] has a
    result and a gauge at 0. *)
Lemma CollectAll_same_name_last_wins_witness :
  exists results reg1,
    CollectAll string text_collector.collectEndpoint twins halfDown emptyRegistry
      = Returns (results, None, halfDown, reg1) /\
    results !! "nodes"%string
      = snd <$> last (successes (named "nodes"
          [(nodes, inl nodesBody); (nodesAgain, inr (ErrStatus 503));
           (jobs, inl jobsBody)])) /\
    ScrapeSuccess reg1 !! "nodes"%string
      = match last (named "nodes"
                [(nodes, inl nodesBody); (nodesAgain, inr (ErrStatus 503));
                 (jobs, inl jobsBody)]) with
        | Some eo => Some (if failed eo then 0 else 1)
        | None => ScrapeSuccess emptyRegistry !! "nodes"%string
        end /\
    counter (ScrapeErrors reg1) "nodes"
      = counter (ScrapeErrors emptyRegistry) "nodes"
        + Z.of_nat (length (filter (fun eo => failed eo = true)
            (named "nodes"
               [(nodes, inl nodesBody); (nodesAgain, inr (ErrStatus 503));
                (jobs, inl jobsBody)]))).
Proof.
  apply (CollectAll_same_name_last_wins text_collector.collectEndpoint twins halfDown halfDown).
  vm_compute. reflexivity.
Defined.

(** The run above: a result under [nodes] beside a success gauge of 0. *)
Lemma same_name_result_beside_failure :
  exists results reg1,
    CollectAll string text_collector.collectEndpoint twins halfDown emptyRegistry
      = Returns (results, None, halfDown, reg1) /\
    results !! "nodes"%string = Some nodesBody /\
    ScrapeSuccess reg1 !! "nodes"%string = Some 0 /\
    counter (ScrapeErrors reg1) "nodes" = 1.
Proof. eexists _, _. vm_compute. repeat split; reflexivity. Qed.

End EngineRuns.

(** ** The text collector, the whole text *)

Section TextMore.
Import GoStrings config runtime metrics collector text_collector props.

Lemma prefix_length (a b : string) :
  String.prefix a b = true -> (String.length a <= String.length b)%nat.
Proof.
  revert b. induction a as [|x a IH]; intros b Hp; [simpl; lia|].
  destruct b as [|y b]; [discriminate|]. rewrite prefix_String in Hp.
  destruct (ascii_dec x y); [|discriminate]. apply IH in Hp. simpl. lia.
Qed.

(** An occurrence [Index] finds lies inside the string. *)
Lemma Index_bound (s substr : string) :
  0 <= Index s substr -> Index s substr + len substr <= len s.
Proof.
  induction s as [|c s IH]; intros Hi.
  - unfold Index in *. destruct (String.prefix substr EmptyString) eqn:Hp; [|lia].
    apply prefix_length in Hp. unfold len. lia.
  - rewrite Index_String in *.
    destruct (String.prefix substr (String c s)) eqn:Hp.
    + apply prefix_length in Hp. unfold len. lia.
    + destruct (Index s substr <? 0) eqn:Hn; [lia|].
      apply Z.ltb_ge in Hn. specialize (IH Hn). unfold len in *. simpl String.length. lia.
Qed.

Lemma relabelLine_Panics_iff (labelsStr result line : string) :
  relabelLine labelsStr result line = Panics <-> openBraceLast line = true.
Proof.
  unfold relabelLine, openBraceLast.
  destruct (HasPrefix line "#" || String.eqb (TrimSpace line) EmptyString);
    [split; intros Hx; discriminate Hx|].
  cbn [negb andb].
  destruct (length (Fields line) <? 2)%nat eqn:Hlt.
  - apply Nat.ltb_lt in Hlt.
    assert (Hle : (2 <=? length (Fields line))%nat = false) by (apply Nat.leb_gt; lia).
    rewrite Hle. split; intros Hx; discriminate Hx.
  - apply Nat.ltb_ge in Hlt.
    assert (Hle : (2 <=? length (Fields line))%nat = true) by (apply Nat.leb_le; lia).
    rewrite Hle. cbn [andb].
    destruct (Fields line) as [|metricPart tail]; [split; intros Hx; discriminate Hx|].
    unfold Contains. destruct (0 <=? Index metricPart "{") eqn:Hc;
      [|split; intros Hx; discriminate Hx].
    apply Z.leb_le in Hc. pose proof (Index_bound metricPart "{" Hc) as Hb.
    change (len "{") with 1 in Hb.
    rewrite (slice_in_range metricPart 0 (Index metricPart "{")) by lia.
    rewrite go_bind_Returns. cbn [andb]. unfold slice.
    destruct (Index metricPart "{" =? len metricPart - 1) eqn:He.
    + apply Z.eqb_eq in He.
      assert (H2 : (Index metricPart "{" + 1 <=? len metricPart - 1) = false)
        by (apply Z.leb_gt; lia).
      rewrite H2, andb_false_r. done.
    + apply Z.eqb_neq in He.
      assert (H1 : (0 <=? Index metricPart "{" + 1) = true) by (apply Z.leb_le; lia).
      assert (H2 : (Index metricPart "{" + 1 <=? len metricPart - 1) = true)
        by (apply Z.leb_le; lia).
      assert (H3 : (len metricPart - 1 <=? len metricPart) = true) by (apply Z.leb_le; lia).
      rewrite H1, H2, H3. cbn [andb]. rewrite go_bind_Returns.
      split; intros Hx; discriminate Hx.
Qed.

Lemma relabelLines_Panics_iff (labelsStr : string) (lines : list string) (result : string) :
  relabelLines labelsStr lines result = Panics
  <-> Exists (fun line => openBraceLast line = true) lines.
Proof.
  revert result. induction lines as [|line lines IH]; intros result.
  - simpl. split; [intros Hx; discriminate Hx | intros Hx; inversion Hx].
  - rewrite Exists_cons. simpl.
    pose proof (relabelLine_Panics_iff labelsStr result line) as Hl.
    destruct (relabelLine labelsStr result line) as [result1|].
    + rewrite go_bind_Returns, IH. split; [by right|].
      intros [Hx|Hx]; [|done]. apply Hl in Hx. discriminate Hx.
    + split; [|done]. intros _. left. by apply Hl.
Qed.

Context {World : Type} `{Runtime World}.

(** X9.  The text collector's [addCustomLabels] panics on exactly one kind
    of input: labels are configured and some scanned line is a data line of
    two fields or more whose first field has its first open brace as its
    last byte.  On every other input it returns. *)
Theorem text_addCustomLabels_panics_exactly (c : Config) (w : World) (metricsText : string) :
  text_collector.addCustomLabels c w metricsText = Panics
  <-> Labels c <> ∅ /\
      Exists (fun line => openBraceLast line = true) (scanLines metricsText).
Proof.
  unfold text_collector.addCustomLabels.
  destruct (size (Labels c) =? 0)%nat eqn:Hs.
  - apply Nat.eqb_eq, map_size_empty_iff in Hs.
    split; [intros Hx; discriminate Hx | by intros [Hne _]].
  - apply Nat.eqb_neq in Hs.
    assert (Hne : Labels c <> ∅) by (by intros He%map_size_empty_iff).
    destruct (mapRange w (Labels c)) as [order w1].
    rewrite <- (relabelLines_Panics_iff (buildLabels true order EmptyString)
                  (scanLines metricsText) EmptyString).
    destruct (relabelLines (buildLabels true order EmptyString) (scanLines metricsText)
                EmptyString) as [text|].
    + rewrite go_bind_Returns. split; [intros Hx; discriminate Hx | by intros [_ Hx]].
    + done.
Qed.

(** What a line adds to the output does not depend on the output so far. *)
Lemma relabelLine_result (labelsStr result line : string) :
  relabelLine labelsStr result line
    = go_bind (relabelLine labelsStr EmptyString line) (fun out => Returns (result +:+ out)).
Proof.
  unfold relabelLine.
  destruct (HasPrefix line "#" || String.eqb (TrimSpace line) EmptyString);
    [by rewrite go_bind_Returns, app_Empty|].
  destruct (length (Fields line) <? 2)%nat; [by rewrite go_bind_Returns, app_Empty|].
  destruct (Fields line) as [|metricPart tail]; [by rewrite go_bind_Returns, app_Empty|].
  destruct (Contains metricPart "{"); [|by rewrite go_bind_Returns, app_Empty].
  destruct (slice metricPart 0 (Index metricPart "{")) as [name|]; [|done].
  rewrite !go_bind_Returns.
  destruct (slice metricPart (Index metricPart "{" + 1) (len metricPart - 1))
    as [existingLabels|]; [|done].
  by rewrite !go_bind_Returns, app_Empty.
Qed.

Lemma relabelLines_joined (labelsStr : string) (lines outs : list string) (result : string) :
  Forall2 (fun line out => relabelLine labelsStr EmptyString line = Returns out) lines outs ->
  relabelLines labelsStr lines result = Returns (result +:+ joined outs).
Proof.
  intros Hf. revert result. induction Hf as [|line out lines outs Hl Hf IH]; intros result.
  - simpl. by rewrite app_Empty_r.
  - simpl. rewrite relabelLine_result, Hl, !go_bind_Returns, IH.
    by rewrite app_assoc_string.
Qed.

Lemma concat_comma (x : string) (l : list string) :
  String.concat "," (x :: l) = x +:+ joined (map (fun y => "," +:+ y) l).
Proof.
  revert x. induction l as [|y l IH]; intros x.
  - simpl. by rewrite app_Empty_r.
  - change (String.concat "," (x :: y :: l)) with (x +:+ "," +:+ String.concat "," (y :: l)).
    rewrite IH. simpl. by rewrite app_assoc_string.
Qed.

Lemma buildLabels_rest (entries : list (string * string)) (b : string) :
  buildLabels false entries b = b +:+ joined (map (fun y => "," +:+ y) (map pairText entries)).
Proof.
  revert b. induction entries as [|[key value] entries IH]; intros b.
  - simpl. by rewrite app_Empty_r.
  - simpl. rewrite IH. unfold pairText. simpl.
    by rewrite !app_assoc_string.
Qed.

(** The string of labels is the pairs in the order visited, a comma between
    them. *)
Lemma buildLabels_Join (entries : list (string * string)) :
  buildLabels true entries EmptyString = Join (map pairText entries) ",".
Proof.
  destruct entries as [|[key value] entries]; [done|].
  unfold Join. simpl map. rewrite concat_comma. simpl buildLabels.
  rewrite buildLabels_rest. unfold pairText. simpl. by rewrite !app_Empty.
Qed.

(** X10.  The text collector relabels the lines its scanner yields, one by
    one.  With labels configured, if each scanned line, relabelled on its
    own from an empty output with the string of labels, returns a piece,
    then [addCustomLabels] returns these pieces one after the other in the
    order of the scan; and the string of labels is the configured pairs in
    the order the loop over the map visits them, a comma between them. *)
Theorem text_addCustomLabels_line_by_line (c : Config) (w : World) (metricsText : string)
    (outs : list string) :
  Labels c <> ∅ ->
  Forall2 (fun line out =>
             relabelLine (Join (map pairText (fst (mapRange w (Labels c)))) ",")
               EmptyString line = Returns out)
    (scanLines metricsText) outs ->
  text_collector.addCustomLabels c w metricsText
    = Returns (joined outs, snd (mapRange w (Labels c))).
Proof.
  intros Hne Hf. unfold text_collector.addCustomLabels.
  apply map_size_non_empty_iff in Hne. apply Nat.eqb_neq in Hne. rewrite Hne.
  destruct (mapRange w (Labels c)) as [order w1]. simpl fst in Hf. simpl snd.
  rewrite buildLabels_Join, (relabelLines_joined _ _ outs) by exact Hf.
  by rewrite go_bind_Returns, app_Empty.
Qed.

End TextMore.

Section TextMoreRuns.
Import GoStrings config runtime metrics collector text_collector props fixtures server.

Lemma text_addCustomLabels_line_by_line_witness :
  text_collector.addCustomLabels (mkConfig [nodes] oneLabel) world0 bodyWithJunk
    = Returns (joined ["slurm_nodes_idle{cluster=" +:+ quoted "c1" +:+ "} 5" +:+ str LF;
                       "junk" +:+ str LF;
                       "slurm_jobs{cluster=" +:+ quoted "c1" +:+ "} 7" +:+ str LF]%string,
               snd (mapRange world0 (Labels (mkConfig [nodes] oneLabel)))).
Proof.
  apply (text_addCustomLabels_line_by_line (mkConfig [nodes] oneLabel) world0 bodyWithJunk).
  - exact oneLabel_nonempty.
  - assert (Hs : scanLines bodyWithJunk
                 = ["slurm_nodes_idle 5"; "junk"; "slurm_jobs 7"]%string)
      by (vm_compute; reflexivity).
    rewrite Hs. repeat (constructor; [vm_compute; reflexivity|]). constructor.
Defined.


End TextMoreRuns.

(** ** The family collector: parsing and the debugging helpers *)

Section FamilyMore.
Import GoStrings config runtime metrics collector family_collector props.

Lemma isByte_eq (c : ascii) (n : N) : isByte c n = true -> c = ascii_of_N n.
Proof.
  unfold isByte. intros Hn. apply N.eqb_eq in Hn. rewrite <- Hn.
  symmetry. apply ascii_N_embedding.
Qed.

Lemma scan_go_String (cur : string) (n : N) (c : ascii) (r : string) :
  scan_go cur n (String c r) =
    if isByte c 10
    then (if N.ltb n MaxScanTokenSize then dropCR cur :: scan_go EmptyString 0 r else [])
    else scan_go (String c cur) (N.succ n) r.
Proof. reflexivity. Qed.

Lemma scanErr_go_String (n : N) (c : ascii) (r : string) :
  scanErr_go n (String c r) =
    if isByte c 10
    then (if N.ltb n MaxScanTokenSize then scanErr_go 0 r else true)
    else scanErr_go (N.succ n) r.
Proof. reflexivity. Qed.

Lemma hasByte_String (n : N) (c : ascii) (r : string) :
  hasByte n (String c r) = isByte c n || hasByte n r.
Proof. reflexivity. Qed.

Lemma endsWithLF_String (c d : ascii) (r : string) :
  endsWithLF (String c (String d r)) = endsWithLF (String d r).
Proof. reflexivity. Qed.

Lemma rev_app_app (s t : string) : String.rev_app s t = String.rev s +:+ t.
Proof.
  unfold String.rev. revert t. induction s as [|a s IH]; intros t; [done|].
  simpl. rewrite (IH (String a t)), (IH (String a EmptyString)).
  by rewrite app_assoc_string.
Qed.

Lemma rev_String (c : ascii) (s : string) :
  String.rev (String c s) = String.rev s +:+ String c EmptyString.
Proof. unfold String.rev at 1. simpl. apply rev_app_app. Qed.

Lemma dropCR_no_CR (cur : string) : hasByte 13 cur = false -> dropCR cur = String.rev cur.
Proof.
  destruct cur as [|c cur]; [done|]. rewrite hasByte_String. intros Hc.
  apply orb_false_iff in Hc as [Hc _]. unfold dropCR. by rewrite Hc.
Qed.

(** Scanning and writing each line back with a line feed gives the text
    again, when no line ends in a carriage return, every line is ended by a
    line feed and fits the scanner's buffer. *)
Lemma copyLines_scan (s cur : string) (n : N) (b : string) :
  hasByte 13 cur = false -> hasByte 13 s = false ->
  scanErr_go n s = false ->
  (endsWithLF s = true \/ (s = EmptyString /\ cur = EmptyString)) ->
  copyLines (scan_go cur n s) b = b +:+ String.rev cur +:+ s.
Proof.
  revert cur n b. induction s as [|c r IH]; intros cur n b Hc Hs He Ht.
  - destruct Ht as [Ht|[_ ->]]; [discriminate Ht|]. simpl. by rewrite app_Empty_r.
  - rewrite scan_go_String. rewrite scanErr_go_String in He.
    rewrite hasByte_String in Hs. apply orb_false_iff in Hs as [Hc13 Hs].
    assert (Ht' : endsWithLF (String c r) = true) by (by destruct Ht as [Ht|[Ht _]]).
    destruct (isByte c 10) eqn:Hc10.
    + destruct (N.ltb n MaxScanTokenSize); [|discriminate He].
      apply isByte_eq in Hc10. subst c.
      change (copyLines (dropCR cur :: scan_go EmptyString 0 r) b)
        with (copyLines (scan_go EmptyString 0 r) (b +:+ dropCR cur +:+ str LF)).
      rewrite (IH EmptyString 0%N); [|done|exact Hs|exact He|].
      * rewrite dropCR_no_CR by exact Hc. simpl String.rev.
        rewrite app_Empty, !app_assoc_string. reflexivity.
      * destruct r as [|d r]; [by right|]. left. by rewrite endsWithLF_String in Ht'.
    + rewrite (IH (String c cur) (N.succ n)); [| |exact Hs|exact He|].
      * rewrite rev_String, app_assoc_string. reflexivity.
      * rewrite hasByte_String. by rewrite Hc13, Hc.
      * destruct r as [|d r].
        -- simpl in Ht'. congruence.
        -- left. by rewrite endsWithLF_String in Ht'.
Qed.

Lemma findEndpoint_first (endpoints : list EndpointConfig) (endpointName : string) :
  findEndpoint endpoints endpointName
    = head (filter (fun e => Name e = endpointName) (enabledOf endpoints)).
Proof.
  induction endpoints as [|ep endpoints IH]; [done|].
  simpl. destruct (Enabled ep) eqn:He.
  - rewrite filter_cons. destruct (decide (Name ep = endpointName)) as [Heq|Hne].
    + apply String.eqb_eq in Heq. by rewrite Heq.
    + apply String.eqb_neq in Hne. by rewrite Hne.
  - by rewrite andb_false_r.
Qed.

Context {World : Type} `{RuntimeLaws World} `{Expfmt}.

(** X12.  [parseMetrics] hands on every family the parser has found, once:
    the slice it builds is a rearrangement of the values of the parser's map,
    over the heap of the parser; and when the parser fails it makes no
    loop. *)
Theorem parseMetrics_keeps_every_family (w : World) (reader : Body) :
  match TextToMetricFamilies reader with
  | None => parseMetrics w reader = (inr ErrParse, w)
  | Some (parsed, h0) =>
      exists families w1,
        parseMetrics w reader = (inl (families, h0), w1) /\
        families ≡ₚ (map_to_list parsed).*2 /\
        length families = size parsed /\
        (forall family, family ∈ families <-> exists name, parsed !! name = Some family)
  end.
Proof.
  unfold parseMetrics.
  destruct (TextToMetricFamilies reader) as [[parsed h0]|]; [|done].
  pose proof (mapRange_ok _ w parsed) as Hr.
  destruct (mapRange w parsed) as [order w1]. simpl in Hr. unfold go_range in Hr.
  exists (map snd order), w1. split; [done|].
  assert (Hp : map snd order ≡ₚ (map_to_list parsed).*2) by (by rewrite Hr).
  split; [exact Hp|]. split.
  - rewrite (Permutation_length Hp), length_fmap. apply length_map_to_list.
  - intros family. rewrite Hp, list_elem_of_fmap. split.
    + intros ([name f] & -> & Hin). exists name. by apply elem_of_map_to_list in Hin.
    + intros [name Hl]. exists (name, family). split; [done|].
      by apply elem_of_map_to_list.
Qed.

(** X13.  [GetMetricsAsText] looks the name up among all the endpoints and
    takes the first one of that name that is enabled: its answer is the one
    it gives with that endpoint alone, and it reports that there is none,
    without a request, exactly when no enabled endpoint has the name. *)
Theorem GetMetricsAsText_first_enabled (c : Config) (w : World) (endpointName : string) :
  (GetMetricsAsText c w endpointName = (inr (ErrEndpointNotFound endpointName), w)
   <-> Forall (fun e => Name e <> endpointName) (GetEnabledEndpoints c)) /\
  match head (filter (fun e => Name e = endpointName) (GetEnabledEndpoints c)) with
  | Some ep => GetMetricsAsText c w endpointName = GetMetricsAsText (only c ep) w endpointName
  | None => GetMetricsAsText c w endpointName = (inr (ErrEndpointNotFound endpointName), w)
  end.
Proof.
  unfold GetMetricsAsText, GetEnabledEndpoints. rewrite findEndpoint_first.
  destruct (head (filter (fun e => Name e = endpointName) (enabledOf (Endpoints c))))
    as [ep|] eqn:Hh.
  - assert (Hin : ep ∈ filter (fun e => Name e = endpointName) (enabledOf (Endpoints c))).
    { destruct (filter _ _) as [|x l]; [discriminate Hh|].
      injection Hh as ->. apply list_elem_of_here. }
    apply list_elem_of_filter in Hin as [Hname Hin].
    assert (Hen : Enabled ep = true).
    { rewrite enabledOf_filter in Hin. by apply list_elem_of_filter in Hin as [Hen _]. }
    split.
    + split.
      * intros Hx. exfalso.
        destruct (roundTrip w (URL (Slurm c) +:+ Path ep)) as [[| |code body] w1];
          [discriminate Hx | discriminate Hx |].
        destruct (negb (code =? 200)); [discriminate Hx|].
        destruct body as [s|]; [|discriminate Hx].
        destruct (scanErr s); discriminate Hx.
      * intros Hf. exfalso. rewrite Forall_forall in Hf. by apply (Hf ep Hin).
    + simpl. apply String.eqb_eq in Hname. by rewrite Hname, Hen.
  - split; [|done]. split; [|done]. intros _.
    apply head_None in Hh. apply Forall_forall. intros e Hin Hname.
    assert (He : e ∈ filter (fun e => Name e = endpointName) (enabledOf (Endpoints c)))
      by (by apply list_elem_of_filter).
    rewrite Hh in He. by apply elem_of_nil in He.
Qed.

(** X14.  [GetMetricsAsText] gives the body of the upstream back byte for
    byte when the upstream answers 200 with a body that has no carriage
    return, whose every line is ended by a line feed and fits the buffer of
    the scanner: no label is added and nothing is parsed. *)
Theorem GetMetricsAsText_returns_body (c : Config) (w w1 : World)
    (endpointName : string) (endpoint : EndpointConfig) (s : string) :
  findEndpoint (Endpoints c) endpointName = Some endpoint ->
  roundTrip w (URL (Slurm c) +:+ Path endpoint) = (Response 200 (BodyBytes s), w1) ->
  hasByte 13 s = false ->
  s = EmptyString \/ endsWithLF s = true ->
  scanErr s = false ->
  GetMetricsAsText c w endpointName = (inl s, w1).
Proof.
  intros Hf Hr Hc Ht He. unfold GetMetricsAsText. rewrite Hf, Hr.
  change (negb (200 =? 200)) with false. cbv iota. rewrite He.
  unfold scanLines. rewrite copyLines_scan; [done|done|exact Hc|exact He|].
  destruct Ht as [->|Ht]; [by right | by left].
Qed.

(** X15.  [CollectFromFile] hands the answer it gets to [parseMetrics]
    whatever its status, and adds no label.  So on an answer whose status is
    not 200 and whose body parses it returns the families where
    [collectEndpoint] returns the error of the status; on status 200 and
    with no label configured the two return the same families over the same
    metrics; and on a body the parser rejects it returns the error of
    [parseMetrics], which [collectEndpoint] returns wrapped once more. *)
Theorem CollectFromFile_ignores_status (c : Config) (w w1 : World)
    (endpoint : EndpointConfig) (code : Z) (reader : Body) :
  roundTrip w (URL (Slurm c) +:+ Path endpoint) = (Response code reader, w1) ->
  match TextToMetricFamilies reader with
  | None =>
      CollectFromFile w (URL (Slurm c) +:+ Path endpoint) = (inr ErrParse, w1) /\
      family_collector.collectEndpoint c w endpoint
        = Returns (inr (if code =? 200 then ErrParseMetrics ErrParse else ErrStatus code),
                   w1)
  | Some (parsed, h0) =>
      exists families w2,
        CollectFromFile w (URL (Slurm c) +:+ Path endpoint) = (inl (families, h0), w2) /\
        families ≡ₚ (map_to_list parsed).*2 /\
        (code <> 200 ->
         family_collector.collectEndpoint c w endpoint
           = Returns (inr (ErrStatus code), w1)) /\
        (code = 200 -> Labels c = ∅ ->
         family_collector.collectEndpoint c w endpoint
           = Returns (inl (families, h0), w2))
  end.
Proof.
  intros Hr. unfold CollectFromFile, family_collector.collectEndpoint. rewrite Hr.
  unfold parseMetrics.
  destruct (TextToMetricFamilies reader) as [[parsed h0]|].
  - pose proof (mapRange_ok _ w1 parsed) as Ho.
    destruct (mapRange w1 parsed) as [order w2]. simpl in Ho. unfold go_range in Ho.
    exists (map snd order), w2. split; [done|]. split; [by rewrite Ho|]. split.
    + intros Hc. apply Z.eqb_neq in Hc. by rewrite Hc.
    + intros -> Hl. change (negb (200 =? 200)) with false. cbv iota.
      unfold family_collector.addCustomLabels. by rewrite Hl, map_size_empty.
  - split; [done|]. by destruct (code =? 200).
Qed.

End FamilyMore.

(** ** The text collector, by the lines of the body *)

Section TextBody.
Import GoStrings config runtime metrics collector text_collector props.

Lemma length_rev_string (s : string) : String.length (String.rev s) = String.length s.
Proof.
  induction s as [|c s IH]; [done|].
  rewrite rev_String, length_app_string, IH. simpl. lia.
Qed.

(** The scanner reads the bytes of a line into its buffer. *)
Lemma scan_go_line (line cur : string) (n : N) (rest : string) :
  hasByte 10 line = false ->
  scan_go cur n (line +:+ rest)
    = scan_go (String.rev_app line cur) (n + N.of_nat (String.length line)) rest.
Proof.
  revert cur n. induction line as [|c line IH]; intros cur n Hl.
  - rewrite app_Empty. simpl. by rewrite N.add_0_r.
  - rewrite hasByte_String in Hl. apply orb_false_iff in Hl as [Hc Hl].
    rewrite app_String, scan_go_String, Hc, (IH _ _ Hl). simpl String.rev_app.
    f_equal. simpl String.length. lia.
Qed.

(** It scans a text that ends at the end of a line, and has no line too
    long for the buffer, before it goes on with what follows. *)
Lemma scan_go_pre (pre cur : string) (n : N) (tail : string) :
  endsWithLF pre = true \/ (pre = EmptyString /\ cur = EmptyString /\ n = 0%N) ->
  scanErr_go n pre = false ->
  scan_go cur n (pre +:+ tail) = scan_go cur n pre ++ scan_go EmptyString 0 tail.
Proof.
  revert cur n. induction pre as [|c r IH]; intros cur n Ht He.
  - destruct Ht as [Ht|(_ & -> & ->)]; [discriminate Ht|]. by rewrite app_Empty.
  - assert (Ht' : endsWithLF (String c r) = true) by (by destruct Ht as [Ht|[Ht _]]).
    rewrite app_String, !scan_go_String. rewrite scanErr_go_String in He.
    destruct (isByte c 10) eqn:Hc.
    + destruct (N.ltb n MaxScanTokenSize); [|discriminate He].
      rewrite (IH EmptyString 0%N); [done| |exact He].
      destruct r as [|d r]; [by right|]. left. by rewrite endsWithLF_String in Ht'.
    + apply IH; [|exact He]. destruct r as [|d r].
      * simpl in Ht'. congruence.
      * left. by rewrite endsWithLF_String in Ht'.
Qed.

(** The lines the scanner yields for a text, around a line of it that fits
    the buffer and comes after no line that does not. *)
Lemma scanLines_line (pre bad post : string) :
  pre = EmptyString \/ endsWithLF pre = true ->
  scanErr pre = false ->
  hasByte 10 bad = false ->
  (N.of_nat (String.length bad) < MaxScanTokenSize)%N ->
  scanLines (pre +:+ bad +:+ str LF +:+ post)
    = scanLines pre ++ chomp bad :: scanLines post /\
  (bad <> EmptyString -> scanLines (pre +:+ bad) = scanLines pre ++ [chomp bad]).
Proof.
  intros Ht He Hl Hn. unfold scanLines, scanErr in *.
  assert (Ht' : endsWithLF pre = true
                \/ (pre = EmptyString /\ EmptyString = EmptyString /\ 0%N = 0%N))
    by (destruct Ht as [->|Ht]; [by right | by left]).
  apply N.ltb_lt in Hn. split.
  - rewrite (scan_go_pre pre _ _ _ Ht' He), (scan_go_line bad _ _ _ Hl).
    rewrite N.add_0_l. change (str LF +:+ post) with (String LF post).
    rewrite scan_go_String. change (isByte LF 10) with true. cbv iota.
    by rewrite Hn.
  - intros Hne. rewrite <- (app_Empty_r bad) at 1.
    rewrite (scan_go_pre pre _ _ _ Ht' He), (scan_go_line bad _ _ _ Hl).
    rewrite N.add_0_l. f_equal. unfold chomp, String.rev.
    assert (Hr : String.rev_app bad EmptyString <> EmptyString).
    { intros Hr. apply Hne. pose proof (length_rev_string bad) as Hlen.
      unfold String.rev in Hlen. rewrite Hr in Hlen. by destruct bad. }
    simpl. destruct (String.rev_app bad EmptyString) as [|x y]; [done|]. by rewrite Hn.
Qed.

Lemma relabelLines_result (labelsStr : string) (lines : list string) (result : string) :
  relabelLines labelsStr lines result
    = go_bind (relabelLines labelsStr lines EmptyString)
        (fun out => Returns (result +:+ out)).
Proof.
  revert result. induction lines as [|line lines IH]; intros result.
  - simpl. by rewrite app_Empty_r.
  - simpl. rewrite relabelLine_result.
    destruct (relabelLine labelsStr EmptyString line) as [o|]; [|done].
    rewrite !go_bind_Returns, ?app_Empty, (IH (result +:+ o)), (IH o).
    destruct (relabelLines labelsStr lines EmptyString) as [out|]; [|done].
    by rewrite !go_bind_Returns, app_assoc_string.
Qed.

Context {World : Type} `{Runtime World}.

(** C7, as the code has it.  In the text collector, with labels configured,
    take a line of the body, the bytes between two line feeds or after the
    last one, that fits the scanner's buffer, comes after no line that does
    not, and has fewer than two fields.  The line is copied to the output
    as it is, but for a carriage return at its end, and the rest is
    relabelled as it is without the line: when the collector returns on the
    text before the line and on the text after it, what it returns on the
    whole is what it returns on the text before, then the line with a line
    feed, then what it returns on the text after. *)
Theorem short_line_copied_and_rest_relabelled (c : Config) (w w1 w2 : World)
    (preText bad postText outPre outPost : string) :
  Labels c <> ∅ ->
  preText = EmptyString \/ endsWithLF preText = true ->
  scanErr preText = false ->
  hasByte 10 bad = false ->
  (N.of_nat (String.length bad) < MaxScanTokenSize)%N ->
  (length (Fields (chomp bad)) < 2)%nat ->
  text_collector.addCustomLabels c w preText = Returns (outPre, w1) ->
  text_collector.addCustomLabels c w postText = Returns (outPost, w2) ->
  text_collector.addCustomLabels c w (preText +:+ bad +:+ str LF +:+ postText)
    = Returns (outPre +:+ chomp bad +:+ str LF +:+ outPost, w1) /\
  (bad <> EmptyString ->
   text_collector.addCustomLabels c w (preText +:+ bad)
     = Returns (outPre +:+ chomp bad +:+ str LF, w1)).
Proof.
  intros Hne Ht He Hl Hn Hshort Hpre Hpost.
  destruct (scanLines_line preText bad postText Ht He Hl Hn) as [Hs1 Hs2].
  unfold text_collector.addCustomLabels in *.
  apply map_size_non_empty_iff in Hne. apply Nat.eqb_neq in Hne. rewrite Hne in *.
  destruct (mapRange w (Labels c)) as [order wl].
  set (labelsStr := buildLabels true order EmptyString) in *.
  destruct (relabelLines labelsStr (scanLines preText) EmptyString) as [op|] eqn:Ep;
    simpl in Hpre; [|done].
  injection Hpre as -> ->.
  destruct (relabelLines labelsStr (scanLines postText) EmptyString) as [oq|] eqn:Eq;
    simpl in Hpost; [|done].
  injection Hpost as -> _.
  pose proof (relabelLine_short labelsStr outPre (chomp bad) Hshort) as Hb.
  split.
  - rewrite Hs1, relabelLines_app, Ep, go_bind_Returns.
    change (relabelLines labelsStr (chomp bad :: scanLines postText) outPre)
      with (go_bind (relabelLine labelsStr outPre (chomp bad))
              (relabelLines labelsStr (scanLines postText))).
    rewrite Hb, go_bind_Returns, relabelLines_result, Eq, !go_bind_Returns.
    by rewrite !app_assoc_string.
  - intros Hbad. rewrite (Hs2 Hbad), relabelLines_app, Ep, go_bind_Returns.
    change (relabelLines labelsStr [chomp bad] outPre)
      with (go_bind (relabelLine labelsStr outPre (chomp bad))
              (relabelLines labelsStr [])).
    by rewrite Hb, !go_bind_Returns.
Qed.

End TextBody.

Section TextBodyRuns.
Import GoStrings config runtime metrics collector text_collector props fixtures.

Lemma short_line_copied_and_rest_relabelled_witness :
  text_collector.addCustomLabels (mkConfig [nodes] oneLabel) world0
      (("slurm_nodes_idle 5" +:+ str LF) +:+ "junk" +:+ str LF
       +:+ ("slurm_jobs 7" +:+ str LF))
    = Returns (("slurm_nodes_idle{cluster=" +:+ quoted "c1" +:+ "} 5" +:+ str LF)
               +:+ chomp "junk" +:+ str LF
               +:+ ("slurm_jobs{cluster=" +:+ quoted "c1" +:+ "} 7" +:+ str LF),
               {| upstream := []; reversed := true |}) /\
  ("junk"%string <> EmptyString ->
   text_collector.addCustomLabels (mkConfig [nodes] oneLabel) world0
       (("slurm_nodes_idle 5" +:+ str LF) +:+ "junk")
     = Returns (("slurm_nodes_idle{cluster=" +:+ quoted "c1" +:+ "} 5" +:+ str LF)
                +:+ chomp "junk" +:+ str LF,
                {| upstream := []; reversed := true |})).
Proof.
  apply (short_line_copied_and_rest_relabelled (mkConfig [nodes] oneLabel) world0
           {| upstream := []; reversed := true |} {| upstream := []; reversed := true |}
           ("slurm_nodes_idle 5" +:+ str LF) "junk" ("slurm_jobs 7" +:+ str LF)).
  - exact oneLabel_nonempty.
  - right. vm_compute. reflexivity.
  - vm_compute. reflexivity.
  - vm_compute. reflexivity.
  - vm_compute. reflexivity.
  - vm_compute. lia.
  - vm_compute. reflexivity.
  - vm_compute. reflexivity.
Defined.

End TextBodyRuns.

Section FamilyMoreRuns.
Import GoStrings config runtime metrics collector family_collector props fixtures.

Lemma parseMetrics_keeps_every_family_witness :
  exists families w1,
    parseMetrics (H0 := toyExpfmt) degraded (BodyBytes jobsBody)
      = (inl (families, {[1%positive := bare "7"]}), w1) /\
    families ≡ₚ (map_to_list ({["slurm_jobs"%string := gaugeOf "slurm_jobs" 1]}
                              : gmap string MetricFamily)).*2 /\
    length families
      = size ({["slurm_jobs"%string := gaugeOf "slurm_jobs" 1]}
              : gmap string MetricFamily) /\
    (forall family,
       family ∈ families
       <-> exists name,
             ({["slurm_jobs"%string := gaugeOf "slurm_jobs" 1]}
              : gmap string MetricFamily) !! name = Some family).
Proof.
  exact (parseMetrics_keeps_every_family (H1 := toyExpfmt) degraded (BodyBytes jobsBody)).
Defined.

Lemma GetMetricsAsText_returns_body_witness :
  GetMetricsAsText (mkConfig [nodes] oneLabel)
    (serving (mkConfig [nodes] oneLabel) [(nodes, ok nodesBody)]) "nodes"
    = (inl nodesBody, serving (mkConfig [nodes] oneLabel) [(nodes, ok nodesBody)]).
Proof.
  apply (GetMetricsAsText_returns_body (mkConfig [nodes] oneLabel)
           (serving (mkConfig [nodes] oneLabel) [(nodes, ok nodesBody)])
           (serving (mkConfig [nodes] oneLabel) [(nodes, ok nodesBody)])
           "nodes" nodes nodesBody).
  - vm_compute. reflexivity.
  - vm_compute. reflexivity.
  - vm_compute. reflexivity.
  - right. vm_compute. reflexivity.
  - vm_compute. reflexivity.
Defined.

(** A body with lines ended by carriage return and line feed, or with a last
    line that is not ended, does not come back as it is. *)
Lemma GetMetricsAsText_normalises_line_ends :
  GetMetricsAsText (mkConfig [nodes] oneLabel)
    (serving (mkConfig [nodes] oneLabel)
       [(nodes, ok ("a 1" +:+ str CR +:+ str LF +:+ "b 2"))]) "nodes"
    = (inl ("a 1" +:+ str LF +:+ "b 2" +:+ str LF),
       serving (mkConfig [nodes] oneLabel)
         [(nodes, ok ("a 1" +:+ str CR +:+ str LF +:+ "b 2"))]).
Proof. vm_compute. reflexivity. Qed.

(** An answer of status 503 whose body parses. *)
Lemma CollectFromFile_ignores_status_witness :
  exists families w2,
    CollectFromFile (H0 := toyExpfmt) errorPage (URL (Slurm threeEndpoints) +:+ Path jobs)
      = (inl (families, {[1%positive := bare "7"]}), w2) /\
    families ≡ₚ (map_to_list ({["slurm_jobs"%string := gaugeOf "slurm_jobs" 1]}
                              : gmap string MetricFamily)).*2 /\
    (503 <> 200 ->
     family_collector.collectEndpoint (H0 := toyExpfmt) threeEndpoints errorPage jobs
       = Returns (inr (ErrStatus 503), errorPage)) /\
    (503 = 200 -> Labels threeEndpoints = ∅ ->
     family_collector.collectEndpoint (H0 := toyExpfmt) threeEndpoints errorPage jobs
       = Returns (inl (families, {[1%positive := bare "7"]}), w2)).
Proof.
  apply (CollectFromFile_ignores_status (H1 := toyExpfmt) threeEndpoints errorPage errorPage
           jobs 503 (BodyBytes jobsBody)).
  vm_compute. reflexivity.
Defined.

(** That run: the families of the error page from [CollectFromFile], the
    error of the status from [collectEndpoint]. *)
Lemma CollectFromFile_takes_an_error_page :
  CollectFromFile (H0 := toyExpfmt) errorPage (URL (Slurm threeEndpoints) +:+ Path jobs)
    = (inl ([gaugeOf "slurm_jobs" 1], {[1%positive := bare "7"]}),
       {| upstream := upstream errorPage; reversed := true |}) /\
  family_collector.collectEndpoint (H0 := toyExpfmt) threeEndpoints errorPage jobs
    = Returns (inr (ErrStatus 503), errorPage).
Proof. split; vm_compute; reflexivity. Qed.

End FamilyMoreRuns.

(** ** The server: the wrapper, the route and the authentication *)

Section WrapperMore.
Import GoStrings config runtime metrics collector props server.

Lemma mounted_applyOp {W : Type} `{ResponseWriter W} (i : W) (op : WriterOp) :
  applyOp {| inner := i; statusCode := 200 |} op
    = {| inner := if passes op then applyOp i op else i; statusCode := 200 |}.
Proof.
  destruct op as [code|b|k v]; simpl; [done| |done].
  unfold wrapper_Write. simpl. by destruct (Write i b).
Qed.

(** X16.  The wrapper as [instrumentHandler] makes it, with status code 200,
    never hands a [WriteHeader] on: whatever a handler does with it, its
    status code stays 200 and the writer it wraps sees the writes and the
    header settings only, in their order. *)
Theorem mounted_wrapper_drops_WriteHeader {W : Type} `{ResponseWriter W}
    (i : W) (ops : list WriterOp) :
  statusCode (applyOps {| inner := i; statusCode := 200 |} ops) = 200 /\
  inner (applyOps {| inner := i; statusCode := 200 |} ops)
    = applyOps i (filter (fun op => passes op = true) ops).
Proof.
  revert i. induction ops as [|op ops IH]; intros i; [done|].
  unfold applyOps in *. simpl fold_left. rewrite mounted_applyOp.
  destruct (IH (if passes op then applyOp i op else i)) as [-> ->].
  split; [done|]. rewrite filter_cons.
  destruct (passes op); [by rewrite decide_True | by rewrite decide_False].
Qed.

Lemma recordsStatus_applyOp (w : responseWriterWrapper response) (op : WriterOp) :
  finalCode op -> recordsStatus w -> recordsStatus (applyOp w op).
Proof.
  destruct w as [r sc]. unfold recordsStatus. simpl.
  destruct op as [code|b|k v]; simpl; intros Hc Hw.
  - unfold wrapper_WriteHeader. simpl.
    destruct Hw as [[-> Hs]|[Hne Hs]].
    + rewrite Z.eqb_refl. simpl. right. unfold response_WriteHeader. rewrite Hs. simpl.
      split; [lia|done].
    + pose proof Hne as Hne'. apply Z.eqb_neq in Hne'. rewrite Hne'. simpl. by right.
  - unfold wrapper_Write. simpl.
    destruct Hw as [[-> Hs]|[Hne Hs]].
    + rewrite Z.eqb_refl. simpl. right. unfold response_Write, response_WriteHeader.
      rewrite Hs. simpl. destruct (writesLeft r) as [[|n]|]; simpl; done.
    + pose proof Hne as Hne'. apply Z.eqb_neq in Hne'. rewrite Hne'. simpl.
      right. unfold response_Write, response_WriteHeader. rewrite Hs.
      destruct (writesLeft r) as [[|n]|]; simpl; done.
  - unfold response_HeaderSet.
    destruct Hw as [[-> Hs]|[Hne Hs]]; rewrite Hs; simpl; [by left | by right].
Qed.

(** X17.  The methods of the wrapper keep what it is for when it starts at
    zero: on a response that has no status line yet, and whatever final
    status codes, writes and header settings follow, the status code of the
    wrapper is the one of the status line sent, and zero when none was
    sent; so the status the client reads is the one recorded, 200 standing
    in for zero. *)
Theorem zero_wrapper_records_status (r : response) (ops : list WriterOp) :
  status r = None ->
  Forall finalCode ops ->
  recordsStatus (applyOps {| inner := r; statusCode := 0 |} ops) /\
  finalStatus (inner (applyOps {| inner := r; statusCode := 0 |} ops))
    = (if statusCode (applyOps {| inner := r; statusCode := 0 |} ops) =? 0 then 200
       else statusCode (applyOps {| inner := r; statusCode := 0 |} ops)).
Proof.
  intros Hs Hf.
  assert (Hinv : recordsStatus (applyOps {| inner := r; statusCode := 0 |} ops)).
  { assert (H0 : recordsStatus {| inner := r; statusCode := 0 |}) by (by left).
    revert H0. generalize {| inner := r; statusCode := 0 |}.
    induction Hf as [|op ops Hop Hf IH]; intros w Hw; [done|].
    unfold applyOps in *. simpl. apply IH. by apply recordsStatus_applyOp. }
  split; [exact Hinv|]. unfold finalStatus.
  destruct Hinv as [[-> ->]|[Hne ->]]; [done|].
  apply Z.eqb_neq in Hne. by rewrite Hne.
Qed.

End WrapperMore.

Section WrapperRuns.
Import GoStrings config runtime metrics collector props server fixtures.

Lemma zero_wrapper_records_status_witness :
  recordsStatus (applyOps {| inner := fresh; statusCode := 0 |}
                   [OpHeaderSet "Content-Type" "text/plain"; OpWriteHeader 500;
                    OpWrite "Failed to collect metrics"; OpWriteHeader 200]) /\
  finalStatus (inner (applyOps {| inner := fresh; statusCode := 0 |}
                   [OpHeaderSet "Content-Type" "text/plain"; OpWriteHeader 500;
                    OpWrite "Failed to collect metrics"; OpWriteHeader 200]))
    = (if statusCode (applyOps {| inner := fresh; statusCode := 0 |}
                   [OpHeaderSet "Content-Type" "text/plain"; OpWriteHeader 500;
                    OpWrite "Failed to collect metrics"; OpWriteHeader 200]) =? 0 then 200
       else statusCode (applyOps {| inner := fresh; statusCode := 0 |}
                   [OpHeaderSet "Content-Type" "text/plain"; OpWriteHeader 500;
                    OpWrite "Failed to collect metrics"; OpWriteHeader 200])).
Proof.
  apply (zero_wrapper_records_status fresh).
  - reflexivity.
  - repeat constructor; simpl; lia.
Defined.

(** [http.Error] with status 500 through the wrapper as mounted: the client
    reads 200 with the message as the body; through a wrapper that starts at
    zero it reads 500. *)
Lemma Error_through_mounted_wrapper :
  status (inner (Error freshSink "Failed to collect metrics" 500)) = Some 200 /\
  statusCode (Error freshSink "Failed to collect metrics" 500) = 200 /\
  body (inner (Error freshSink "Failed to collect metrics" 500))
    = ("Failed to collect metrics" +:+ str LF)%string /\
  status (inner (Error {| inner := fresh; statusCode := 0 |}
                   "Failed to collect metrics" 500)) = Some 500 /\
  statusCode (Error {| inner := fresh; statusCode := 0 |}
                "Failed to collect metrics" 500) = 500.
Proof. vm_compute. repeat split; reflexivity. Qed.

End WrapperRuns.

Section RouteMore.
Import GoStrings config runtime metrics collector props server.

Context {World : Type} `{RuntimeLaws World}.

Lemma wrapper_Write_200 {W : Type} `{ResponseWriter W}
    (w : responseWriterWrapper W) (b : string) :
  statusCode w = 200 -> statusCode (Write w b).1 = 200.
Proof.
  destruct w as [i sc]. simpl. intros ->. unfold wrapper_Write. simpl.
  by destruct (Write i b).
Qed.

Section Family.

Context `{family_collector.Expfmt}.

Lemma family_encodeFamilies_200 {W : Type} `{ResponseWriter W}
    (h : gmap positive family_collector.Metric)
    (families : list family_collector.MetricFamily) (w : responseWriterWrapper W) :
  statusCode w = 200 -> statusCode (family_collector.encodeFamilies h families w).1 = 200.
Proof.
  revert w. induction families as [|f families IH]; intros w Hw; [done|].
  rewrite family_encodeFamilies_cons. destruct (family_collector.Encode h f); [|done].
  pose proof (wrapper_Write_200 w s Hw) as Hw1.
  destruct (Write w s) as [w1 [err|]]; [done|]. by apply IH.
Qed.

Lemma family_writeEntries_200 {W : Type} `{ResponseWriter W}
    (entries : list (string * family_collector.Families)) (w : responseWriterWrapper W) :
  statusCode w = 200 -> statusCode (family_collector.writeEntries entries w).1 = 200.
Proof.
  revert w. induction entries as [|[k fams] entries IH]; intros w Hw; [done|].
  rewrite family_writeEntries_cons.
  pose proof (family_encodeFamilies_200 fams.2 fams.1 w Hw) as Hw1.
  destruct (family_collector.encodeFamilies fams.2 fams.1 w) as [w1 [err|]]; [done|].
  by apply IH.
Qed.

(** X18.  With a parser that hands out no nil metric, the [/metrics] route
    of the family collector returns for every configuration, upstream and
    connection, also one that breaks or an encoder that fails, and then the
    request is counted once, under status 200, and its duration observed
    once: no other status is ever counted. *)
Theorem family_route_counts_200 (expose : Registry -> string)
    (c : Config) (w : World) (reg : Registry) (req : Request) (r0 : response) :
  parserClosed ->
  exists r1 w2 reg2,
    metricsRoute family_collector.Families family_collector.collectEndpoint
        (fun W HW => family_collector.WriteMetrics (W := W)) expose c w reg req r0
      = Returns (r1, w2, reg2) /\
    HTTPRequestsTotal reg2
      = <[(Method req, URLPath req, 200) :=
            counter (HTTPRequestsTotal reg) (Method req, URLPath req, 200) + 1]>
          (HTTPRequestsTotal reg) /\
    HTTPRequestDuration reg2 = HTTPRequestDuration reg ++ [(Method req, URLPath req)].
Proof.
  intros Hpc.
  destruct (trace_returns family_collector.collectEndpoint c (GetEnabledEndpoints c) w)
    as (tr & w1 & Ht).
  { intros w' e. by apply family_collectEndpoint_returns. }
  pose proof (CollectAll_trace family_collector.collectEndpoint c w w1 reg tr Ht) as Hc.
  destruct (recorded_durations tr reg) as (_ & Ht1 & Ht2).
  set (wrw := {| inner := r0; statusCode := 200 |}).
  set (wrw1 := HeaderSet wrw "Content-Type" "text/plain; version=0.0.4; charset=utf-8").
  assert (Hwrw1 : statusCode wrw1 = 200) by done.
  destruct (mapRange w1 (fold_left store (successes tr) ∅)) as [order w2] eqn:Hm.
  pose proof (family_writeEntries_200 order wrw1 Hwrw1) as Hw2.
  destruct (family_collector.writeEntries order wrw1) as [out err] eqn:Hrun.
  simpl in Hw2.
  assert (Hroute :
    metricsRoute family_collector.Families family_collector.collectEndpoint
        (fun W HW => family_collector.WriteMetrics (W := W)) expose c w reg req r0
      = Returns (match err with
                 | Some _ => inner out
                 | None => inner (promhttp_ServeHTTP expose (recorded tr reg) out)
                 end, w2,
                 IncRequests (Method req) (URLPath req) 200 (recorded tr reg))).
  { unfold metricsRoute, handleMetrics. fold wrw. rewrite Hc, go_bind_Returns.
    cbv beta iota zeta. fold wrw1. unfold family_collector.WriteMetrics.
    rewrite Hm, Hrun. destruct err as [e|]; rewrite go_bind_Returns; cbv beta iota.
    - by rewrite Hw2.
    - unfold promhttp_ServeHTTP.
      by rewrite (wrapper_Write_200 out (expose (recorded tr reg)) Hw2). }
  eexists _, _, _. split; [exact Hroute|]. simpl. by rewrite Ht1, Ht2.
Qed.

End Family.

(** Writing the entries and then, if that went well, one more text is
    writing one more entry. *)
Lemma text_writeEntries_snoc {W : Type} `{Writer W}
    (entries : list (string * string)) (k last : string) (w : W) :
  (text_collector.writeEntries (entries ++ [(k, last)]) w).1
    = match text_collector.writeEntries entries w with
      | (w1, Some _) => w1
      | (w1, None) => (Write w1 last).1
      end.
Proof.
  revert w. induction entries as [|[k' text] entries IH]; intros w.
  - simpl. by destruct (Write w last) as [w1 [err|]].
  - simpl app. rewrite !text_writeEntries_cons.
    destruct (Write w text) as [w1 [err|]]; [done|]. apply IH.
Qed.

Lemma text_writeEntries_sent (entries : list (string * string))
    (w : responseWriterWrapper response) :
  statusCode w = 200 ->
  statusCode (text_collector.writeEntries entries w).1 = 200 /\
  body (inner (text_collector.writeEntries entries w).1)
    = body (inner w) +:+ joined (sent (writesLeft (inner w)) entries.*2) /\
  status (inner (text_collector.writeEntries entries w).1)
    = match entries with
      | [] => status (inner w)
      | _ => Some (default 200 (status (inner w)))
      end.
Proof.
  revert w. induction entries as [|[k text] entries IH]; intros [r sc] Hw; simpl in Hw; subst sc.
  - simpl.
    replace (sent (writesLeft r) []) with ([] : list string)
      by (by destruct (writesLeft r) as [[|n]|]).
    simpl. by rewrite app_Empty_r.
  - rewrite text_writeEntries_cons.
    change (Write {| inner := r; statusCode := 200 |} text)
      with (match response_Write r text with
            | (i, err) => ({| inner := i; statusCode := 200 |}, err)
            end).
    unfold response_Write, response_WriteHeader.
    destruct (status r) as [code|] eqn:Hs; destruct (writesLeft r) as [[|n]|] eqn:Hl;
      simpl writesLeft; rewrite ?Hl; cbv beta iota.
    + simpl. rewrite Hs, app_Empty_r. done.
    + match goal with
      | |- context [text_collector.writeEntries entries ?w1] =>
          destruct (IH w1 eq_refl) as (E1 & E2 & E3)
      end.
      rewrite E1, E2, E3. simpl. rewrite ?Hs. split; [done|]. split.
      * by rewrite app_assoc_string.
      * by destruct entries.
    + match goal with
      | |- context [text_collector.writeEntries entries ?w1] =>
          destruct (IH w1 eq_refl) as (E1 & E2 & E3)
      end.
      rewrite E1, E2, E3. simpl. rewrite ?Hs. split; [done|]. split.
      * by rewrite app_assoc_string.
      * by destruct entries.
    + simpl. rewrite Hs, app_Empty_r. done.
    + match goal with
      | |- context [text_collector.writeEntries entries ?w1] =>
          destruct (IH w1 eq_refl) as (E1 & E2 & E3)
      end.
      rewrite E1, E2, E3. simpl. rewrite ?Hs. split; [done|]. split.
      * by rewrite app_assoc_string.
      * by destruct entries.
    + match goal with
      | |- context [text_collector.writeEntries entries ?w1] =>
          destruct (IH w1 eq_refl) as (E1 & E2 & E3)
      end.
      rewrite E1, E2, E3. simpl. rewrite ?Hs. split; [done|]. split.
      * by rewrite app_assoc_string.
      * by destruct entries.
Qed.

(** X19.  The [/metrics] route of the text collector on a connection that
    may break.  The route returns, the client reads status 200 and, after
    what the response held, the texts of the endpoints in the order of the
    loop over the result map and then the exporter's own metrics, cut after
    as many whole texts as the connection takes writes; the failure of a
    write is not reported: the request is counted under status 200. *)
Theorem text_route_on_breaking_connection (expose : Registry -> string)
    (c : Config) (w w1 : World) (reg : Registry) (req : Request) (r0 : response)
    (tr : list (EndpointConfig * (string + CollectError))) :
  trace text_collector.collectEndpoint c (GetEnabledEndpoints c) w = Returns (tr, w1) ->
  status r0 = None ->
  exists results order r1 w2,
    CollectAll string text_collector.collectEndpoint c w reg
      = Returns (results, None, w1, recorded tr reg) /\
    order ≡ₚ map_to_list results /\
    metricsRoute string text_collector.collectEndpoint
        (fun W HW => text_collector.WriteMetrics (W := W)) expose c w reg req r0
      = Returns (r1, w2, IncRequests (Method req) (URLPath req) 200 (recorded tr reg)) /\
    status r1 = Some 200 /\
    body r1 = body r0
              +:+ joined (sent (writesLeft r0) (order.*2 ++ [expose (recorded tr reg)])).
Proof.
  intros Ht Hst.
  pose proof (CollectAll_trace text_collector.collectEndpoint c w w1 reg tr Ht) as Hc.
  set (wrw := {| inner := r0; statusCode := 200 |}).
  set (wrw1 := HeaderSet wrw "Content-Type" "text/plain; version=0.0.4; charset=utf-8").
  assert (Hwrw1 : statusCode wrw1 = 200) by done.
  assert (Hi1 : status (inner wrw1) = None /\ body (inner wrw1) = body r0 /\
                writesLeft (inner wrw1) = writesLeft r0).
  { subst wrw1 wrw. simpl. unfold response_HeaderSet. by rewrite Hst. }
  destruct Hi1 as (Hs1 & Hb1 & Hl1).
  pose proof (mapRange_ok _ w1 (fold_left store (successes tr) ∅)) as Hr.
  destruct (mapRange w1 (fold_left store (successes tr) ∅)) as [order w2] eqn:Hm.
  simpl in Hr. unfold go_range in Hr.
  destruct (text_writeEntries_sent (order ++ [(EmptyString, expose (recorded tr reg))])
              wrw1 Hwrw1) as (E1 & E2 & E3).
  rewrite text_writeEntries_snoc in E1, E2, E3.
  exists (fold_left store (successes tr) ∅), order.
  destruct (text_collector.writeEntries order wrw1) as [out err] eqn:Hrun.
  assert (Hroute :
    metricsRoute string text_collector.collectEndpoint
        (fun W HW => text_collector.WriteMetrics (W := W)) expose c w reg req r0
      = Returns (inner match err with
                       | Some _ => out
                       | None => (Write out (expose (recorded tr reg))).1
                       end, w2,
                 IncRequests (Method req) (URLPath req) 200 (recorded tr reg))).
  { unfold metricsRoute, handleMetrics. fold wrw. rewrite Hc, go_bind_Returns.
    cbv beta iota zeta. fold wrw1. unfold text_collector.WriteMetrics.
    rewrite Hm, Hrun. destruct err as [e|]; rewrite go_bind_Returns; cbv beta iota.
    - by rewrite E1.
    - unfold promhttp_ServeHTTP. by rewrite E1. }
  eexists _, _. split; [exact Hc|]. split; [exact Hr|]. split; [exact Hroute|].
  rewrite E2, E3, Hs1, Hb1, Hl1, fmap_app. split; [|done].
  by destruct order.
Qed.

End RouteMore.

Section RouteRuns.
Import GoStrings config runtime metrics collector props server fixtures.

Lemma toy_parserClosed : parserClosed (H := toyExpfmt).
Proof.
  intros reader parsed h0 name f p Hp Hf Hin. simpl in Hp. unfold toyParse in Hp.
  destruct reader as [s|]; [|discriminate Hp].
  destruct (String.eqb s nodesBody).
  - injection Hp as <- <-.
    destruct (decide (name = "slurm_nodes_alloc"%string)) as [->|Hn1].
    + rewrite lookup_insert_eq in Hf. injection Hf as <-. simpl in Hin.
      apply list_elem_of_singleton in Hin as ->. by eexists.
    + rewrite lookup_insert_ne in Hf by done.
      apply lookup_singleton_Some in Hf as [_ <-]. simpl in Hin.
      apply list_elem_of_singleton in Hin as ->. by eexists.
  - destruct (String.eqb s jobsBody); [|discriminate Hp].
    injection Hp as <- <-. apply lookup_singleton_Some in Hf as [_ <-]. simpl in Hin.
    apply list_elem_of_singleton in Hin as ->. by eexists.
Qed.

Lemma family_route_counts_200_witness :
  exists r1 w2 reg2,
    metricsRoute family_collector.Families
        (family_collector.collectEndpoint (H0 := toyExpfmt))
        (fun W HW => family_collector.WriteMetrics (H0 := toyExpfmt) (W := W))
        exposeScheduler threeEndpoints degraded emptyRegistry scrape (hangsUp 1)
      = Returns (r1, w2, reg2) /\
    HTTPRequestsTotal reg2
      = <[(Method scrape, URLPath scrape, 200) :=
            counter (HTTPRequestsTotal emptyRegistry) (Method scrape, URLPath scrape, 200) + 1]>
          (HTTPRequestsTotal emptyRegistry) /\
    HTTPRequestDuration reg2
      = HTTPRequestDuration emptyRegistry ++ [(Method scrape, URLPath scrape)].
Proof.
  apply (family_route_counts_200 (H1 := toyExpfmt) exposeScheduler threeEndpoints degraded).
  exact toy_parserClosed.
Defined.

Lemma text_route_on_breaking_connection_witness :
  exists tr w1,
    trace text_collector.collectEndpoint threeEndpoints
      (GetEnabledEndpoints threeEndpoints) degraded = Returns (tr, w1) /\
    exists results order r1 w2,
      CollectAll string text_collector.collectEndpoint threeEndpoints degraded emptyRegistry
        = Returns (results, None, w1, recorded tr emptyRegistry) /\
      order ≡ₚ map_to_list results /\
      metricsRoute string text_collector.collectEndpoint
          (fun W HW => text_collector.WriteMetrics (W := W)) exposeScheduler
          threeEndpoints degraded emptyRegistry scrape (hangsUp 1)
        = Returns (r1, w2, IncRequests (Method scrape) (URLPath scrape) 200
                             (recorded tr emptyRegistry)) /\
      status r1 = Some 200 /\
      body r1 = body (hangsUp 1)
                +:+ joined (sent (writesLeft (hangsUp 1))
                              (order.*2 ++ [exposeScheduler (recorded tr emptyRegistry)])).
Proof.
  eexists _, _. split; [vm_compute; reflexivity|].
  apply (text_route_on_breaking_connection exposeScheduler threeEndpoints degraded).
  - vm_compute. reflexivity.
  - reflexivity.
Defined.

End RouteRuns.

Section AuthMore.
Import GoStrings config runtime metrics collector props server.

Lemma byte_bound (c : ascii) : 0 <= Z.of_N (N_of_ascii c) < 256.
Proof. pose proof (N_ascii_bounded c). lia. Qed.

Lemma log2_byte (a : Z) : 0 <= a < 256 -> Z.log2 a < 8.
Proof.
  intros Ha. destruct (decide (a = 0)) as [->|Hne]; [done|].
  apply Z.log2_lt_pow2; lia.
Qed.

Lemma byte_of_log2 (a : Z) : 0 <= a -> Z.log2 a < 8 -> 0 <= a < 256.
Proof.
  intros Ha Hl. split; [done|]. destruct (decide (a = 0)) as [->|Hne]; [done|].
  apply (Z.log2_lt_pow2 a 8); lia.
Qed.

Lemma lor_byte (a b : Z) : 0 <= a < 256 -> 0 <= b < 256 -> 0 <= Z.lor a b < 256.
Proof.
  intros Ha Hb. apply byte_of_log2; [apply Z.lor_nonneg; lia|].
  rewrite Z.log2_lor by lia. pose proof (log2_byte a Ha). pose proof (log2_byte b Hb). lia.
Qed.

Lemma lxor_byte (a b : Z) : 0 <= a < 256 -> 0 <= b < 256 -> 0 <= Z.lxor a b < 256.
Proof.
  intros Ha Hb. apply byte_of_log2; [apply Z.lxor_nonneg; lia|].
  pose proof (Z.log2_lxor a b ltac:(lia) ltac:(lia)).
  pose proof (log2_byte a Ha). pose proof (log2_byte b Hb). lia.
Qed.

Lemma N_of_ascii_inj (a b : ascii) : N_of_ascii a = N_of_ascii b -> a = b.
Proof.
  intros Hab. rewrite <- (ascii_N_embedding a), <- (ascii_N_embedding b). by rewrite Hab.
Qed.

(** The accumulator of [ConstantTimeCompare] stays a byte and ends at zero
    exactly when it started there and the strings are equal. *)
Lemma xorBytes_zero (x y : string) (v : Z) :
  String.length x = String.length y -> 0 <= v < 256 ->
  0 <= xorBytes x y v < 256 /\ (xorBytes x y v = 0 <-> v = 0 /\ x = y).
Proof.
  revert y v. induction x as [|a x IH]; intros [|b y] v Hlen Hv; try discriminate Hlen.
  - simpl. split; [done|]. split; [by intros -> | by intros [-> _]].
  - simpl in Hlen. injection Hlen as Hlen. simpl xorBytes.
    pose proof (lxor_byte _ _ (byte_bound a) (byte_bound b)) as Hx.
    pose proof (lor_byte _ _ Hv Hx) as Hv'.
    destruct (IH y _ Hlen Hv') as [Hb Hz]. split; [exact Hb|].
    rewrite Hz, Z.lor_eq_0_iff, Z.lxor_eq_0_iff. split.
    + intros [[-> Hab] ->]. apply N2Z.inj, N_of_ascii_inj in Hab. by subst.
    + intros [-> Heq]. injection Heq as -> ->. done.
Qed.

Lemma ConstantTimeByteEq_zero (v : Z) :
  0 <= v < 256 -> ConstantTimeByteEq v 0 = if v =? 0 then 1 else 0.
Proof.
  intros Hv. unfold ConstantTimeByteEq. rewrite Z.lxor_0_r.
  destruct (v =? 0) eqn:Hz.
  - apply Z.eqb_eq in Hz. subst v. reflexivity.
  - apply Z.eqb_neq in Hz. rewrite Z.mod_small by lia.
    rewrite Z.shiftr_div_pow2 by lia. apply Z.div_small. lia.
Qed.

(** [subtle.ConstantTimeCompare] is equality of byte strings. *)
Lemma ConstantTimeCompare_eq (x y : string) :
  ConstantTimeCompare x y = if decide (x = y) then 1 else 0.
Proof.
  unfold ConstantTimeCompare.
  destruct (String.length x =? String.length y)%nat eqn:Hlen; simpl.
  - apply Nat.eqb_eq in Hlen.
    destruct (xorBytes_zero x y 0 Hlen ltac:(lia)) as [Hb Hz].
    rewrite (ConstantTimeByteEq_zero _ Hb).
    destruct (decide (x = y)) as [Heq|Hne].
    + assert (Hx : xorBytes x y 0 = 0) by (by apply Hz). by rewrite Hx.
    + destruct (xorBytes x y 0 =? 0) eqn:Hx; [|done].
      apply Z.eqb_eq, Hz in Hx. by destruct Hx.
  - apply Nat.eqb_neq in Hlen. destruct (decide (x = y)) as [->|Hne]; done.
Qed.

(** X20.  [basicAuthMiddleware] calls the handler it wraps exactly when the
    request carries basic credentials and both the user name and the
    password are, byte for byte, the configured ones; every other request
    gets the challenge header and [http.Error] with status 401, and the
    handler is not called. *)
Theorem basicAuthMiddleware_gate {W T : Type} `{ResponseWriter W}
    (c : Config) (next back : W -> T) (credentials : option (string * string)) (w : W) :
  basicAuthMiddleware c next back credentials w
    = if decide (credentials = Some (Username (BasicAuth (Server c)),
                                     Password (BasicAuth (Server c))))
      then next w
      else back (Error (HeaderSet w "WWW-Authenticate"
                          ("Basic realm=" +:+ str DQUOTE +:+ "Slurm Exporter"
                           +:+ str DQUOTE)%string)
                   "Unauthorized" 401).
Proof.
  unfold basicAuthMiddleware. destruct credentials as [[u p]|]; cbv beta iota zeta.
  - rewrite !ConstantTimeCompare_eq.
    destruct (decide (u = Username (BasicAuth (Server c)))) as [->|Hu];
      destruct (decide (p = Password (BasicAuth (Server c)))) as [->|Hp]; simpl.
    + by rewrite decide_True.
    + rewrite decide_False; [done|]. intros Heq. by injection Heq.
    + rewrite decide_False; [done|]. intros Heq. by injection Heq.
    + rewrite decide_False; [done|]. intros Heq. by injection Heq.
  - rewrite decide_False by done. reflexivity.
Qed.

Context {World : Type} `{Runtime World}.

(** X21.  With basic authentication enabled, a request to [/metrics] whose
    credentials are not the configured ones is answered 401 with the
    challenge, before the instrumented handler: nothing is requested from
    the upstream and the request appears in none of the exporter's own
    metrics.  With the configured credentials, or with authentication
    disabled, the request goes to the instrumented handler. *)
Theorem unauthorized_scrape_leaves_no_trace (Payload : Type)
    (collectEndpoint : Config -> World -> EndpointConfig ->
                       go ((Payload + CollectError) * World))
    (WriteMetrics : forall (W : Type), Writer W -> World -> W -> gmap string Payload ->
                    W * option WriteError * World)
    (expose : Registry -> string) (c : Config) (world : World) (reg : Registry)
    (req : Request) (credentials : option (string * string)) (r0 : response) :
  status r0 = None ->
  if BasicAuth_Enabled (BasicAuth (Server c))
     && negb (bool_decide (credentials = Some (Username (BasicAuth (Server c)),
                                               Password (BasicAuth (Server c)))))
  then exists r1,
         Start_metrics Payload collectEndpoint WriteMetrics expose c world reg req
           credentials r0 = Returns (r1, world, reg) /\
         status r1 = Some 401 /\
         header r1 !! "WWW-Authenticate"%string
           = Some ("Basic realm=" +:+ str DQUOTE +:+ "Slurm Exporter" +:+ str DQUOTE)%string
  else Start_metrics Payload collectEndpoint WriteMetrics expose c world reg req
         credentials r0
       = metricsRoute Payload collectEndpoint WriteMetrics expose c world reg req r0.
Proof.
  intros Hst. unfold Start_metrics.
  destruct (BasicAuth_Enabled (BasicAuth (Server c))); [|done]. simpl andb.
  assert (Hgate : forall T (next back : response -> T),
    basicAuthMiddleware c next back credentials r0
      = if bool_decide (credentials = Some (Username (BasicAuth (Server c)),
                                            Password (BasicAuth (Server c))))
        then next r0
        else back (Error (HeaderSet r0 "WWW-Authenticate"
                            ("Basic realm=" +:+ str DQUOTE +:+ "Slurm Exporter"
                             +:+ str DQUOTE)%string)
                     "Unauthorized" 401)).
  { intros T next back. unfold basicAuthMiddleware.
    destruct credentials as [[u p]|]; cbv beta iota zeta.
    - rewrite !ConstantTimeCompare_eq.
      destruct (decide (u = Username (BasicAuth (Server c)))) as [->|Hu];
        destruct (decide (p = Password (BasicAuth (Server c)))) as [->|Hp]; simpl.
      + by rewrite bool_decide_eq_true_2.
      + rewrite bool_decide_eq_false_2; [done|]. intros Heq. by injection Heq.
      + rewrite bool_decide_eq_false_2; [done|]. intros Heq. by injection Heq.
      + rewrite bool_decide_eq_false_2; [done|]. intros Heq. by injection Heq.
    - rewrite bool_decide_eq_false_2 by done. reflexivity. }
  rewrite Hgate. destruct (bool_decide _); simpl negb; cbv iota; [done|].
  eexists. split; [reflexivity|].
  unfold Error. simpl. unfold response_Write, response_WriteHeader, response_HeaderSet.
  rewrite Hst. simpl. destruct (writesLeft r0) as [[|n]|]; simpl.
  - split; [done|]. rewrite !lookup_insert_ne by done. by rewrite lookup_insert_eq.
  - split; [done|]. rewrite !lookup_insert_ne by done. by rewrite lookup_insert_eq.
  - split; [done|]. rewrite !lookup_insert_ne by done. by rewrite lookup_insert_eq.
Qed.

End AuthMore.

Section AuthRuns.
Import GoStrings config runtime metrics collector props server fixtures.

(** A request without credentials, on a fresh response: status 401, the
    challenge in the header, and the message as the body. *)
Lemma unauthorized_response :
  basicAuthMiddleware (mkConfig [nodes] oneLabel) (fun _ => None) Some None fresh
    = Some {| status := Some 401;
              header := {[ "WWW-Authenticate" := "Basic realm=" +:+ quoted "Slurm Exporter";
                           "Content-Type" := "text/plain; charset=utf-8";
                           "X-Content-Type-Options" := "nosniff" ]}%string;
              body := ("Unauthorized" +:+ str LF)%string;
              writesLeft := None |}.
Proof. vm_compute. reflexivity. Qed.

Lemma unauthorized_scrape_leaves_no_trace_witness :
  exists r1,
    Start_metrics string text_collector.collectEndpoint
        (fun W HW => text_collector.WriteMetrics (W := W)) exposeScheduler
        withAuth degraded emptyRegistry scrape (Some ("prom", "guess")%string) fresh
      = Returns (r1, degraded, emptyRegistry) /\
    status r1 = Some 401 /\
    header r1 !! "WWW-Authenticate"%string
      = Some ("Basic realm=" +:+ str DQUOTE +:+ "Slurm Exporter" +:+ str DQUOTE)%string.
Proof.
  apply (unauthorized_scrape_leaves_no_trace string text_collector.collectEndpoint
           (fun W HW => text_collector.WriteMetrics (W := W)) exposeScheduler
           withAuth degraded emptyRegistry scrape (Some ("prom", "guess")%string) fresh).
  reflexivity.
Defined.

End AuthRuns.
